(** * cryptage.py: backup, sealing and restoring of files

    A shallow embedding of [src/cryptage.py] and the properties of its two
    pipelines, [sauvegarder_et_chiffrer] and [dechiffrer_fichiers].

    The program is a sequence of calls to the operating system ([os],
    [os.path], [shutil], [open]) and to [cryptography.fernet.Fernet].
    The file is organised as follows:
    - [PyStr]: the string functions of Python the program calls;
    - [Posix]: a file system (a finite map from resolved paths to nodes),
      path resolution and the system calls, each returning the Python
      exception it raises;
    - [Env]: Fernet and the order of a directory listing, which are not part
      of the program, and the laws assumed of them;
    - [Cryptage]: the two functions of the program, statement by statement;
    - [Toy]: a small environment and a few file systems to run the program
      on;
    - [Souple]: a cipher that decodes its tokens leniently, as Fernet does;
    - [Cli]: the command line of the script;
    - [Console]: the two functions with their prints;
    - the properties: those of the two functions first, then the
      exceptions of a run, what a run leaves alone, whole directories, the
      command line and two edge cases. *)

From Stdlib.Strings Require Import Ascii String Byte.
From stdpp Require Import base option list strings gmap fin_maps.

(** ** Python strings *)

Module PyStr.

Definition sep : ascii := "/"%char.

Definition char_eq (a b : ascii) : bool := bool_decide (a = b).
Global Arguments char_eq : simpl never.

Definition is_sep (c : ascii) : bool := char_eq c sep.

(** [s.startswith(p)] *)
Fixpoint startswith (s p : string) {struct p} : bool :=
  match p, s with
  | "", _ => true
  | String _ _, "" => false
  | String a p', String b s' => char_eq a b && startswith s' p'
  end.

(** [s.endswith('/')] *)
Fixpoint endswith_sep (s : string) : bool :=
  match s with
  | "" => false
  | String c "" => is_sep c
  | String _ s' => endswith_sep s'
  end.

(** ['/' in s] *)
Fixpoint has_sep (s : string) : bool :=
  match s with
  | "" => false
  | String c s' => is_sep c || has_sep s'
  end.

(** [s.rstrip('/')] *)
Fixpoint rstrip_sep (s : string) : string :=
  match s with
  | "" => ""
  | String c s' =>
      match rstrip_sep s' with
      | "" => if is_sep c then "" else String c ""
      | r => String c r
      end
  end.

(** [(p[:i], p[i:])] for [i = p.rfind('/') + 1]. *)
Fixpoint cut_last_sep (p : string) : string * string :=
  match p with
  | "" => ("", "")
  | String c p' =>
      let '(h, t) := cut_last_sep p' in
      match h with
      | "" => if is_sep c then (String c "", t) else ("", String c t)
      | _ => (String c h, t)
      end
  end.

(** [posixpath.split]:
<<
    i = p.rfind(sep) + 1
    head, tail = p[:i], p[i:]
    if head and head != sep*len(head):
        head = head.rstrip(sep)
    return head, tail
>> *)
Definition os_path_split (p : string) : string * string :=
  let '(head, tail) := cut_last_sep p in
  match rstrip_sep head with
  | "" => (head, tail)
  | stripped => (stripped, tail)
  end.

Definition os_path_dirname (p : string) : string := fst (os_path_split p).
Definition os_path_basename (p : string) : string := snd (os_path_split p).

(** [posixpath.join(a, b)] with two arguments:
<<
    path = a
    if b.startswith(sep):   path = b
    elif not path or path.endswith(sep):   path += b
    else:   path += sep + b
>> *)
Definition os_path_join (a b : string) : string :=
  if startswith b "/" then b
  else if bool_decide (a = "") || endswith_sep a then a +:+ b
  else a +:+ "/" +:+ b.

(** [s.replace(old, new)]: the occurrences of [old] are found from left to
    right and do not overlap.  [skip] counts the characters of the
    occurrence being replaced that remain to be dropped. *)
Fixpoint replace_from (old new : string) (skip : nat) (s : string) : string :=
  match s with
  | "" => ""
  | String c s' =>
      match skip with
      | S k => replace_from old new k s'
      | O =>
          if startswith s old
          then new +:+ replace_from old new (String.length old - 1) s'
          else String c (replace_from old new 0 s')
      end
  end.

(** With an empty [old], Python inserts [new] before every character and at
    the end. *)
Fixpoint intersperse (new s : string) : string :=
  match s with
  | "" => new
  | String c s' => new +:+ String c (intersperse new s')
  end.

Definition str_replace (s old new : string) : string :=
  match old with
  | "" => intersperse new s
  | _ => replace_from old new 0 s
  end.

(** [sub in s] *)
Fixpoint contains (s sub : string) : bool :=
  startswith s sub ||
  match s with
  | "" => false
  | String _ s' => contains s' sub
  end.

(** [c in s] *)
Fixpoint has_char (s : string) (c : ascii) : bool :=
  match s with
  | "" => false
  | String x s' => char_eq x c || has_char s' c
  end.

(** ['/' * n] *)
Fixpoint seps (n : nat) : string :=
  match n with
  | O => ""
  | S n => seps n +:+ "/"
  end.

(** [s.split('/')] *)
Fixpoint split_sep (s : string) : list string :=
  match s with
  | "" => [""]
  | String c s' =>
      if is_sep c then "" :: split_sep s'
      else match split_sep s' with
           | h :: t => String c h :: t
           | [] => [String c ""]
           end
  end.

(** The components of a path: all but the last, and the last. *)
Definition init_comps (s : string) : list string := removelast (split_sep s).
Definition last_comp (s : string) : string := List.last (split_sep s) "".

End PyStr.

Import PyStr.

(** ** The operating system

    The file system is a finite map from resolved paths (the list of the
    names from the root, [[]] being the root directory) to nodes.  There are
    no symbolic links, no hard links, no permissions and no special files,
    and a path holds no NUL character, as no argument of a command line
    does.  A call either returns a value or raises a Python exception; the state it
    leaves is kept in both cases.  An exception is named by the class that
    is raised: [UnicodeEncodeError], which [print] raises, is a
    [ValueError] for Python and is kept apart from the [ValueError] that
    [Fernet] raises. *)

Module Posix.

Inductive exception : Type :=
  | FileNotFoundError
  | NotADirectoryError
  | IsADirectoryError
  | FileExistsError
  | SameFileError
  | TypeError
  | ValueError
  | InvalidToken
  | UnicodeEncodeError.

Inductive result (A : Type) : Type :=
  | Ok (a : A)
  | Raise (e : exception).
Arguments Ok {A} a.
Arguments Raise {A} e.

Abbreviation bytes := (list byte).
Abbreviation key := (list string).

Inductive node : Type :=
  | File (data : bytes)
  | Dir.

(** [entropy] counts the draws made from the system's random source (and
    clock) so far. *)
Record world : Type := World {
  files : gmap key node;
  cwd : key;
  entropy : nat
}.

Definition set_files (w : world) (m : gmap key node) : world :=
  World m (cwd w) (entropy w).

Definition M (A : Type) : Type := world -> world * result A.

Definition ret {A} (a : A) : M A := fun w => (w, Ok a).
Definition raise {A} (e : exception) : M A := fun w => (w, Raise e).
Definition bind {A B} (c : M A) (k : A -> M B) : M B :=
  fun w => match c w with
           | (w', Ok a) => k a w'
           | (w', Raise e) => (w', Raise e)
           end.
(** A query reads the state and never fails. *)
Definition query {A} (f : world -> A) : M A := fun w => (w, Ok (f w)).

Declare Scope py_scope.
Delimit Scope py_scope with py.
Notation "'let*' x ':=' c 'in' k" := (bind c (fun x => k))
  (at level 10, x pattern, c at level 100, k at level 200) : py_scope.
Notation "c ';;' k" := (bind c (fun _ => k))
  (at level 100, k at level 200, right associativity) : py_scope.
Local Open Scope py_scope.

(** [for x in l: body(x)] *)
Fixpoint for_each {A} (l : list A) (body : A -> M unit) : M unit :=
  match l with
  | [] => ret tt
  | x :: l' => body x ;; for_each l' body
  end.

(** *** Path resolution *)

Definition is_dir_at (m : gmap key node) (k : key) : bool :=
  match k with
  | [] => true
  | _ => match m !! k with Some Dir => true | _ => false end
  end.

Definition exists_at (m : gmap key node) (k : key) : bool :=
  match k with
  | [] => true
  | _ => match m !! k with Some _ => true | None => false end
  end.

(** A component that names no entry of its own: the empty one (between two
    slashes, or after the last) and [.]. *)
Definition is_dot (c : string) : bool :=
  bool_decide (c = "") || bool_decide (c = ".").

Definition is_dotdot (c : string) : bool := bool_decide (c = "..").

(** The walk of the kernel: every component is looked up in a directory. *)
Fixpoint walk (m : gmap key node) (cur : key) (comps : list string) : result key :=
  match comps with
  | [] => Ok cur
  | c :: rest =>
      if is_dir_at m cur then
        if is_dot c then walk m cur rest
        else if is_dotdot c then walk m (removelast cur) rest
        else walk m (cur ++ [c]) rest
      else if exists_at m cur then Raise NotADirectoryError
      else Raise FileNotFoundError
  end.

Definition resolve (w : world) (p : string) : result key :=
  if bool_decide (p = "") then Raise FileNotFoundError
  else walk (files w) (if startswith p "/" then [] else cwd w) (split_sep p).

(** A plain name: what a directory entry can be called. *)
Definition valid_name (c : string) : bool :=
  negb (is_dot c) && negb (is_dotdot c) && negb (has_sep c).

(** In a well-formed file system the names are plain and every entry lies
    in a directory. *)
Definition well_formed (m : gmap key node) : bool :=
  forallb (fun kv => forallb valid_name kv.1 && is_dir_at m (removelast kv.1))
          (map_to_list m).

(** Two file systems with the same directories resolve paths alike. *)
Definition dirs_eq (m m' : gmap key node) : Prop :=
  forall k, is_dir_at m k = is_dir_at m' k.

Definition dirs_eqw (w w' : world) : Prop :=
  dirs_eq (files w) (files w') /\ cwd w = cwd w'.

(** [m'] has the directories of [m], and possibly more. *)
Definition dirs_le (m m' : gmap key node) : Prop :=
  forall k, is_dir_at m k = true -> is_dir_at m' k = true.

(** *** [os.path] queries *)

Definition os_path_isdir (w : world) (p : string) : bool :=
  match resolve w p with
  | Ok k => is_dir_at (files w) k
  | Raise _ => false
  end.

Definition os_path_isfile (w : world) (p : string) : bool :=
  match resolve w p with
  | Ok k => match files w !! k with Some (File _) => true | _ => false end
  | Raise _ => false
  end.

Definition os_path_exists (w : world) (p : string) : bool :=
  match resolve w p with
  | Ok k => exists_at (files w) k
  | Raise _ => false
  end.

(** [os.path.samefile], with its [OSError] caught as [shutil._samefile]
    does. *)
Definition samefile (w : world) (p q : string) : bool :=
  match resolve w p, resolve w q with
  | Ok k1, Ok k2 => bool_decide (k1 = k2) && exists_at (files w) k1
  | _, _ => false
  end.

(** [open(p, 'wb')] would succeed: [p] resolves and is not a directory. *)
Definition writable (w : world) (p : string) : bool :=
  match resolve w p with
  | Ok k => negb (is_dir_at (files w) k)
  | Raise _ => false
  end.

(** *** Files *)

(** [with open(p, 'rb') as f: f.read()] *)
Definition read_file (p : string) : M bytes := fun w =>
  match resolve w p with
  | Raise e => (w, Raise e)
  | Ok k =>
      if is_dir_at (files w) k then (w, Raise IsADirectoryError)
      else match files w !! k with
           | Some (File d) => (w, Ok d)
           | _ => (w, Raise FileNotFoundError)
           end
  end.

(** [with open(p, 'wb') as f: f.write(d)].  [open] creates the file it
    does not find, and a missing name written with a trailing slash is
    then [EISDIR], [IsADirectoryError], where the walk alone says
    [ENOENT]. *)
Definition write_file (p : string) (d : bytes) : M unit := fun w =>
  match resolve w p with
  | Raise e =>
      if endswith_sep p then
        match resolve w (rstrip_sep p) with
        | Ok k =>
            if exists_at (files w) k then (w, Raise e)
            else (w, Raise IsADirectoryError)
        | Raise _ => (w, Raise e)
        end
      else (w, Raise e)
  | Ok k =>
      if is_dir_at (files w) k then (w, Raise IsADirectoryError)
      else (set_files w (<[k := File d]> (files w)), Ok tt)
  end.

(** [os.remove(p)] *)
Definition os_remove (p : string) : M unit := fun w =>
  match resolve w p with
  | Raise e => (w, Raise e)
  | Ok k =>
      if is_dir_at (files w) k then (w, Raise IsADirectoryError)
      else match files w !! k with
           | Some _ => (set_files w (delete k (files w)), Ok tt)
           | None => (w, Raise FileNotFoundError)
           end
  end.

(** [shutil.copy(src, dst)]:
<<
    if os.path.isdir(dst):
        dst = os.path.join(dst, os.path.basename(src))
    copyfile(src, dst)      # SameFileError, then open(src), open(dst)
    copymode(src, dst)
>> *)
Definition shutil_copy (src dst : string) : M unit :=
  let* dst_isdir := query (fun w => os_path_isdir w dst) in
  let dst := if dst_isdir : bool then os_path_join dst (os_path_basename src) else dst in
  let* same := query (fun w => samefile w src dst) in
  if same : bool then raise SameFileError
  else let* d := read_file src in write_file dst d.

(** *** Directories *)

(** The name of [k'] in the directory [k], when [k'] is an entry of it. *)
Definition child_of (k k' : key) : option string :=
  if bool_decide (removelast k' = k) then last k' else None.

Definition entries (m : gmap key node) (k : key) : list string :=
  omap (fun kv => child_of k kv.1) (map_to_list m).

(** [os.listdir(p)].  The order of the names is the system's: [order]
    is applied to the names of the entries. *)
Definition os_listdir (order : list string -> list string) (p : string)
  : M (list string) := fun w =>
  match resolve w p with
  | Raise e => (w, Raise e)
  | Ok k =>
      if is_dir_at (files w) k then (w, Ok (order (entries (files w) k)))
      else if exists_at (files w) k then (w, Raise NotADirectoryError)
      else (w, Raise FileNotFoundError)
  end.

(** [os.mkdir(p)]; trailing slashes are allowed. *)
Definition os_mkdir (p : string) : M unit := fun w =>
  let p' := match rstrip_sep p with "" => p | s => s end in
  match resolve w p' with
  | Raise e => (w, Raise e)
  | Ok k =>
      if exists_at (files w) k then (w, Raise FileExistsError)
      else (set_files w (<[k := Dir]> (files w)), Ok tt)
  end.

(** [os.makedirs(name)] ([exist_ok=False]):
<<
    head, tail = path.split(name)
    if not tail:
        head, tail = path.split(head)
    if head and tail and not path.exists(head):
        try:
            makedirs(head, exist_ok=exist_ok)
        except FileExistsError:
            pass
        if tail == curdir:
            return
    mkdir(name, mode)
>>
    The recursive call is on [head], which is shorter than [name]: [fuel]
    bounds the depth, and [os_makedirs] gives the length of [name]. *)
Fixpoint makedirs_fuel (fuel : nat) (name : string) : M unit :=
  let '(head, tail) := os_path_split name in
  let '(head, tail) :=
    if bool_decide (tail = "") then os_path_split head else (head, tail) in
  let* head_exists := query (fun w => os_path_exists w head) in
  if negb (bool_decide (head = "")) && negb (bool_decide (tail = ""))
     && negb head_exists
  then
    match fuel with
    | O => os_mkdir name
    | S fuel' =>
        (fun w => match makedirs_fuel fuel' head w with
                  | (w', Raise FileExistsError) => (w', Ok tt)
                  | r => r
                  end) ;;
        if bool_decide (tail = ".") then ret tt else os_mkdir name
    end
  else os_mkdir name.

Definition os_makedirs (name : string) : M unit :=
  makedirs_fuel (String.length name) name.

End Posix.

Import Posix.
Local Open Scope py_scope.

(** ** The external collaborators

    [cryptography.fernet.Fernet] and the order in which the system lists a
    directory are not part of the program: they are the fields of an
    environment.  [fernet_generate_key n] and [fernet_encrypt k n p] take
    the number [n] of the random draw they consume. *)

Record Env : Type := {
  fernet_valid_key : bytes -> bool;
  fernet_generate_key : nat -> bytes;
  fernet_encrypt : bytes -> nat -> bytes -> bytes;
  fernet_decrypt : bytes -> bytes -> option bytes;
  listdir_order : list string -> list string
}.

(** [c] is a token sealed under [k]. *)
Definition sealed_under (E : Env) (k c : bytes) : Prop :=
  exists n p, c = fernet_encrypt E k n p.

(** What the program assumes of its collaborators, law by law: a
    property of the program names the laws it rests on.

    [Fernet.generate_key()] returns a key that [Fernet] accepts. *)
Definition generate_key_valid (E : Env) : Prop :=
  forall n, fernet_valid_key E (fernet_generate_key E n) = true.

(** Under a key that [Fernet] accepts, [decrypt] opens what [encrypt]
    sealed. *)
Definition decrypt_encrypt (E : Env) : Prop :=
  forall k n p,
    fernet_valid_key E k = true ->
    fernet_decrypt E k (fernet_encrypt E k n p) = Some p.

(** [os.listdir] gives every entry once, in an order of its own. *)
Definition listdir_order_perm (E : Env) : Prop :=
  forall l, listdir_order E l ≡ₚ l.

(** ** The program *)

Module Cryptage.
Section Program.
Context (E : Env).

Definition draw : M nat := fun w =>
  (World (files w) (cwd w) (S (entropy w)), Ok (entropy w)).

(** [Fernet.generate_key()] *)
Definition Fernet_generate_key : M bytes :=
  let* n := draw in ret (fernet_generate_key E n).

(** [Fernet(cle)]: the key is checked when the suite is built. *)
Definition Fernet (cle : bytes) : M bytes :=
  if fernet_valid_key E cle then ret cle else raise ValueError.

(** [suite_chiffrement.encrypt(donnees)] *)
Definition encrypt (suite_chiffrement donnees : bytes) : M bytes :=
  let* n := draw in ret (fernet_encrypt E suite_chiffrement n donnees).

(** [suite_chiffrement.decrypt(donnees)] *)
Definition decrypt (suite_chiffrement donnees : bytes) : M bytes :=
  match fernet_decrypt E suite_chiffrement donnees with
  | Some p => ret p
  | None => raise InvalidToken
  end.

(** Lines 39-43: the key given by the caller, or a new one. *)
Definition choisir_cle (cle_specifiee : option bytes) : M bytes :=
  match cle_specifiee with
  | Some c => ret c
  | None => Fernet_generate_key
  end.

Definition isdir (p : string) : M bool := query (fun w => os_path_isdir w p).
Definition isfile (p : string) : M bool := query (fun w => os_path_isfile w p).
Definition path_exists (p : string) : M bool := query (fun w => os_path_exists w p).

(** Lines 62-68 and 81-87: copy, then seal the copy in place. *)
Definition copier_et_chiffrer (suite_chiffrement : bytes)
    (chemin_fichier_source chemin_fichier_sauvegarde : string) : M unit :=
  shutil_copy chemin_fichier_source chemin_fichier_sauvegarde ;;
  let* donnees_fichier := read_file chemin_fichier_sauvegarde in
  let* donnees_chiffrees := encrypt suite_chiffrement donnees_fichier in
  write_file chemin_fichier_sauvegarde donnees_chiffrees.

(** Lines 57-68: the body of the loop over the source directory. *)
Definition chiffrer_entree (suite_chiffrement : bytes)
    (chemin_source chemin_sauvegarde fichier : string) : M unit :=
  let chemin_fichier_source := os_path_join chemin_source fichier in
  let chemin_fichier_sauvegarde :=
    os_path_join chemin_sauvegarde (fichier +:+ ".encrypted") in
  copier_et_chiffrer suite_chiffrement chemin_fichier_source chemin_fichier_sauvegarde.

(** Lines 47-87: the source is processed, and the value of the variable
    [chemin_sauvegarde] after it is returned. *)
Definition traiter_source (suite_chiffrement : bytes) (chemin_source : string)
    (chemin_sauvegarde : option string) : M (option string) :=
  let* source_est_dossier := isdir chemin_source in
  if source_est_dossier : bool then
    let chemin_sauvegarde :=
      match chemin_sauvegarde with
      | None => chemin_source +:+ "_chiffre"
      | Some d => d
      end in
    let* existe := path_exists chemin_sauvegarde in
    (if existe : bool then ret tt else os_makedirs chemin_sauvegarde) ;;
    let* fichiers := os_listdir (listdir_order E) chemin_source in
    for_each fichiers
      (chiffrer_entree suite_chiffrement chemin_source chemin_sauvegarde) ;;
    ret (Some chemin_sauvegarde)
  else
    let* source_est_fichier := isfile chemin_source in
    if source_est_fichier : bool then
      let* chemin_sauvegarde :=
        match chemin_sauvegarde with
        | Some d =>
            let* existe := path_exists d in
            (if existe : bool then ret tt else os_makedirs d) ;;
            ret (os_path_join d (os_path_basename chemin_source +:+ ".encrypted"))
        | None => ret (chemin_source +:+ ".encrypted")
        end in
      copier_et_chiffrer suite_chiffrement chemin_source chemin_sauvegarde ;;
      ret (Some chemin_sauvegarde)
    else ret chemin_sauvegarde.

(** Lines 89-98: the key is saved.  [os.path.dirname(None)] raises
    [TypeError].  The two prints, which follow the writing of the key, are
    those of [Console.enregistrer_cle]. *)
Definition enregistrer_cle (cle : bytes) (chemin_sauvegarde chemin_cle : option string)
    (cle_specifiee : option bytes) : M unit :=
  match chemin_cle, cle_specifiee with
  | None, None =>
      match chemin_sauvegarde with
      | None => raise TypeError
      | Some d =>
          let chemin_cle := os_path_join (os_path_dirname d) "cle.key" in
          write_file chemin_cle cle
      end
  | Some chemin_cle, _ => write_file chemin_cle cle
  | None, Some _ => ret tt
  end.

(** The path [enregistrer_cle] writes, when it writes one. *)
Definition chemin_cle_enregistree (chemin_sauvegarde : string)
    (chemin_cle : option string) (cle_specifiee : option bytes) : option string :=
  match chemin_cle, cle_specifiee with
  | None, None => Some (os_path_join (os_path_dirname chemin_sauvegarde) "cle.key")
  | Some chemin_cle, _ => Some chemin_cle
  | None, Some _ => None
  end.

Definition sauvegarder_et_chiffrer (chemin_source : string)
    (chemin_sauvegarde chemin_cle : option string) (cle_specifiee : option bytes)
    : M unit :=
  let* cle := choisir_cle cle_specifiee in
  let* suite_chiffrement := Fernet cle in
  let* chemin_sauvegarde :=
    traiter_source suite_chiffrement chemin_source chemin_sauvegarde in
  enregistrer_cle cle chemin_sauvegarde chemin_cle cle_specifiee.

(** Lines 129-140 and 144-155: open the sealed file, write the result under
    the name without ['.encrypted'], remove the sealed file. *)
Definition dechiffrer_un (suite_chiffrement : bytes)
    (chemin_fichier_sauvegarde chemin_fichier_final : string) : M unit :=
  let* donnees_chiffrees := read_file chemin_fichier_sauvegarde in
  let* donnees_dechiffrees := decrypt suite_chiffrement donnees_chiffrees in
  write_file chemin_fichier_final donnees_dechiffrees ;;
  os_remove chemin_fichier_sauvegarde.

(** Lines 123-140: the body of the loop over the vault. *)
Definition dechiffrer_entree (suite_chiffrement : bytes)
    (chemin_sauvegarde fichier : string) : M unit :=
  if bool_decide (fichier = "cle.key") then ret tt
  else
    let chemin_fichier_sauvegarde := os_path_join chemin_sauvegarde fichier in
    let chemin_fichier_final :=
      os_path_join chemin_sauvegarde (str_replace fichier ".encrypted" "") in
    dechiffrer_un suite_chiffrement chemin_fichier_sauvegarde chemin_fichier_final.

Definition dechiffrer_fichiers (chemin_sauvegarde : string)
    (chemin_cle : option string) : M unit :=
  let chemin_cle :=
    match chemin_cle with
    | None => os_path_join (os_path_dirname chemin_sauvegarde) "cle.key"
    | Some p => p
    end in
  let* cle := read_file chemin_cle in
  let* suite_chiffrement := Fernet cle in
  let* sauvegarde_est_dossier := isdir chemin_sauvegarde in
  if sauvegarde_est_dossier : bool then
    let* fichiers := os_listdir (listdir_order E) chemin_sauvegarde in
    for_each fichiers (dechiffrer_entree suite_chiffrement chemin_sauvegarde)
  else
    let* sauvegarde_est_fichier := isfile chemin_sauvegarde in
    if sauvegarde_est_fichier : bool then
      dechiffrer_un suite_chiffrement chemin_sauvegarde
        (str_replace chemin_sauvegarde ".encrypted" "")
    else ret tt.

End Program.
End Cryptage.

Import Cryptage.

(** ** A small environment to run the program on *)

Module Toy.

Fixpoint strip_prefix (k c : bytes) : option bytes :=
  match k, c with
  | [], _ => Some c
  | x :: k', y :: c' => if Byte.eqb x y then strip_prefix k' c' else None
  | _ :: _, [] => None
  end.

Definition valid_key (k : bytes) : bool := bool_decide (length k = 2).

Definition nonce (n : nat) : byte :=
  match Byte.of_nat (n mod 256) with Some b => b | None => x00 end.

(** The token is the key, a nonce and the plaintext: nothing is hidden, but
    it opens under its key only. *)
Definition seal (k : bytes) (n : nat) (p : bytes) : bytes := k ++ nonce n :: p.

Definition unseal (k c : bytes) : option bytes :=
  if valid_key k then
    match strip_prefix k c with
    | Some (_ :: p) => Some p
    | _ => None
    end
  else None.

Definition env : Env := {|
  fernet_valid_key := valid_key;
  fernet_generate_key := fun n => [x4b; nonce n];
  fernet_encrypt := seal;
  fernet_decrypt := unseal;
  listdir_order := reverse
|}.

Definition b (s : string) : bytes := list_byte_of_string s.

Definition mk (l : list (key * node)) : world :=
  {| files := list_to_map l; cwd := []; entropy := 0 |}.

Definition cle : bytes := [x4b; x00].

(** [docs/] holds [a.txt] and [b.txt]; the program runs in the root. *)
Definition docs : world :=
  mk [ (["docs"], Dir);
       (["docs"; "a.txt"], File (b "hello"));
       (["docs"; "b.txt"], File (b "world")) ].

(** [docs/] with a sub-directory, listed between the two files. *)
Definition docs_sub : world :=
  mk [ (["docs"], Dir);
       (["docs"; "a.txt"], File (b "hello"));
       (["docs"; "sauv"], Dir);
       (["docs"; "zz"], File (b "world")) ].

(** A single file. *)
Definition seul : world := mk [ (["a.txt"], File (b "hello")) ].

(** A vault whose entry has no ['.encrypted'] in its name. *)
Definition coffre : world :=
  mk [ (["cle.key"], File cle);
       (["coffre"], Dir);
       (["coffre"; "note"], File (seal cle 1 (b "hello"))) ].

(** The same entry as a single file. *)
Definition note : world :=
  mk [ (["cle.key"], File cle);
       (["note"], File (seal cle 1 (b "hello"))) ].

(** A vault whose second entry was altered: its first byte is not the one
    of a token under [cle]. *)
Definition coffre_altere : world :=
  mk [ (["cle.key"], File cle);
       (["coffre"], Dir);
       (["coffre"; "a.txt.encrypted"], File (seal cle 1 (b "hello")));
       (["coffre"; "b.txt.encrypted"], File (x4a :: x00 :: x02 :: b "world")) ].

(** A vault that holds a [cle.key] of its own. *)
Definition coffre_avec_cle : world :=
  mk [ (["cle.key"], File cle);
       (["coffre"], Dir);
       (["coffre"; "cle.key"], File cle);
       (["coffre"; "a.txt.encrypted"], File (seal cle 1 (b "hello"))) ].

End Toy.

(** ** Invariants of a run *)

(** [c] keeps [Inv], whether it returns or raises. *)
Definition keeps {A} (Inv : world -> Prop) (c : M A) : Prop :=
  forall w w' r, Inv w -> c w = (w', r) -> Inv w'.

(** The directories and the working directory are those of [w0]. *)
Definition same_dirs_as (w0 : world) : world -> Prop := dirs_eqw w0.

(** The directories of [w] are directories of [w']. *)
Definition dirs_lew (w w' : world) : Prop :=
  dirs_le (files w) (files w') /\ cwd w = cwd w'.

(** The directories are those of [w0] and [kk] is still a file. *)
Definition key_file_kept (w0 : world) (kk : key) (w : world) : Prop :=
  dirs_eqw w0 w /\ exists d, files w !! kk = Some (File d).

(** ** Three statements of the specification that the program does not meet *)

(** A source that is neither a file nor a directory: the backup raises
    [FileNotFoundError] and writes nothing. *)
Definition missing_source_claim (E : Env) (src : string) (dst kp : option string)
    (ks : option bytes) (w : world) : Prop :=
  os_path_isdir w src = false -> os_path_isfile w src = false ->
  exists w', sauvegarder_et_chiffrer E src dst kp ks w = (w', Raise FileNotFoundError) /\
             files w' = files w.

(** A single file, no destination: the one new entry is the sibling
    [<source>.encrypted], and the source keeps its contents. *)
Definition sibling_only_claim (E : Env) (src : string) (kp : option string)
    (ks : option bytes) (w : world) : Prop :=
  forall P, read_file src w = (w, Ok P) ->
  exists w', sauvegarder_et_chiffrer E src None kp ks w = (w', Ok tt) /\
    (forall k, files w !! k = None ->
       (is_Some (files w' !! k) <-> resolve w (src +:+ ".encrypted") = Ok k)) /\
    read_file src w' = (w', Ok P).

(** Bytes that are no token sealed under the key, in a single sealed file:
    the restore raises [InvalidToken] and changes nothing. *)
Definition unsealed_entry_claim (E : Env) (v : string) (kp : option string)
    (w : world) (K : bytes) : Prop :=
  forall c, read_file v w = (w, Ok c) -> ~ sealed_under E K c ->
    dechiffrer_fichiers E v kp w = (w, Raise InvalidToken).

(** ** A cipher that decodes leniently

    Fernet decodes a token from base64 before it authenticates it, and the
    decoding ignores what is not part of the encoding: a token with a line
    feed appended opens as the token does.  So does this cipher: a token
    ends in [xff], and the line feeds after it are ignored. *)

Module Souple.

Definition seal (k : bytes) (n : nat) (p : bytes) : bytes :=
  k ++ Toy.nonce n :: p ++ [xff].

(** The bytes without the line feeds at their end. *)
Fixpoint rstrip_lf (l : bytes) : bytes :=
  match l with
  | [] => []
  | x :: l' =>
      match rstrip_lf l' with
      | [] => if Byte.eqb x x0a then [] else [x]
      | r => x :: r
      end
  end.

Definition unseal (k c : bytes) : option bytes :=
  if Toy.valid_key k then
    match Toy.strip_prefix k c with
    | Some (_ :: r) =>
        match last (rstrip_lf r) with
        | Some xff => Some (removelast (rstrip_lf r))
        | _ => None
        end
    | _ => None
    end
  else None.

Definition env : Env := {|
  fernet_valid_key := Toy.valid_key;
  fernet_generate_key := fun n => [x4b; Toy.nonce n];
  fernet_encrypt := seal;
  fernet_decrypt := unseal;
  listdir_order := reverse
|}.

(** A sealed file whose token has a line feed appended. *)
Definition note : world :=
  Toy.mk [ (["cle.key"], File Toy.cle);
           (["note.encrypted"], File (seal Toy.cle 1 (Toy.b "hello") ++ [x0a])) ].

End Souple.

(** * The rest of the program *)

(** ** The command line (lines 160-182)

    [sys.argv] is the list of the arguments, the name of the script first.
    What the script prints is not modelled.  [str.encode] is Python's: it
    is a parameter, and [None] stands for its [UnicodeEncodeError]. *)

Module Cli.
Section Main.
Context (E : Env) (str_encode : string -> option bytes).

(** How the script ends when no exception of the two functions escapes:
    at its last line, in [sys.exit(code)], or in the [UnicodeEncodeError]
    of [sys.argv[5].encode()]. *)
Inductive status : Type :=
  | Termine
  | SystemExit (code : nat)
  | UnicodeEncodeError.

(** [sys.argv[i] if len(sys.argv) > i else None] *)
Definition argument (argv : list string) (i : nat) : option string :=
  if bool_decide (i < length argv) then Some (nth i argv "") else None.

Definition main (argv : list string) : M status :=
  if bool_decide (length argv < 3) then ret (SystemExit 1)
  else
    let mode := nth 1 argv "" in
    if bool_decide (mode = "chiffrer") then
      let chemin_source := nth 2 argv "" in
      let chemin_sauvegarde := argument argv 3 in
      let chemin_cle := argument argv 4 in
      match argument argv 5 with
      | None =>
          sauvegarder_et_chiffrer E chemin_source chemin_sauvegarde chemin_cle None ;;
          ret Termine
      | Some s =>
          match str_encode s with
          | None => ret UnicodeEncodeError
          | Some cle_specifiee =>
              sauvegarder_et_chiffrer E chemin_source chemin_sauvegarde chemin_cle
                (Some cle_specifiee) ;;
              ret Termine
          end
      end
    else if bool_decide (mode = "dechiffrer") then
      let chemin_sauvegarde := nth 2 argv "" in
      let chemin_cle := argument argv 3 in
      dechiffrer_fichiers E chemin_sauvegarde chemin_cle ;;
      ret Termine
    else ret (SystemExit 1).

End Main.
End Cli.

(** ** The console (lines 94, 98, 100 and 157)

    The two functions print once their calls to the file system and to the
    cipher are done: the message of the key after it is written, and a
    last message.  [print] raises [UnicodeEncodeError] when the encoding of
    [sys.stdout] has no code for a character of the text, as for the
    accents of the messages on an ASCII console or a key path that does not
    encode.  What the console encodes is a parameter.  [Cryptage] holds the
    functions without their prints; these are the functions with them. *)

Module Console.
Section Prints.
Context (E : Env) (stdout_encodes : string -> bool).

Definition print (s : string) : M unit :=
  if stdout_encodes s then ret tt else raise UnicodeEncodeError.

(** Lines 89-98. *)
Definition enregistrer_cle (cle : bytes) (chemin_sauvegarde chemin_cle : option string)
    (cle_specifiee : option bytes) : M unit :=
  match chemin_cle, cle_specifiee with
  | None, None =>
      match chemin_sauvegarde with
      | None => raise TypeError
      | Some d =>
          let chemin_cle := os_path_join (os_path_dirname d) "cle.key" in
          write_file chemin_cle cle ;;
          print ("Clé de chiffrement générée et sauvegardée à : " +:+ chemin_cle)
      end
  | Some chemin_cle, _ =>
      write_file chemin_cle cle ;;
      print ("Clé de chiffrement sauvegardée à : " +:+ chemin_cle)
  | None, Some _ => ret tt
  end.

(** Lines 39-100. *)
Definition sauvegarder_et_chiffrer (chemin_source : string)
    (chemin_sauvegarde chemin_cle : option string) (cle_specifiee : option bytes)
    : M unit :=
  let* cle := choisir_cle E cle_specifiee in
  let* suite_chiffrement := Fernet E cle in
  let* chemin_sauvegarde :=
    traiter_source E suite_chiffrement chemin_source chemin_sauvegarde in
  enregistrer_cle cle chemin_sauvegarde chemin_cle cle_specifiee ;;
  print "Sauvegarde et chiffrement réalisés avec succès.".

(** Lines 111-157: the print is the last statement, after the [if] and
    its [elif]. *)
Definition dechiffrer_fichiers (chemin_sauvegarde : string)
    (chemin_cle : option string) : M unit :=
  Cryptage.dechiffrer_fichiers E chemin_sauvegarde chemin_cle ;;
  print "Déchiffrement terminé avec succès.".

End Prints.
End Console.

(** A console that encodes ASCII only. *)
Definition console_ascii (s : string) : bool :=
  forallb (fun x => bool_decide (Byte.to_nat x < 128)) (list_byte_of_string s).

(** The key file the restore reads (lines 112-113). *)
Definition chemin_cle_lue (chemin_sauvegarde : string) (chemin_cle : option string)
  : string :=
  match chemin_cle with
  | Some p => p
  | None => os_path_join (os_path_dirname chemin_sauvegarde) "cle.key"
  end.

(** ** Exceptions *)

(** The exceptions of the operating system ([OSError] and its subclasses;
    [shutil.SameFileError] is one). *)
Definition os_error (e : exception) : bool :=
  match e with
  | FileNotFoundError | NotADirectoryError | IsADirectoryError
  | FileExistsError | SameFileError => true
  | TypeError | ValueError | InvalidToken | UnicodeEncodeError => false
  end.

Definition is_os_error (e : exception) : Prop := os_error e = true.

(** ** The saving of the key *)

(** The key file the backup writes, when it writes one (lines 91 and 96):
    the key path, or [cle.key] in [os.path.dirname] of what
    [chemin_sauvegarde] has become. *)
Definition chemin_cle_ecrite (chemin_sauvegarde : string) (chemin_cle : option string)
  : string :=
  match chemin_cle with
  | Some p => p
  | None => os_path_join (os_path_dirname chemin_sauvegarde) "cle.key"
  end.

(** [run] is the end of a run that saves the key [cle] at the path [p]
    from the state [w1].  When [p] can be opened for writing, the run
    returns, the file [p] resolves to holds [cle], nothing else changed and
    the key reads back from [p].  When it cannot, the run raises an
    [OSError] in the state [w1]: no key is saved. *)
Definition saves_key (cle : bytes) (p : string) (w1 : world)
    (run : world * result unit) : Prop :=
  (writable w1 p = true ->
     exists k w', resolve w1 p = Ok k /\ run = (w', Ok tt) /\
       files w' = <[k := File cle]> (files w1) /\
       read_file p w' = (w', Ok cle)) /\
  (writable w1 p = false ->
     exists e, run = (w1, Raise e) /\ os_error e = true).

(** [c] raises nothing but exceptions of [P]. *)
Definition raises_only {A} (P : exception -> Prop) (c : M A) : Prop :=
  forall w w' e, c w = (w', Raise e) -> P e.

(** Nothing of [w] is lost in [w']: a directory is still a directory, a file
    is still a file. *)
Definition nothing_lost (w w' : world) : Prop :=
  cwd w = cwd w' /\
  forall k, match files w !! k with
            | Some Dir => files w' !! k = Some Dir
            | Some (File _) => exists d, files w' !! k = Some (File d)
            | None => True
            end.

(** Outside the directory [kv] nothing changed: [k] is not an entry of it. *)
Definition same_outside (kv : key) (w w' : world) : Prop :=
  dirs_eqw w w' /\ entropy w = entropy w' /\
  forall k, (forall c, k <> kv ++ [c]) -> files w' !! k = files w !! k.

(** ** Directories and their sealed copies *)

(** The destination of the backup of a directory (lines 50-51). *)
Definition destination (chemin_source : string) (chemin_sauvegarde : option string)
  : string :=
  match chemin_sauvegarde with
  | Some d => d
  | None => chemin_source +:+ "_chiffre"
  end.

(** The entries of the directory [ks] of [w] are files: none is a
    directory. *)
Definition only_files (w : world) (ks : key) : bool :=
  forallb (fun c => negb (is_dir_at (files w) (ks ++ [c]))) (entries (files w) ks).

(** No entry of the directory [ks] of [w] has ['.encrypted'] in its name. *)
Definition no_encrypted_name (w : world) (ks : key) : bool :=
  forallb (fun c => negb (contains c ".encrypted")) (entries (files w) ks).

(** The directory [kd] of [w'] has the entries of the directory [ks] of
    [w], names and contents. *)
Definition same_entries (w : world) (ks : key) (w' : world) (kd : key) : Prop :=
  forall c, files w' !! (kd ++ [c]) = files w !! (ks ++ [c]).

(** The directory [kd] of [w'] is the sealed copy of the directory [ks] of
    [w]: every file [f] of [ks] has a token of its contents under [K] at
    [f.encrypted], and [kd] holds nothing else. *)
Definition sealed_copy (E : Env) (K : bytes) (w : world) (ks : key)
    (w' : world) (kd : key) : Prop :=
  (forall f P, files w !! (ks ++ [f]) = Some (File P) ->
     exists n, files w' !! (kd ++ [f +:+ ".encrypted"]) =
               Some (File (fernet_encrypt E K n P))) /\
  (forall g, is_Some (files w' !! (kd ++ [g])) ->
     exists f, g = f +:+ ".encrypted" /\ is_Some (files w !! (ks ++ [f]))).

(** A vault with a sub-directory. *)
Definition coffre_sous : world :=
  Toy.mk [ (["cle.key"], File Toy.cle);
           (["coffre"], Dir);
           (["coffre"; "a.txt.encrypted"], File (Toy.seal Toy.cle 1 (Toy.b "hello")));
           (["coffre"; "sous"], Dir) ].

(** A vault beside a key file that holds no key. *)
Definition coffre_sans_cle : world :=
  Toy.mk [ (["cle.key"], File (Toy.b "x"));
           (["coffre"], Dir);
           (["coffre"; "a.txt.encrypted"], File (Toy.seal Toy.cle 1 (Toy.b "hello"))) ].

(** A file beside an empty directory. *)
Definition seul_et_dossier : world :=
  Toy.mk [ (["a.txt"], File (Toy.b "hello"));
           (["out"], Dir) ].

Local Open Scope py_scope.

(** ** The string functions on examples *)

Example ex_join_name : os_path_join "docs" "a.txt" = "docs/a.txt".
Proof. reflexivity. Qed.
Example ex_join_empty : os_path_join "" "cle.key" = "cle.key".
Proof. reflexivity. Qed.
Example ex_join_slash : os_path_join "docs/" "a.txt" = "docs/a.txt".
Proof. reflexivity. Qed.
Example ex_join_absolute : os_path_join "docs" "/a.txt" = "/a.txt".
Proof. reflexivity. Qed.
Example ex_dirname_plain : os_path_dirname "docs_chiffre" = "".
Proof. reflexivity. Qed.
Example ex_dirname_file : os_path_dirname "d/a.txt.encrypted" = "d".
Proof. reflexivity. Qed.
Example ex_dirname_root : os_path_dirname "/a" = "/".
Proof. reflexivity. Qed.
Example ex_dirname_slashes : os_path_dirname "a//b" = "a".
Proof. reflexivity. Qed.
Example ex_dirname_trailing : os_path_dirname "docs_chiffre/" = "docs_chiffre".
Proof. reflexivity. Qed.
Example ex_basename : os_path_basename "d/a.txt" = "a.txt".
Proof. reflexivity. Qed.
Example ex_replace_suffix : str_replace "a.txt.encrypted" ".encrypted" "" = "a.txt".
Proof. reflexivity. Qed.
Example ex_replace_middle : str_replace "a.encrypted.txt.encrypted" ".encrypted" "" = "a.txt".
Proof. reflexivity. Qed.
Example ex_replace_once : str_replace "a.encr.encryptedypted" ".encrypted" "" = "a.encrypted".
Proof. reflexivity. Qed.
Example ex_replace_empty : str_replace "ab" "" "-" = "-a-b-".
Proof. reflexivity. Qed.
Example ex_split : split_sep "a//b/" = ["a"; ""; "b"; ""].
Proof. reflexivity. Qed.

(** ** Strings and paths *)

Lemma str_app_nil_l (s : string) : "" +:+ s = s.
Proof. reflexivity. Qed.

Lemma str_app_cons c (s t : string) : String c s +:+ t = String c (s +:+ t).
Proof. reflexivity. Qed.

Lemma str_app_nil_r (s : string) : s +:+ "" = s.
Proof. induction s as [|c s IH]; [done|]. by rewrite str_app_cons, IH. Qed.

Lemma str_app_assoc (s t u : string) : (s +:+ t) +:+ u = s +:+ t +:+ u.
Proof. induction s as [|c s IH]; [done|]. by rewrite !str_app_cons, IH. Qed.

Lemma split_sep_nonempty s : split_sep s <> [].
Proof.
  destruct s as [|c s]; cbn; [done|].
  destruct (is_sep c); [done|]. destruct (split_sep s); done.
Qed.

Lemma split_sep_init_last s : split_sep s = init_comps s ++ [last_comp s].
Proof. apply app_removelast_last, split_sep_nonempty. Qed.

Lemma split_sep_cons_sep s : split_sep (String sep s) = "" :: split_sep s.
Proof. reflexivity. Qed.

Lemma split_sep_app_sep s t :
  split_sep (s +:+ String sep t) = split_sep s ++ split_sep t.
Proof.
  induction s as [|c s IH]; [done|].
  rewrite str_app_cons. cbn [split_sep]. rewrite IH.
  destruct (is_sep c); [done|].
  pose proof (split_sep_nonempty s). destruct (split_sep s); done.
Qed.

Lemma split_sep_nosep t : has_sep t = false -> split_sep t = [t].
Proof.
  induction t as [|c t IH]; [done|]. cbn. intros [Hc Ht]%orb_false_iff.
  rewrite Hc, IH by done. done.
Qed.

Lemma split_sep_app_nosep s t :
  has_sep t = false ->
  split_sep (s +:+ t) = init_comps s ++ [last_comp s +:+ t].
Proof.
  intros Ht. unfold init_comps, last_comp.
  induction s as [|c s IH].
  - rewrite !str_app_nil_l. rewrite split_sep_nosep by done. done.
  - rewrite str_app_cons. cbn [split_sep]. rewrite IH.
    pose proof (split_sep_nonempty s) as Hne.
    destruct (is_sep c).
    + destruct (split_sep s) as [|h l] eqn:Hs; [done|]. 
      change (removelast ("" :: h :: l)) with ("" :: removelast (h :: l)).
      done.
    + destruct (split_sep s) as [|h [|h' l]] eqn:Hs; [done| |].
      * cbn. done.
      * change (removelast (h :: h' :: l)) with (h :: removelast (h' :: l)).
        change (removelast (String c h :: h' :: l)) with (String c h :: removelast (h' :: l)).
        done.
Qed.

(** ** Path resolution *)

Lemma walk_app m cur l1 l2 :
  walk m cur (l1 ++ l2) =
  match walk m cur l1 with Ok k => walk m k l2 | Raise e => Raise e end.
Proof.
  revert cur. induction l1 as [|c l1 IH]; intros cur; [done|].
  cbn [app walk]. destruct (is_dir_at m cur); [|by destruct (exists_at m cur)].
  destruct (is_dot c); [apply IH|]. destruct (is_dotdot c); apply IH.
Qed.

Lemma walk_name m cur c :
  is_dir_at m cur = true -> is_dot c = false -> is_dotdot c = false ->
  walk m cur [c] = Ok (cur ++ [c]).
Proof. intros Hd H1 H2. cbn. by rewrite Hd, H1, H2. Qed.

Lemma walk_dot m cur c :
  is_dir_at m cur = true -> is_dot c = true -> walk m cur [c] = Ok cur.
Proof. intros Hd H1. cbn. by rewrite Hd, H1. Qed.

Lemma walk_last_ok m cur l c k :
  walk m cur (l ++ [c]) = Ok k ->
  exists k0, walk m cur l = Ok k0 /\ is_dir_at m k0 = true /\ walk m k0 [c] = Ok k.
Proof.
  rewrite walk_app. destruct (walk m cur l) as [k0|e]; [|done].
  intros H. exists k0. split; [done|]. split; [|done].
  cbn in H. destruct (is_dir_at m k0); [done|]. by destruct (exists_at m k0).
Qed.

Lemma dirs_eq_refl m : dirs_eq m m.
Proof. done. Qed.

Lemma dirs_eq_sym m m' : dirs_eq m m' -> dirs_eq m' m.
Proof. intros H k. by rewrite H. Qed.

Lemma dirs_eq_trans m1 m2 m3 : dirs_eq m1 m2 -> dirs_eq m2 m3 -> dirs_eq m1 m3.
Proof. intros H1 H2 k. by rewrite H1, H2. Qed.

Lemma walk_dirs_eq m m' cur l k :
  dirs_eq m m' -> walk m cur l = Ok k -> walk m' cur l = Ok k.
Proof.
  intros He. revert cur. induction l as [|c l IH]; intros cur; [done|].
  cbn. rewrite <- (He cur). destruct (is_dir_at m cur); [|by destruct (exists_at m cur)].
  destruct (is_dot c); [apply IH|]. destruct (is_dotdot c); apply IH.
Qed.

Lemma is_dir_at_insert_file m k d k' :
  is_dir_at m k = false -> is_dir_at (<[k := File d]> m) k' = is_dir_at m k'.
Proof.
  intros Hk. unfold is_dir_at. destruct k' as [|c k']; [done|].
  destruct (decide (k = c :: k')) as [->|Hne].
  - rewrite lookup_insert_eq. unfold is_dir_at in Hk. by destruct (m !! (c :: k')) as [[]|].
  - by rewrite lookup_insert_ne.
Qed.

Lemma is_dir_at_delete_file m k k' :
  is_dir_at m k = false -> is_dir_at (delete k m) k' = is_dir_at m k'.
Proof.
  intros Hk. unfold is_dir_at. destruct k' as [|c k']; [done|].
  destruct (decide (k = c :: k')) as [->|Hne].
  - rewrite lookup_delete_eq. unfold is_dir_at in Hk. by destruct (m !! (c :: k')) as [[]|].
  - by rewrite lookup_delete_ne.
Qed.

Lemma dirs_eq_insert_file m k d :
  is_dir_at m k = false -> dirs_eq m (<[k := File d]> m).
Proof. intros H k'. by rewrite is_dir_at_insert_file. Qed.

Lemma dirs_eq_delete_file m k :
  is_dir_at m k = false -> dirs_eq m (delete k m).
Proof. intros H k'. by rewrite is_dir_at_delete_file. Qed.

Lemma resolve_dirs_eq w w' p k :
  dirs_eqw w w' -> resolve w p = Ok k -> resolve w' p = Ok k.
Proof.
  intros [He Hc]. unfold resolve. destruct (bool_decide (p = "")); [done|].
  rewrite <- Hc. by apply walk_dirs_eq.
Qed.

(** *** Names *)

Lemma startswith_sep_has_sep f : startswith f "/" = true -> has_sep f = true.
Proof.
  destruct f as [|c f]; [done|]. cbn. unfold is_sep, char_eq.
  destruct (decide ("/"%char = c)) as [<-|Hne]; [done|].
  by rewrite bool_decide_eq_false_2.
Qed.

Lemma endswith_sep_last_comp a : endswith_sep a = true -> last_comp a = "".
Proof.
  unfold last_comp. induction a as [|c a IH]; [done|].
  cbn [endswith_sep split_sep]. pose proof (split_sep_nonempty a) as Hne.
  destruct a as [|c' a'].
  - intros ->. done.
  - intros H. specialize (IH H).
    destruct (is_sep c).
    + destruct (split_sep (String c' a')) eqn:E; [done|]. exact IH.
    + destruct (split_sep (String c' a')) as [|h [|h' l]] eqn:E; [done| |].
      * (* one component only, yet the string ends with a slash *)
        cbn in IH. subst h. exfalso. clear -E H.
        assert (has_sep (String c' a') = true).
        { clear E. revert c' H. induction a' as [|c2 a2 IH2]; intros c' H; cbn in *.
          - by rewrite H.
          - rewrite (IH2 c2 H). by rewrite orb_true_r. }
        assert (forall s, has_sep s = true -> exists x y l, split_sep s = x :: y :: l) as Hs.
        { clear. induction s as [|c s IH]; [done|]. cbn.
          pose proof (split_sep_nonempty s) as Hne.
          destruct (is_sep c); cbn.
          - intros _. destruct (split_sep s) as [|h l]; [done|]. eauto.
          - intros Hs. destruct (IH Hs) as (x & y & l & ->). eauto. }
        destruct (Hs _ H0) as (x & y & l & E'). congruence.
      * exact IH.
Qed.

Lemma valid_name_dot c : valid_name c = true -> is_dot c = false.
Proof. unfold valid_name. by destruct (is_dot c). Qed.
Lemma valid_name_dotdot c : valid_name c = true -> is_dotdot c = false.
Proof. unfold valid_name. destruct (is_dot c), (is_dotdot c); done. Qed.
Lemma valid_name_sep c : valid_name c = true -> has_sep c = false.
Proof. unfold valid_name. destruct (is_dot c), (is_dotdot c), (has_sep c); done. Qed.

Lemma is_dot_false c : is_dot c = false <-> c <> "" /\ c <> ".".
Proof.
  unfold is_dot. rewrite orb_false_iff, !bool_decide_eq_false. done.
Qed.
Lemma is_dotdot_false c : is_dotdot c = false <-> c <> "..".
Proof. unfold is_dotdot. by rewrite bool_decide_eq_false. Qed.

Lemma has_sep_app s t : has_sep (s +:+ t) = has_sep s || has_sep t.
Proof.
  induction s as [|c s IH]; [done|]. rewrite str_app_cons. cbn. rewrite IH.
  by rewrite orb_assoc.
Qed.

Lemma valid_name_app c t :
  is_dot c = false -> is_dotdot c = false -> t <> "" ->
  is_dot (c +:+ t) = false /\ is_dotdot (c +:+ t) = false.
Proof.
  rewrite !is_dot_false, !is_dotdot_false. intros [H1 H2] H3 Ht.
  repeat split; intros E;
    destruct c as [|a [|a' [|a'' c]]]; try done;
    destruct t as [|b [|b' t]]; try done;
    rewrite ?str_app_cons, ?str_app_nil_l in E; simplify_eq; done.
Qed.

Lemma startswith_sep_app h x : h <> "" -> startswith (h +:+ x) "/" = startswith h "/".
Proof. destruct h as [|c h]; [done|]. intros _. rewrite str_app_cons. reflexivity. Qed.

Lemma str_app_eq_nil (s t : string) : s +:+ t = "" -> s = "" /\ t = "".
Proof. destruct s; [done|]. rewrite str_app_cons. done. Qed.

(** [os.path.join] with a plain name, below a directory. *)
Lemma resolve_join w a f ka :
  resolve w a = Ok ka -> is_dir_at (files w) ka = true -> valid_name f = true ->
  resolve w (os_path_join a f) = Ok (ka ++ [f]).
Proof.
  intros Hr Hd Hf. unfold resolve in *.
  destruct (bool_decide_reflect (a = "")) as [->|Ha]; [done|].
  pose proof (valid_name_dot _ Hf) as Hdot. pose proof (valid_name_dotdot _ Hf) as Hdd.
  pose proof (valid_name_sep _ Hf) as Hsep.
  apply is_dot_false in Hdot as Hne.
  unfold os_path_join.
  destruct (startswith f "/") eqn:Hs.
  { apply startswith_sep_has_sep in Hs. congruence. }
  rewrite (bool_decide_eq_false_2 (a = "")) by done. cbn [orb].
  destruct (endswith_sep a) eqn:He.
  - rewrite bool_decide_eq_false_2 by (intros [? ?]%str_app_eq_nil; done).
    rewrite startswith_sep_app by done.
    rewrite split_sep_app_nosep by done.
    rewrite (endswith_sep_last_comp _ He), str_app_nil_l.
    rewrite split_sep_init_last, (endswith_sep_last_comp _ He) in Hr.
    apply walk_last_ok in Hr as (k0 & Hw & Hd0 & Hlast).
    rewrite walk_dot in Hlast by done. simplify_eq.
    rewrite walk_app, Hw. by apply walk_name.
  - rewrite bool_decide_eq_false_2 by (intros [? ?]%str_app_eq_nil; done).
    rewrite startswith_sep_app by done.
    change (a +:+ "/" +:+ f) with (a +:+ String sep f).
    rewrite split_sep_app_sep, walk_app, Hr.
    rewrite split_sep_nosep by done. by apply walk_name.
Qed.

(** *** Well-formed file systems: the names are plain and every entry lies in
    a directory. *)

Lemma well_formed_lookup m k n :
  well_formed m = true -> m !! k = Some n ->
  Forall (fun c => valid_name c = true) k /\ is_dir_at m (removelast k) = true.
Proof.
  unfold well_formed. rewrite forallb_forall. intros H Hk.
  apply elem_of_map_to_list in Hk. apply list_elem_of_In in Hk.
  specialize (H _ Hk). cbn in H. apply andb_true_iff in H as [H1 H2].
  split; [|done]. rewrite forallb_forall in H1. apply Forall_forall.
  intros c Hc. apply H1. by apply list_elem_of_In.
Qed.

Lemma well_formed_parent m k :
  well_formed m = true -> is_dir_at m k = true -> is_dir_at m (removelast k) = true.
Proof.
  intros Hwf Hd. destruct k as [|c k]; [done|].
  unfold is_dir_at in Hd. destruct (m !! (c :: k)) as [n|] eqn:E; [|done].
  by destruct (well_formed_lookup _ _ _ Hwf E).
Qed.

(** A path that resolves to something that is not a directory ends with a
    plain name, in a directory. *)
Lemma walk_file m cur l k :
  well_formed m = true -> l <> [] -> walk m cur l = Ok k -> is_dir_at m k = false ->
  exists l0 c k0, l = l0 ++ [c] /\ is_dot c = false /\ is_dotdot c = false /\
    walk m cur l0 = Ok k0 /\ is_dir_at m k0 = true /\ k = k0 ++ [c].
Proof.
  intros Hwf Hne Hw Hk. destruct (exists_last Hne) as (l0 & c & ->).
  apply walk_last_ok in Hw as (k0 & Hw & Hd & Hlast).
  exists l0, c, k0. cbn in Hlast. rewrite Hd in Hlast.
  destruct (is_dot c) eqn:E1; [congruence|].
  destruct (is_dotdot c) eqn:E2.
  { simplify_eq. by rewrite well_formed_parent in Hk. }
  by simplify_eq.
Qed.

Lemma resolve_suffix w p k t :
  well_formed (files w) = true -> resolve w p = Ok k ->
  is_dir_at (files w) k = false -> has_sep t = false -> t <> "" ->
  exists k0 c, k = k0 ++ [c] /\ is_dir_at (files w) k0 = true /\
    resolve w (p +:+ t) = Ok (k0 ++ [c +:+ t]).
Proof.
  intros Hwf Hr Hk Ht Hne. unfold resolve in *.
  destruct (bool_decide_reflect (p = "")) as [->|Hp]; [done|].
  apply walk_file in Hr as (l0 & c & k0 & Hs & H1 & H2 & Hw & Hd & ->);
    [|done|apply split_sep_nonempty|done].
  exists k0, c. split; [done|]. split; [done|].
  rewrite bool_decide_eq_false_2 by (intros [? ?]%str_app_eq_nil; done).
  rewrite startswith_sep_app by done.
  rewrite split_sep_app_nosep by done.
  rewrite split_sep_init_last in Hs. apply app_inj_tail in Hs as [-> ->].
  rewrite walk_app, Hw.
  destruct (valid_name_app _ t H1 H2 Hne). by apply walk_name.
Qed.

(** *** [os.path.dirname] *)

Lemma cut_last_sep_spec p h t :
  cut_last_sep p = (h, t) ->
  p = h +:+ t /\ has_sep t = false /\ (h = "" \/ endswith_sep h = true).
Proof.
  revert h t. induction p as [|c p IH]; intros h t.
  - intros [= <- <-]. auto.
  - cbn [cut_last_sep]. destruct (cut_last_sep p) as [h' t'].
    destruct (IH _ _ eq_refl) as (-> & Ht & Hh). destruct h' as [|c' h'].
    + destruct (is_sep c) eqn:Hc; intros [= <- <-].
      * split; [done|]. split; [done|]. right. exact Hc.
      * split; [done|]. split; [|by left]. cbn. by rewrite Hc.
    + intros [= <- <-]. split; [done|]. split; [done|]. right.
      destruct Hh as [|Hh]; [done|]. exact Hh.
Qed.

Lemma split_sep_snoc_sep s : split_sep (s +:+ "/") = split_sep s ++ [""].
Proof. apply (split_sep_app_sep s ""). Qed.

Lemma split_sep_seps s n : split_sep (s +:+ seps n) = split_sep s ++ replicate n "".
Proof.
  induction n as [|n IH]; cbn [seps replicate].
  - by rewrite str_app_nil_r, List.app_nil_r.
  - rewrite <- str_app_assoc, split_sep_snoc_sep, IH, <- List.app_assoc.
    f_equal. clear. induction n; [done|]. cbn. by f_equal.
Qed.

Lemma rstrip_sep_spec h : exists n, h = rstrip_sep h +:+ seps n.
Proof.
  assert (forall n, String sep (seps n) = seps n +:+ "/") as Hcomm.
  { induction n as [|n IH]; [done|]. cbn [seps]. rewrite <- IH at 2. reflexivity. }
  induction h as [|c h (n & IH)]; [by exists 0|].
  cbn [rstrip_sep]. destruct (rstrip_sep h) as [|c' r] eqn:Hr.
  - rewrite str_app_nil_l in IH. destruct (is_sep c) eqn:Hc.
    + exists (S n). unfold is_sep, char_eq in Hc. apply bool_decide_eq_true in Hc as ->.
      rewrite IH, str_app_nil_l. cbn [seps]. by rewrite Hcomm.
    + exists n. by rewrite IH at 1.
  - exists n. by rewrite IH at 1.
Qed.

Lemma endswith_sep_rstrip h : endswith_sep (rstrip_sep h) = false.
Proof.
  induction h as [|c h IH]; [done|]. cbn [rstrip_sep].
  destruct (rstrip_sep h) as [|c' r] eqn:Hr.
  - destruct (is_sep c) eqn:Hc; [done|]. cbn. exact Hc.
  - exact IH.
Qed.

Lemma startswith_sep_rstrip h :
  rstrip_sep h <> "" -> startswith (rstrip_sep h) "/" = startswith h "/".
Proof.
  destruct h as [|c h]; [done|]. cbn [rstrip_sep].
  destruct (rstrip_sep h); [|done]. by destruct (is_sep c).
Qed.

Lemma walk_dots m cur l n k :
  walk m cur (l ++ replicate n "") = Ok k -> walk m cur l = Ok k.
Proof.
  rewrite walk_app. destruct (walk m cur l) as [k1|e]; [|done].
  induction n as [|n IH]; [done|]. cbn.
  destruct (is_dir_at m k1); [done|]. by destruct (exists_at m k1).
Qed.

Lemma removelast_snoc {A} (l : list A) x : removelast (l ++ [x]) = l.
Proof. apply removelast_last. Qed.

Lemma replicate_snoc {A} n (x : A) : replicate (S n) x = replicate n x ++ [x].
Proof. induction n as [|n IH]; [done|]. cbn in *. by rewrite <- IH. Qed.

Lemma resolve_dirname_join w p l0 c k0 x :
  p <> "" -> split_sep p = l0 ++ [c] ->
  walk (files w) (if startswith p "/" then [] else cwd w) l0 = Ok k0 ->
  is_dir_at (files w) k0 = true -> valid_name x = true ->
  resolve w (os_path_join (os_path_dirname p) x) = Ok (k0 ++ [x]).
Proof.
  intros Hp Hs Hw Hd Hx.
  pose proof (valid_name_dot _ Hx) as Hdot. pose proof (valid_name_dotdot _ Hx) as Hdd.
  pose proof (valid_name_sep _ Hx) as Hsep.
  pose proof (proj1 (is_dot_false _) Hdot) as [Hxne _].
  assert (startswith x "/" = false) as Hxs.
  { destruct (startswith x "/") eqn:E; [|done]. apply startswith_sep_has_sep in E. congruence. }
  unfold os_path_dirname, os_path_split.
  destruct (cut_last_sep p) as [h t] eqn:Hc.
  apply cut_last_sep_spec in Hc as (-> & Ht & Hh).
  rewrite split_sep_app_nosep in Hs by done.
  apply app_inj_tail in Hs as [<- _].
  destruct Hh as [->|Hh].
  - (* no slash in [p] *)
    rewrite str_app_nil_l in *.
    assert (startswith t "/" = false) as Hts.
    { destruct (startswith t "/") eqn:E; [|done]. apply startswith_sep_has_sep in E. congruence. }
    rewrite Hts in Hw. cbn in Hw. simplify_eq. cbn.
    unfold os_path_join. rewrite Hxs. cbn [fst]. rewrite bool_decide_eq_true_2 by done.
    cbn [orb]. rewrite str_app_nil_l.
    unfold resolve. rewrite bool_decide_eq_false_2 by done. rewrite Hxs.
    rewrite split_sep_nosep by done. by apply walk_name.
  - assert (h <> "") as Hhne by (by intros ->).
    rewrite startswith_sep_app in Hw by done.
    destruct (rstrip_sep h) as [|c' r] eqn:Hr; cbn [fst].
    + (* only slashes *)
      unfold os_path_join. rewrite Hxs, Hh, orb_true_r.
      unfold resolve. rewrite bool_decide_eq_false_2 by (intros [? ?]%str_app_eq_nil; done).
      rewrite startswith_sep_app by done.
      rewrite split_sep_app_nosep by done.
      rewrite (endswith_sep_last_comp _ Hh), str_app_nil_l, walk_app, Hw.
      by apply walk_name.
    + pose proof (endswith_sep_rstrip h) as He. rewrite Hr in He.
      pose proof (startswith_sep_rstrip h) as Hst. rewrite Hr in Hst.
      destruct (rstrip_sep_spec h) as (n & Hn). rewrite Hr in Hn.
      destruct n as [|n].
      { cbn in Hn. rewrite str_app_nil_r in Hn. congruence. }
      unfold os_path_join. rewrite Hxs, He, orb_false_r.
      rewrite bool_decide_eq_false_2 by done.
      unfold resolve. rewrite bool_decide_eq_false_2 by done.
      rewrite startswith_sep_app by done. rewrite Hst by done.
      change (String c' r +:+ "/" +:+ x) with (String c' r +:+ String sep x).
      rewrite split_sep_app_sep, walk_app.
      unfold init_comps in Hw. rewrite Hn in Hw at 2.
      rewrite split_sep_seps, replicate_snoc, List.app_assoc, removelast_snoc in Hw.
      apply walk_dots in Hw. rewrite Hw.
      rewrite split_sep_nosep by done. by apply walk_name.
Qed.

(** The key file of a path that names a file is its sibling [cle.key]. *)
Lemma resolve_sibling w p k x :
  well_formed (files w) = true -> resolve w p = Ok k ->
  is_dir_at (files w) k = false -> valid_name x = true ->
  exists k0 c, k = k0 ++ [c] /\ is_dir_at (files w) k0 = true /\
    resolve w (os_path_join (os_path_dirname p) x) = Ok (k0 ++ [x]).
Proof.
  intros Hwf Hr Hk Hx. unfold resolve in Hr.
  destruct (bool_decide_reflect (p = "")) as [->|Hp]; [done|].
  apply walk_file in Hr as (l0 & c & k0 & Hs & H1 & H2 & Hw & Hd & ->);
    [|done|apply split_sep_nonempty|done].
  exists k0, c. split; [done|]. split; [done|].
  by eapply resolve_dirname_join.
Qed.

(** ** The monad *)

Lemma bind_ok {A B} (c : M A) (k : A -> M B) w w' a :
  c w = (w', Ok a) -> bind c k w = k a w'.
Proof. unfold bind. by intros ->. Qed.

Lemma bind_raise {A B} (c : M A) (k : A -> M B) w w' e :
  c w = (w', Raise e) -> bind c k w = (w', Raise e).
Proof. unfold bind. by intros ->. Qed.

Lemma for_each_app {A} (l1 l2 : list A) body w :
  for_each (l1 ++ l2) body w =
  match for_each l1 body w with
  | (w', Ok _) => for_each l2 body w'
  | (w', Raise e) => (w', Raise e)
  end.
Proof.
  revert w. induction l1 as [|x l1 IH]; intros w; [done|].
  cbn [app for_each]. unfold bind.
  destruct (body x w) as [w' [[]|e]]; [apply IH|done].
Qed.

Lemma bind_query {A B} (f : world -> A) (k : A -> M B) w :
  bind (query f) k w = k (f w) w.
Proof. reflexivity. Qed.

Lemma bind_ret {A B} (a : A) (k : A -> M B) w : bind (ret a) k w = k a w.
Proof. reflexivity. Qed.

(** ** The system calls *)

Lemma dirs_eqw_refl w : dirs_eqw w w.
Proof. done. Qed.

Lemma dirs_eqw_trans w1 w2 w3 : dirs_eqw w1 w2 -> dirs_eqw w2 w3 -> dirs_eqw w1 w3.
Proof. intros [H1 H2] [H3 H4]. split; [by eapply dirs_eq_trans|congruence]. Qed.

Lemma dirs_eqw_sym w1 w2 : dirs_eqw w1 w2 -> dirs_eqw w2 w1.
Proof. intros [H1 H2]. split; [by apply dirs_eq_sym|done]. Qed.

Lemma resolve_ext w w' p :
  files w = files w' -> cwd w = cwd w' -> resolve w p = resolve w' p.
Proof. unfold resolve. by intros -> ->. Qed.

Lemma read_file_ok p w k d :
  resolve w p = Ok k -> k <> [] -> files w !! k = Some (File d) ->
  read_file p w = (w, Ok d).
Proof.
  intros Hr Hk Hf. unfold read_file. rewrite Hr.
  destruct k as [|c k]; [done|]. unfold is_dir_at. by rewrite Hf.
Qed.

Lemma read_file_inv p w w' d :
  read_file p w = (w', Ok d) ->
  w' = w /\ exists k, resolve w p = Ok k /\ k <> [] /\ files w !! k = Some (File d).
Proof.
  unfold read_file. destruct (resolve w p) as [k|e]; [|done].
  destruct (is_dir_at (files w) k) eqn:Hd; [done|].
  destruct (files w !! k) as [[d'|]|] eqn:Hf; try done.
  intros [= <- <-]. split; [done|]. exists k. split; [done|]. split; [|done].
  by intros ->.
Qed.

Lemma read_file_dir p w k :
  resolve w p = Ok k -> is_dir_at (files w) k = true ->
  read_file p w = (w, Raise IsADirectoryError).
Proof. intros Hr Hd. unfold read_file. by rewrite Hr, Hd. Qed.

Lemma write_file_ok p d w k :
  resolve w p = Ok k -> is_dir_at (files w) k = false ->
  write_file p d w = (set_files w (<[k := File d]> (files w)), Ok tt).
Proof. intros Hr Hd. unfold write_file. by rewrite Hr, Hd. Qed.

(** On a path that does not resolve, [open] raises the error of the walk,
    or [IsADirectoryError] for a missing name with a trailing slash. *)
Lemma write_file_unresolved p d w e :
  resolve w p = Raise e ->
  exists e', write_file p d w = (w, Raise e') /\ (e' = e \/ e' = IsADirectoryError).
Proof.
  intros Hr. unfold write_file. rewrite Hr.
  destruct (endswith_sep p); [|eauto].
  destruct (resolve w (rstrip_sep p)) as [k|]; [|eauto].
  destruct (exists_at (files w) k); eauto.
Qed.

Lemma os_remove_ok p w k n :
  resolve w p = Ok k -> is_dir_at (files w) k = false -> files w !! k = Some n ->
  os_remove p w = (set_files w (delete k (files w)), Ok tt).
Proof. intros Hr Hd Hf. unfold os_remove. by rewrite Hr, Hd, Hf. Qed.

Lemma file_not_dir m k d : k <> [] -> m !! k = Some (File d) -> is_dir_at m k = false.
Proof. intros Hk Hf. destruct k; [done|]. unfold is_dir_at. by rewrite Hf. Qed.

Lemma dirs_eqw_insert_file w k d :
  is_dir_at (files w) k = false -> dirs_eqw w (set_files w (<[k := File d]> (files w))).
Proof. intros H. split; [by apply dirs_eq_insert_file|done]. Qed.

Lemma dirs_eqw_delete_file w k :
  is_dir_at (files w) k = false -> dirs_eqw w (set_files w (delete k (files w))).
Proof. intros H. split; [by apply dirs_eq_delete_file|done]. Qed.

Section Steps.
Context (E : Env).

Lemma shutil_copy_ok src dst w ksrc kdst P :
  resolve w src = Ok ksrc -> ksrc <> [] -> files w !! ksrc = Some (File P) ->
  resolve w dst = Ok kdst -> is_dir_at (files w) kdst = false -> kdst <> ksrc ->
  shutil_copy src dst w = (set_files w (<[kdst := File P]> (files w)), Ok tt).
Proof.
  intros Hs Hne Hf Hd Hnd Hdiff. unfold shutil_copy.
  rewrite bind_query. unfold os_path_isdir. rewrite Hd, Hnd.
  rewrite bind_query. unfold samefile. rewrite Hs, Hd.
  rewrite bool_decide_eq_false_2 by done. cbn [andb].
  rewrite (bind_ok _ _ _ _ _ (read_file_ok _ _ _ _ Hs Hne Hf)).
  by apply write_file_ok.
Qed.

(** Copy and seal: the destination holds the source's bytes sealed. *)
Lemma copier_et_chiffrer_ok K src dst w ksrc kdst P :
  resolve w src = Ok ksrc -> ksrc <> [] -> files w !! ksrc = Some (File P) ->
  resolve w dst = Ok kdst -> is_dir_at (files w) kdst = false -> kdst <> ksrc ->
  copier_et_chiffrer E K src dst w =
  (World (<[kdst := File (fernet_encrypt E K (entropy w) P)]> (files w))
         (cwd w) (S (entropy w)), Ok tt).
Proof.
  intros Hs Hne Hf Hd Hnd Hdiff. unfold copier_et_chiffrer.
  rewrite (bind_ok _ _ _ _ _ (shutil_copy_ok _ _ _ _ _ _ Hs Hne Hf Hd Hnd Hdiff)).
  set (w1 := set_files w _).
  assert (dirs_eqw w w1) as He by (by apply dirs_eqw_insert_file).
  pose proof (resolve_dirs_eq _ _ _ _ He Hd) as Hd1.
  assert (kdst <> []) as Hkd by (by intros ->).
  assert (files w1 !! kdst = Some (File P)) as Hf1.
  { subst w1. cbn. by rewrite lookup_insert_eq. }
  rewrite (bind_ok _ _ _ _ _ (read_file_ok _ _ _ _ Hd1 Hkd Hf1)).
  unfold encrypt. rewrite (bind_ok _ _ _ _ _ (bind_ok _ _ _ _ _ (eq_refl : draw w1 = (_, Ok _)))).
  erewrite write_file_ok; last first.
  { cbn. rewrite is_dir_at_insert_file by done. done. }
  { erewrite resolve_ext; [exact Hd1|done..]. }
  cbn. unfold set_files. cbn. by rewrite insert_insert_eq.
Qed.

(** Open, write the plaintext, remove the sealed file. *)
Lemma dechiffrer_un_ok K p final w kp kf c P :
  resolve w p = Ok kp -> kp <> [] -> files w !! kp = Some (File c) ->
  fernet_decrypt E K c = Some P ->
  resolve w final = Ok kf -> is_dir_at (files w) kf = false ->
  dechiffrer_un E K p final w =
  (set_files w (delete kp (<[kf := File P]> (files w))), Ok tt).
Proof.
  intros Hp Hne Hf Hdec Hfin Hnd. unfold dechiffrer_un.
  rewrite (bind_ok _ _ _ _ _ (read_file_ok _ _ _ _ Hp Hne Hf)).
  unfold decrypt. rewrite Hdec. rewrite bind_ret.
  rewrite (bind_ok _ _ _ _ _ (write_file_ok _ _ _ _ Hfin Hnd)).
  set (w1 := set_files w _).
  assert (dirs_eqw w w1) as He by (by apply dirs_eqw_insert_file).
  pose proof (file_not_dir _ _ _ Hne Hf) as Hpd.
  assert (exists n, files w1 !! kp = Some n) as [n Hn].
  { subst w1. cbn. destruct (decide (kf = kp)) as [->|Hd].
    - rewrite lookup_insert_eq. eauto.
    - rewrite lookup_insert_ne by done. eauto. }
  erewrite os_remove_ok; [done| |  |exact Hn].
  - by eapply resolve_dirs_eq.
  - destruct He as [He _]. by rewrite <- He.
Qed.

(** A file that does not open is left as it is. *)
Lemma dechiffrer_un_invalid K p final w c :
  read_file p w = (w, Ok c) -> fernet_decrypt E K c = None ->
  dechiffrer_un E K p final w = (w, Raise InvalidToken).
Proof.
  intros Hr Hdec. unfold dechiffrer_un. rewrite (bind_ok _ _ _ _ _ Hr).
  unfold decrypt. by rewrite Hdec.
Qed.

End Steps.

(** ** [str.replace] *)

Lemma char_eq_true a b : char_eq a b = true <-> a = b.
Proof. unfold char_eq. apply bool_decide_eq_true. Qed.

Lemma char_eq_refl a : char_eq a a = true.
Proof. by apply char_eq_true. Qed.

Lemma startswith_app_refl old b : startswith (old +:+ b) old = true.
Proof.
  induction old as [|c old IH]; [done|]. rewrite str_app_cons. cbn.
  by rewrite char_eq_refl, IH.
Qed.

Lemma replace_from_skip old new r b :
  replace_from old new (String.length r) (r +:+ b) = replace_from old new 0 b.
Proof.
  induction r as [|c r IH]; [|by rewrite str_app_cons].
  rewrite str_app_nil_l. cbn. by destruct b.
Qed.

(** An occurrence of [old] cannot start inside [a] and end in [old] when the
    first character of [old] does not occur again in it. *)
Lemma startswith_through a c0 y rest :
  has_char rest c0 = false ->
  startswith (a +:+ String c0 y) rest = true -> startswith a rest = true.
Proof.
  revert a. induction rest as [|r rest IH]; intros a Hc; [done|].
  cbn in Hc. apply orb_false_iff in Hc as [Hr Hc].
  destruct a as [|z a].
  - rewrite str_app_nil_l. cbn. by rewrite Hr.
  - rewrite str_app_cons. cbn. intros [Hz H]%andb_true_iff.
    by rewrite Hz, (IH _ Hc H).
Qed.

Section Replace.
Context (c0 : ascii) (rest : string) (Hrest : has_char rest c0 = false).

Lemma replace_from_occurrence new a b :
  contains a (String c0 rest) = false ->
  replace_from (String c0 rest) new 0 (a +:+ String c0 rest +:+ b) =
  a +:+ new +:+ replace_from (String c0 rest) new 0 b.
Proof.
  induction a as [|x a IH]; intros Ha.
  - rewrite !str_app_nil_l. change (String c0 rest +:+ b) with (String c0 (rest +:+ b)).
    cbn [replace_from].
    change (String c0 (rest +:+ b)) with (String c0 rest +:+ b).
    rewrite startswith_app_refl. f_equal.
    replace (String.length (String c0 rest) - 1) with (String.length rest) by (cbn; lia).
    apply replace_from_skip.
  - cbn [contains] in Ha. apply orb_false_iff in Ha as [Hs Ha].
    rewrite (str_app_cons x a). cbn [replace_from].
    destruct (startswith (String x (a +:+ String c0 rest +:+ b)) (String c0 rest)) eqn:Hst.
    + exfalso. cbn in Hst, Hs. apply andb_true_iff in Hst as [Hx Hst].
      rewrite Hx in Hs. cbn in Hs.
      apply startswith_through in Hst; [congruence|done].
    + by rewrite IH.
Qed.

Lemma replace_from_absent new s :
  contains s (String c0 rest) = false -> replace_from (String c0 rest) new 0 s = s.
Proof.
  induction s as [|x s IH]; [done|]. intros Ha.
  cbn [contains] in Ha. apply orb_false_iff in Ha as [Hs Ha].
  cbn [replace_from]. by rewrite Hs, IH.
Qed.

End Replace.

(** ['.encrypted'] starts with a character that does not occur again in it. *)
Lemma str_replace_occurrence a b :
  contains a ".encrypted" = false ->
  str_replace (a +:+ ".encrypted" +:+ b) ".encrypted" "" =
  a +:+ str_replace b ".encrypted" "".
Proof.
  intros Ha. unfold str_replace.
  rewrite (replace_from_occurrence "."%char "encrypted" eq_refl "" a b Ha).
  done.
Qed.

Lemma str_replace_absent s :
  contains s ".encrypted" = false -> str_replace s ".encrypted" "" = s.
Proof. apply (replace_from_absent "."%char "encrypted" "" s). Qed.

Lemma str_replace_suffix s :
  contains s ".encrypted" = false -> str_replace (s +:+ ".encrypted") ".encrypted" "" = s.
Proof.
  intros Hs. rewrite <- (str_app_nil_r ".encrypted"), str_replace_occurrence by done.
  apply str_app_nil_r.
Qed.

(** ** A single file, sealed and restored *)

Lemma str_length_app s t : String.length (s +:+ t) = String.length s + String.length t.
Proof. induction s as [|c s IH]; [done|]. rewrite str_app_cons. cbn. by rewrite IH. Qed.

Lemma isdir_false_resolved w p k :
  resolve w p = Ok k -> os_path_isdir w p = false -> is_dir_at (files w) k = false.
Proof. unfold os_path_isdir. by intros ->. Qed.

Lemma isdir_resolved w p k :
  resolve w p = Ok k -> os_path_isdir w p = is_dir_at (files w) k.
Proof. unfold os_path_isdir. by intros ->. Qed.

Lemma isfile_resolved w p k d :
  resolve w p = Ok k -> files w !! k = Some (File d) -> os_path_isfile w p = true.
Proof. unfold os_path_isfile. by intros -> ->. Qed.

Section RoundTrip.
Context (E : Env) (Hgen : generate_key_valid E) (Hopens : decrypt_encrypt E)
  (Hperm : listdir_order_perm E).

Lemma Fernet_ok K w : fernet_valid_key E K = true -> Fernet E K w = (w, Ok K).
Proof. unfold Fernet. by intros ->. Qed.

Lemma round_trip_single_file w src P :
  well_formed (files w) = true ->
  read_file src w = (w, Ok P) ->
  contains src ".encrypted" = false ->
  os_path_isdir w (src +:+ ".encrypted") = false ->
  os_path_isdir w (os_path_join (os_path_dirname (src +:+ ".encrypted")) "cle.key") = false ->
  exists w1 w2,
    sauvegarder_et_chiffrer E src None None None w = (w1, Ok tt) /\
    read_file (src +:+ ".encrypted") w1 =
      (w1, Ok (fernet_encrypt E (fernet_generate_key E (entropy w)) (S (entropy w)) P)) /\
    dechiffrer_fichiers E (src +:+ ".encrypted") None w1 = (w2, Ok tt) /\
    read_file src w2 = (w2, Ok P) /\
    os_path_exists w2 (src +:+ ".encrypted") = false.
Proof.
  intros Hwf Hread Hsrc Hencdir Hkeydir.
  apply read_file_inv in Hread as (_ & ksrc & Hrs & Hne & Hfs).
  pose proof (file_not_dir _ _ _ Hne Hfs) as Hsd.
  destruct (resolve_suffix w src ksrc ".encrypted" Hwf Hrs Hsd eq_refl)
    as (k0 & c & -> & Hd0 & Hre); [done|].
  set (enc := src +:+ ".encrypted") in *.
  set (kenc := k0 ++ [c +:+ ".encrypted"]) in *.
  set (ksrc := k0 ++ [c]) in *.
  pose proof (isdir_false_resolved _ _ _ Hre Hencdir) as Hed.
  destruct (resolve_sibling w enc kenc "cle.key" Hwf Hre Hed eq_refl)
    as (k0' & c' & Heq & _ & Hrk).
  apply app_inj_tail in Heq as [<- <-].
  set (keypath := os_path_join (os_path_dirname enc) "cle.key") in *.
  set (kk := k0 ++ ["cle.key"]) in *.
  pose proof (isdir_false_resolved _ _ _ Hrk Hkeydir) as Hkd.
  assert (kenc <> ksrc) as Hes.
  { intros [_ Hc]%app_inj_tail. apply (f_equal String.length) in Hc.
    rewrite str_length_app in Hc. cbn in Hc. lia. }
  assert (kk <> kenc) as Hke.
  { intros [_ Hc]%app_inj_tail. apply (f_equal String.length) in Hc.
    rewrite str_length_app in Hc. cbn in Hc. lia. }
  set (K := fernet_generate_key E (entropy w)).
  assert (fernet_valid_key E K = true) as HK by apply Hgen.
  (* backup *)
  set (w0 := World (files w) (cwd w) (S (entropy w))).
  set (C := fernet_encrypt E K (S (entropy w)) P).
  set (w1 := World (<[kenc := File C]> (files w)) (cwd w) (S (S (entropy w)))).
  set (w2 := set_files w1 (<[kk := File K]> (files w1))).
  assert (sauvegarder_et_chiffrer E src None None None w = (w2, Ok tt)) as Hbackup.
  { unfold sauvegarder_et_chiffrer, choisir_cle, Fernet_generate_key.
    rewrite (bind_ok _ _ _ _ _ (bind_ok _ _ _ _ _ (eq_refl : draw w = (w0, Ok _)))).
    fold K. rewrite (bind_ok _ _ _ _ _ (Fernet_ok K w0 HK)).
    assert (traiter_source E K src None w0 = (w1, Ok (Some enc))) as Ht.
    { unfold traiter_source, isdir, isfile. rewrite bind_query.
      rewrite (isdir_resolved w0 src ksrc Hrs). change (files w0) with (files w).
      rewrite Hsd. rewrite bind_query.
      rewrite (isfile_resolved w0 src ksrc P Hrs Hfs). rewrite bind_ret.
      rewrite (bind_ok _ _ _ _ _ (copier_et_chiffrer_ok E K src enc w0 ksrc kenc P
                  Hrs Hne Hfs Hre Hed Hes)).
      done. }
    rewrite (bind_ok _ _ _ _ _ Ht).
    cbn [enregistrer_cle]. fold enc keypath.
    apply write_file_ok.
    - eapply resolve_dirs_eq; [|exact Hrk]. split; [|done].
      by apply dirs_eq_insert_file.
    - cbn. by rewrite is_dir_at_insert_file. }
  exists w2.
  assert (dirs_eqw w w2) as He2.
  { split; [|done]. cbn. eapply dirs_eq_trans.
    - by apply (dirs_eq_insert_file _ kenc C).
    - apply dirs_eq_insert_file. by rewrite is_dir_at_insert_file. }
  pose proof (resolve_dirs_eq _ _ _ _ He2 Hre) as Hre2.
  pose proof (resolve_dirs_eq _ _ _ _ He2 Hrk) as Hrk2.
  pose proof (resolve_dirs_eq _ _ _ _ He2 Hrs) as Hrs2.
  assert (files w2 !! kenc = Some (File C)) as Hfe2.
  { cbn. rewrite lookup_insert_ne by done. by rewrite lookup_insert_eq. }
  assert (files w2 !! kk = Some (File K)) as Hfk2.
  { cbn. by rewrite lookup_insert_eq. }
  assert (kenc <> []) as Hene by (by destruct k0).
  assert (kk <> []) as Hkne by (by destruct k0).
  assert (is_dir_at (files w2) ksrc = false) as Hsd2.
  { destruct He2 as [He2 _]. by rewrite <- He2. }
  set (w3 := set_files w2 (delete kenc (<[ksrc := File P]> (files w2)))).
  exists w3. split; [done|]. split.
  { by eapply read_file_ok. }
  split.
  { unfold dechiffrer_fichiers. fold keypath.
    rewrite (bind_ok _ _ _ _ _ (read_file_ok _ _ _ _ Hrk2 Hkne Hfk2)).
    rewrite (bind_ok _ _ _ _ _ (Fernet_ok K w2 HK)).
    unfold isdir, isfile. rewrite bind_query.
    rewrite (isdir_resolved w2 enc kenc Hre2), (file_not_dir _ _ _ Hene Hfe2).
    rewrite bind_query, (isfile_resolved w2 enc kenc C Hre2 Hfe2).
    unfold enc at 2. rewrite str_replace_suffix by done.
    eapply dechiffrer_un_ok; try done.
    by apply Hopens. }
  assert (dirs_eqw w2 w3) as He3.
  { split; [|done]. cbn -[w2]. eapply dirs_eq_trans.
    - by apply (dirs_eq_insert_file _ ksrc P).
    - apply dirs_eq_delete_file. rewrite is_dir_at_insert_file by done.
      exact (file_not_dir _ _ _ Hene Hfe2). }
  split.
  - eapply read_file_ok; [by eapply resolve_dirs_eq|done|].
    cbn -[w2]. rewrite lookup_delete_ne by done. by rewrite lookup_insert_eq.
  - unfold os_path_exists. rewrite (resolve_dirs_eq _ _ _ _ He3 Hre2).
    cbn -[w2]. unfold exists_at. destruct kenc eqn:Ek; [done|].
    by rewrite lookup_delete_eq.
Qed.

End RoundTrip.

(** ** What the system calls keep *)

Lemma keeps_ret {A} Inv (a : A) : keeps Inv (ret a).
Proof. intros w w' r H [= <- <-]. done. Qed.

Lemma keeps_raise {A} Inv e : keeps Inv (raise e : M A).
Proof. intros w w' r H [= <- <-]. done. Qed.

Lemma keeps_query {A} Inv (f : world -> A) : keeps Inv (query f).
Proof. intros w w' r H [= <- <-]. done. Qed.

Lemma keeps_bind {A B} Inv (c : M A) (k : A -> M B) :
  keeps Inv c -> (forall a, keeps Inv (k a)) -> keeps Inv (bind c k).
Proof.
  intros Hc Hk w w' r H. unfold bind.
  destruct (c w) as [w1 [a|e]] eqn:E.
  - intros Hka. eapply Hk; [|exact Hka]. by eapply Hc.
  - intros [= <- <-]. by eapply Hc.
Qed.

Lemma keeps_for_each {A} Inv (l : list A) body :
  (forall x, In x l -> keeps Inv (body x)) -> keeps Inv (for_each l body).
Proof.
  induction l as [|x l IH]; intros H; [apply keeps_ret|].
  cbn [for_each]. apply keeps_bind.
  - apply H. by left.
  - intros _. apply IH. intros y Hy. apply H. by right.
Qed.

Lemma read_file_state p w w' r : read_file p w = (w', r) -> w' = w.
Proof.
  unfold read_file. destruct (resolve w p) as [k|e]; [|by intros [= <- _]].
  destruct (is_dir_at (files w) k); [by intros [= <- _]|].
  destruct (files w !! k) as [[d|]|]; by intros [= <- _].
Qed.

Lemma keeps_read_file Inv p : keeps Inv (read_file p).
Proof. intros w w' r H Hr. by rewrite (read_file_state _ _ _ _ Hr). Qed.

Lemma write_file_inv p d w w' r :
  write_file p d w = (w', r) ->
  (w' = w /\ exists e, r = Raise e) \/
  (exists k, resolve w p = Ok k /\ is_dir_at (files w) k = false /\
     w' = set_files w (<[k := File d]> (files w)) /\ r = Ok tt).
Proof.
  destruct (resolve w p) as [k|e] eqn:Hr.
  - unfold write_file. rewrite Hr.
    destruct (is_dir_at (files w) k) eqn:Hd; intros [= <- <-]; [eauto|].
    right. eauto.
  - destruct (write_file_unresolved p d w e Hr) as (e' & -> & _).
    intros [= <- <-]. eauto.
Qed.

Lemma os_remove_inv p w w' r :
  os_remove p w = (w', r) ->
  (w' = w /\ exists e, r = Raise e) \/
  (exists k, resolve w p = Ok k /\ is_dir_at (files w) k = false /\
     w' = set_files w (delete k (files w)) /\ r = Ok tt).
Proof.
  unfold os_remove. destruct (resolve w p) as [k|e]; [|intros [= <- <-]; eauto].
  destruct (is_dir_at (files w) k) eqn:Hd; [intros [= <- <-]; eauto|].
  destruct (files w !! k); intros [= <- <-]; [|eauto].
  right. eauto.
Qed.

Lemma keeps_dirs_write_file w0 p d : keeps (same_dirs_as w0) (write_file p d).
Proof.
  intros w w' r H Hw. apply write_file_inv in Hw as [[-> _]|(k & _ & Hd & -> & _)]; [done|].
  eapply dirs_eqw_trans; [exact H|]. by apply dirs_eqw_insert_file.
Qed.

Lemma keeps_dirs_os_remove w0 p : keeps (same_dirs_as w0) (os_remove p).
Proof.
  intros w w' r H Hw. apply os_remove_inv in Hw as [[-> _]|(k & _ & Hd & -> & _)]; [done|].
  eapply dirs_eqw_trans; [exact H|]. by apply dirs_eqw_delete_file.
Qed.

Lemma keeps_dirs_draw w0 : keeps (same_dirs_as w0) draw.
Proof. intros w w' r H [= <- <-]. destruct H as [H1 H2]. by split. Qed.

Lemma keeps_dirs_shutil_copy w0 src dst : keeps (same_dirs_as w0) (shutil_copy src dst).
Proof.
  unfold shutil_copy. apply keeps_bind; [apply keeps_query|]. intros b.
  apply keeps_bind; [apply keeps_query|]. intros [|]; [apply keeps_raise|].
  apply keeps_bind; [apply keeps_read_file|]. intros d. apply keeps_dirs_write_file.
Qed.

Section Keeps.
Context (E : Env).

Lemma keeps_dirs_copier_et_chiffrer w0 K src dst :
  keeps (same_dirs_as w0) (copier_et_chiffrer E K src dst).
Proof.
  unfold copier_et_chiffrer. apply keeps_bind; [apply keeps_dirs_shutil_copy|]. intros _.
  apply keeps_bind; [apply keeps_read_file|]. intros d.
  apply keeps_bind; [|intros c; apply keeps_dirs_write_file].
  unfold encrypt. apply keeps_bind; [apply keeps_dirs_draw|]. intros n. apply keeps_ret.
Qed.

Lemma keeps_decrypt Inv K c : keeps Inv (decrypt E K c).
Proof. unfold decrypt. destruct (fernet_decrypt E K c); [apply keeps_ret|apply keeps_raise]. Qed.

Lemma keeps_dirs_dechiffrer_un w0 K p final :
  keeps (same_dirs_as w0) (dechiffrer_un E K p final).
Proof.
  unfold dechiffrer_un. apply keeps_bind; [apply keeps_read_file|]. intros c.
  apply keeps_bind; [apply keeps_decrypt|]. intros d.
  apply keeps_bind; [apply keeps_dirs_write_file|]. intros _. apply keeps_dirs_os_remove.
Qed.

End Keeps.

Lemma isdir_dirs_eqw w w' p :
  dirs_eqw w w' -> os_path_isdir w p = true -> os_path_isdir w' p = true.
Proof.
  intros He. unfold os_path_isdir. destruct (resolve w p) as [k|e] eqn:Hr; [|done].
  rewrite (resolve_dirs_eq _ _ _ _ He Hr). destruct He as [He _]. by rewrite He.
Qed.

Lemma isdir_inv w p :
  os_path_isdir w p = true ->
  exists k, resolve w p = Ok k /\ is_dir_at (files w) k = true.
Proof. unfold os_path_isdir. destruct (resolve w p) as [k|e]; [eauto|done]. Qed.

(** ** A directory among the entries of the source (lines 57-62) *)

Section Batch.
Context (E : Env).

Lemma shutil_copy_dir src dst w :
  os_path_isdir w src = true ->
  exists e, shutil_copy src dst w = (w, Raise e) /\
            (e = IsADirectoryError \/ e = SameFileError).
Proof.
  intros (k & Hr & Hd)%isdir_inv. unfold shutil_copy.
  rewrite bind_query. rewrite bind_query.
  match goal with |- context [samefile w src ?d] => destruct (samefile w src d) end.
  - exists SameFileError. split; [done|]. by right.
  - exists IsADirectoryError. split; [|by left].
    by rewrite (bind_raise _ _ _ _ _ (read_file_dir _ _ _ Hr Hd)).
Qed.

Lemma chiffrer_entree_dir K src dst f w :
  os_path_isdir w (os_path_join src f) = true ->
  exists e, chiffrer_entree E K src dst f w = (w, Raise e) /\
            (e = IsADirectoryError \/ e = SameFileError).
Proof.
  intros Hd. unfold chiffrer_entree, copier_et_chiffrer.
  destruct (shutil_copy_dir _ (os_path_join dst (f +:+ ".encrypted")) _ Hd) as (e & He & Hk).
  exists e. split; [|done]. by rewrite (bind_raise _ _ _ _ _ He).
Qed.

Lemma batch_stops_at_dir K src dst l1 f l2 w w1 :
  for_each l1 (chiffrer_entree E K src dst) w = (w1, Ok tt) ->
  os_path_isdir w1 (os_path_join src f) = true ->
  exists e, for_each (l1 ++ f :: l2) (chiffrer_entree E K src dst) w = (w1, Raise e) /\
            (e = IsADirectoryError \/ e = SameFileError).
Proof.
  intros H1 Hd. rewrite for_each_app, H1. cbn [for_each].
  destruct (chiffrer_entree_dir K src dst f w1 Hd) as (e & He & Hk).
  exists e. split; [|done]. by rewrite (bind_raise _ _ _ _ _ He).
Qed.

Lemma batch_with_dir_fails K src dst l f w w' r :
  In f l -> os_path_isdir w (os_path_join src f) = true ->
  for_each l (chiffrer_entree E K src dst) w = (w', r) ->
  exists e, r = Raise e.
Proof.
  intros Hin Hd. revert w Hd. induction l as [|x l IH]; intros w Hd; [done|].
  cbn [for_each]. unfold bind.
  destruct (chiffrer_entree E K src dst x w) as [w1 [[]|e]] eqn:Hx.
  - destruct Hin as [->|Hin].
    + destruct (chiffrer_entree_dir K src dst f w Hd) as (e & He & _). congruence.
    + apply IH; [done|]. eapply isdir_dirs_eqw; [|exact Hd].
      eapply (keeps_dirs_copier_et_chiffrer E w); [apply dirs_eqw_refl|exact Hx].
  - intros [= <- <-]. eauto.
Qed.

End Batch.

Lemma bind_inv {A B} (c : M A) (k : A -> M B) w w' r :
  bind c k w = (w', r) ->
  (exists w1 a, c w = (w1, Ok a) /\ k a w1 = (w', r)) \/
  (exists e, c w = (w', Raise e) /\ r = Raise e).
Proof.
  unfold bind. destruct (c w) as [w1 [a|e]]; [eauto|].
  intros [= <- <-]. eauto.
Qed.

(** ** Directories only appear: [os.makedirs] *)

Lemma dirs_lew_refl w : dirs_lew w w.
Proof. split; [by intros k|done]. Qed.

Lemma dirs_lew_trans w1 w2 w3 : dirs_lew w1 w2 -> dirs_lew w2 w3 -> dirs_lew w1 w3.
Proof. intros [H1 H2] [H3 H4]. split; [|congruence]. intros k Hk. by apply H3, H1. Qed.

Lemma walk_dirs_le m m' cur l k :
  dirs_le m m' -> walk m cur l = Ok k -> walk m' cur l = Ok k.
Proof.
  intros He. revert cur. induction l as [|c l IH]; intros cur; [done|].
  cbn. destruct (is_dir_at m cur) eqn:Hd; [|by destruct (exists_at m cur)].
  rewrite (He _ Hd). destruct (is_dot c); [apply IH|]. destruct (is_dotdot c); apply IH.
Qed.

Lemma resolve_dirs_le w w' p k :
  dirs_lew w w' -> resolve w p = Ok k -> resolve w' p = Ok k.
Proof.
  intros [He Hc]. unfold resolve. destruct (bool_decide (p = "")); [done|].
  rewrite <- Hc. by apply walk_dirs_le.
Qed.

Lemma isdir_dirs_lew w w' p :
  dirs_lew w w' -> os_path_isdir w p = true -> os_path_isdir w' p = true.
Proof.
  intros He. unfold os_path_isdir. destruct (resolve w p) as [k|e] eqn:Hr; [|done].
  rewrite (resolve_dirs_le _ _ _ _ He Hr). destruct He as [He _]. apply He.
Qed.

Lemma keeps_dirs_le_mkdir w0 p : keeps (dirs_lew w0) (os_mkdir p).
Proof.
  intros w w' r H. unfold os_mkdir.
  destruct (resolve w _) as [k|e]; [|by intros [= <- <-]].
  destruct (exists_at (files w) k) eqn:Hex; intros [= <- <-]; [done|].
  eapply dirs_lew_trans; [exact H|]. split; [|done]. cbn.
  intros k' Hk'. destruct k' as [|c k']; [done|]. unfold is_dir_at in *.
  destruct (decide (k = c :: k')) as [->|Hne].
  - by rewrite lookup_insert_eq.
  - by rewrite lookup_insert_ne.
Qed.

Lemma keeps_dirs_le_makedirs_fuel w0 n name : keeps (dirs_lew w0) (makedirs_fuel n name).
Proof.
  revert name. induction n as [|n IH]; intros name; cbn [makedirs_fuel].
  - destruct (os_path_split name) as [h t].
    destruct (if bool_decide (t = "") then os_path_split h else (h, t)) as [h' t'].
    apply keeps_bind; [apply keeps_query|]. intros b.
    destruct (_ && _); apply keeps_dirs_le_mkdir.
  - destruct (os_path_split name) as [h t].
    destruct (if bool_decide (t = "") then os_path_split h else (h, t)) as [h' t'].
    apply keeps_bind; [apply keeps_query|]. intros b.
    destruct (_ && _); [|apply keeps_dirs_le_mkdir].
    apply keeps_bind.
    + intros w w' r H. destruct (makedirs_fuel n h' w) as [w1 [a|e]] eqn:Hm.
      * intros [= <- <-]. by eapply IH.
      * destruct e; intros [= <- <-]; by eapply IH.
    + intros _. destruct (bool_decide (t' = ".")); [apply keeps_ret|apply keeps_dirs_le_mkdir].
Qed.

Lemma keeps_dirs_le_makedirs w0 name : keeps (dirs_lew w0) (os_makedirs name).
Proof. apply keeps_dirs_le_makedirs_fuel. Qed.

(** ** [os.listdir] *)

Lemma child_of_Some k k' c : child_of k k' = Some c <-> k' = k ++ [c].
Proof.
  unfold child_of. split.
  - destruct (bool_decide_reflect (removelast k' = k)) as [<-|]; [|done].
    intros (l' & ->)%last_Some. by rewrite removelast_last.
  - intros ->. rewrite removelast_last, bool_decide_eq_true_2 by done.
    apply last_snoc.
Qed.

Lemma elem_of_entries m k c : c ∈ entries m k <-> is_Some (m !! (k ++ [c])).
Proof.
  unfold entries. rewrite list_elem_of_omap. split.
  - intros ([k' n] & Hin & Hc). cbn in Hc. apply child_of_Some in Hc as ->.
    apply elem_of_map_to_list in Hin. eauto.
  - intros [n Hn]. exists (k ++ [c], n). split; [by apply elem_of_map_to_list|].
    cbn. by apply child_of_Some.
Qed.

Lemma entries_valid m k c :
  well_formed m = true -> c ∈ entries m k -> valid_name c = true.
Proof.
  intros Hwf [n Hn]%elem_of_entries.
  destruct (well_formed_lookup _ _ _ Hwf Hn) as [Hf _].
  rewrite Forall_app in Hf. destruct Hf as [_ Hf]. by inversion Hf.
Qed.

Lemma os_listdir_dir order p w k :
  resolve w p = Ok k -> is_dir_at (files w) k = true ->
  os_listdir order p w = (w, Ok (order (entries (files w) k))).
Proof. intros Hr Hd. unfold os_listdir. by rewrite Hr, Hd. Qed.

Section Directory.
Context (E : Env) (Hgen : generate_key_valid E) (Hopens : decrypt_encrypt E)
  (Hperm : listdir_order_perm E).

Lemma listdir_order_elem l x : x ∈ listdir_order E l <-> x ∈ l.
Proof. by rewrite (Hperm l). Qed.

Lemma choisir_cle_spec ks w :
  exists cle w0, choisir_cle E ks w = (w0, Ok cle) /\ files w0 = files w /\ cwd w0 = cwd w /\
    cle = match ks with Some c => c | None => fernet_generate_key E (entropy w) end.
Proof. destruct ks as [c|]; cbn; eauto 10. Qed.

Lemma Fernet_inv cle w w' r :
  Fernet E cle w = (w', r) -> w' = w /\ (r = Ok cle \/ r = Raise ValueError).
Proof. unfold Fernet. destruct (fernet_valid_key E cle); intros [= <- <-]; auto. Qed.

Lemma isdir_ext w w' p :
  files w' = files w -> cwd w' = cwd w -> os_path_isdir w' p = os_path_isdir w p.
Proof. intros Hf Hc. unfold os_path_isdir. by rewrite (resolve_ext w' w p), Hf. Qed.

Lemma isfile_ext w w' p :
  files w' = files w -> cwd w' = cwd w -> os_path_isfile w' p = os_path_isfile w p.
Proof. intros Hf Hc. unfold os_path_isfile. by rewrite (resolve_ext w' w p), Hf. Qed.

(** A directory among the children of the source: the run fails. *)
Lemma traiter_source_child_dir K src dst f w w' r :
  os_path_isdir w src = true -> valid_name f = true ->
  os_path_isdir w (os_path_join src f) = true ->
  traiter_source E K src dst w = (w', r) -> exists e, r = Raise e.
Proof.
  intros Hsrc Hf Hchild. unfold traiter_source, isdir. rewrite bind_query, Hsrc.
  set (d := match dst with Some d => d | None => src +:+ "_chiffre" end).
  unfold path_exists. rewrite bind_query.
  intros [(wm & [] & Hmk & Hrun)|(e & _ & ->)]%bind_inv; [|eauto].
  assert (dirs_lew w wm) as Hle.
  { destruct (os_path_exists w d).
    - injection Hmk as <-. apply dirs_lew_refl.
    - eapply keeps_dirs_le_makedirs; [apply dirs_lew_refl|exact Hmk]. }
  apply (isdir_dirs_lew _ _ _ Hle) in Hsrc, Hchild.
  apply isdir_inv in Hsrc as (ksrc & Hrs & Hds).
  rewrite (bind_ok _ _ _ _ _ (os_listdir_dir _ _ _ _ Hrs Hds)) in Hrun.
  apply bind_inv in Hrun as [(w2 & [] & Hloop & _)|(e & _ & ->)]; [|eauto].
  exfalso.
  eapply batch_with_dir_fails in Hloop as [e He]; [done| |exact Hchild].
  apply list_elem_of_In, listdir_order_elem, elem_of_entries.
  pose proof (resolve_join _ _ _ _ Hrs Hds Hf) as Hrc.
  apply isdir_inv in Hchild as (kc & Hrc' & Hdc). rewrite Hrc in Hrc'. injection Hrc' as <-.
  unfold is_dir_at in Hdc. destruct (ksrc ++ [f]) eqn:Ek; [by destruct ksrc|].
  destruct (files wm !! (s :: l)); [eauto|done].
Qed.

End Directory.

(** ** The backup and the restore *)

Section Runs.
Context (E : Env) (Hgen : generate_key_valid E) (Hopens : decrypt_encrypt E)
  (Hperm : listdir_order_perm E).

(** C10.  A directory among the immediate children of the source
    directory: the run raises an exception, whatever the other arguments;
    in the batch, once the entries listed before it are done the copy of
    the directory raises [IsADirectoryError] (or [SameFileError]) in the
    state those entries left, so that nothing is written for it and the
    entries after it are not processed. *)
Theorem directory_child_aborts_backup src dst kp ks f w :
  os_path_isdir w src = true ->
  valid_name f = true ->
  os_path_isdir w (os_path_join src f) = true ->
  (exists w' e, sauvegarder_et_chiffrer E src dst kp ks w = (w', Raise e)) /\
  (forall K d l1 l2 wa wb,
     dirs_lew w wa ->
     for_each l1 (chiffrer_entree E K src d) wa = (wb, Ok tt) ->
     exists e,
       for_each (l1 ++ f :: l2) (chiffrer_entree E K src d) wa = (wb, Raise e) /\
       (e = IsADirectoryError \/ e = SameFileError)).
Proof.
  intros Hsrc Hf Hchild. split.
  - destruct (sauvegarder_et_chiffrer E src dst kp ks w) as [w' r] eqn:Hrun.
    exists w'. unfold sauvegarder_et_chiffrer in Hrun.
    destruct (choisir_cle_spec E ks w) as (cle & w0 & Hc & Hf0 & Hc0 & _).
    rewrite (bind_ok _ _ _ _ _ Hc) in Hrun.
    apply bind_inv in Hrun as [(w1 & K & HK & Hrun)|(e & _ & ->)]; [|eauto].
    apply Fernet_inv in HK as [-> _].
    apply bind_inv in Hrun as [(w2 & d & Ht & _)|(e & _ & ->)]; [|eauto].
    exfalso. eapply (traiter_source_child_dir E Hperm) in Ht as [e He]; [done| |exact Hf|].
    + by rewrite (isdir_ext w w0).
    + by rewrite (isdir_ext w w0).
  - intros K d l1 l2 wa wb Hle Hl1. eapply batch_stops_at_dir; [exact Hl1|].
    eapply isdir_dirs_eqw.
    + eapply (keeps_for_each (same_dirs_as wa)); [|apply dirs_eqw_refl|exact Hl1].
      intros x _. apply keeps_dirs_copier_et_chiffrer.
    + by eapply isdir_dirs_lew.
Qed.


Lemma keeps_key_write_file w0 kk p d : keeps (key_file_kept w0 kk) (write_file p d).
Proof.
  intros w w' r [Hd (d0 & Hk)] Hw. split.
  { by eapply (keeps_dirs_write_file w0). }
  apply write_file_inv in Hw as [[-> _]|(k & _ & _ & -> & _)]; [eauto|]. cbn.
  destruct (decide (k = kk)) as [->|Hne].
  - rewrite lookup_insert_eq. eauto.
  - rewrite lookup_insert_ne by done. eauto.
Qed.

Lemma keeps_key_dechiffrer_entree w0 v kv K f :
  resolve w0 v = Ok kv -> is_dir_at (files w0) kv = true -> valid_name f = true ->
  keeps (key_file_kept w0 (kv ++ ["cle.key"])) (dechiffrer_entree E K v f).
Proof.
  intros Hrv Hdv Hf. unfold dechiffrer_entree.
  destruct (bool_decide_reflect (f = "cle.key")) as [->|Hne]; [apply keeps_ret|].
  unfold dechiffrer_un. apply keeps_bind; [apply keeps_read_file|]. intros c.
  apply keeps_bind; [apply keeps_decrypt|]. intros d.
  apply keeps_bind; [apply keeps_key_write_file|]. intros _.
  intros w w' r [Hd (d0 & Hk)] Hw. split.
  { by eapply (keeps_dirs_os_remove w0). }
  apply os_remove_inv in Hw as [[-> _]|(k & Hr & _ & -> & _)]; [eauto|]. cbn.
  assert (resolve w (os_path_join v f) = Ok (kv ++ [f])) as Hr'.
  { apply resolve_join; [by eapply resolve_dirs_eq| |done].
    destruct Hd as [Hd _]. by rewrite <- Hd. }
  rewrite Hr' in Hr. injection Hr as <-.
  rewrite lookup_delete_ne; [eauto|]. intros [_ ?]%app_inj_tail. done.
Qed.

(** C8.  In the traversal of a vault directory the child named [cle.key]
    is not an entry: the loop over a listing that has it is the loop over
    the listing without it (it is never opened), and whatever the outcome
    of the restore a file [cle.key] of the vault is still there (it is
    never renamed and never removed). *)
Theorem key_file_is_not_an_entry v kp w :
  well_formed (files w) = true ->
  os_path_isdir w v = true ->
  os_path_isfile w (os_path_join v "cle.key") = true ->
  (forall K l1 l2 w0,
     for_each (l1 ++ "cle.key" :: l2) (dechiffrer_entree E K v) w0 =
     for_each (l1 ++ l2) (dechiffrer_entree E K v) w0) /\
  (forall w' r,
     dechiffrer_fichiers E v kp w = (w', r) ->
     os_path_isfile w' (os_path_join v "cle.key") = true).
Proof.
  intros Hwf Hd Hk. split.
  - intros K l1 l2 w0. rewrite !for_each_app.
    destruct (for_each l1 _ w0) as [w1 [[]|e]]; [|done]. done.
  - intros w' r Hrun.
    apply isdir_inv in Hd as Hd'. destruct Hd' as (kv & Hrv & Hdv).
    pose proof (resolve_join _ _ "cle.key" _ Hrv Hdv eq_refl) as Hrk.
    assert (key_file_kept w (kv ++ ["cle.key"]) w) as Hinv.
    { split; [apply dirs_eqw_refl|]. unfold os_path_isfile in Hk. rewrite Hrk in Hk.
      destruct (files w !! (kv ++ ["cle.key"])) as [[d|]|]; [eauto|done..]. }
    assert (key_file_kept w (kv ++ ["cle.key"]) w') as [He (d & Hd')].
    { unfold dechiffrer_fichiers in Hrun.
      apply bind_inv in Hrun as [(w1 & K & Hr & Hrun)|(e & Hr & _)];
        [|by rewrite (read_file_state _ _ _ _ Hr)].
      rewrite (read_file_state _ _ _ _ Hr) in Hrun.
      apply bind_inv in Hrun as [(w2 & K' & HK & Hrun)|(e & HK & _)];
        [|by destruct (Fernet_inv E _ _ _ _ HK) as [-> _]].
      destruct (Fernet_inv E _ _ _ _ HK) as [-> _].
      unfold isdir in Hrun. rewrite bind_query, Hd in Hrun.
      rewrite (bind_ok _ _ _ _ _ (os_listdir_dir _ _ _ _ Hrv Hdv)) in Hrun.
      eapply keeps_for_each; [|exact Hinv|exact Hrun].
      intros f Hin. apply keeps_key_dechiffrer_entree; [done..|].
      eapply entries_valid; [exact Hwf|].
      eapply listdir_order_elem; [exact Hperm|]. by apply list_elem_of_In. }
    unfold os_path_isfile. rewrite (resolve_dirs_eq _ _ _ _ He Hrk). by rewrite Hd'.
Qed.


End Runs.

Lemma writable_inv w p :
  writable w p = true -> exists k, resolve w p = Ok k /\ is_dir_at (files w) k = false.
Proof.
  unfold writable. destruct (resolve w p) as [k|e]; [|done].
  intros H. exists k. split; [done|]. by destruct (is_dir_at (files w) k).
Qed.

Section Entries.
Context (E : Env) (Hgen : generate_key_valid E) (Hopens : decrypt_encrypt E)
  (Hperm : listdir_order_perm E).

Lemma enregistrer_cle_chemin cle d kp ks :
  enregistrer_cle cle (Some d) kp ks =
  match chemin_cle_enregistree d kp ks with
  | Some p => write_file p cle
  | None => ret tt
  end.
Proof. by destruct kp, ks. Qed.

Lemma traiter_source_single_file K w src P :
  well_formed (files w) = true ->
  read_file src w = (w, Ok P) ->
  os_path_isdir w (src +:+ ".encrypted") = false ->
  exists k0 c,
    resolve w src = Ok (k0 ++ [c]) /\
    resolve w (src +:+ ".encrypted") = Ok (k0 ++ [c +:+ ".encrypted"]) /\
    files w !! (k0 ++ [c]) = Some (File P) /\
    is_dir_at (files w) (k0 ++ [c +:+ ".encrypted"]) = false /\
    traiter_source E K src None w =
      (World (<[k0 ++ [c +:+ ".encrypted"] := File (fernet_encrypt E K (entropy w) P)]> (files w))
             (cwd w) (S (entropy w)),
       Ok (Some (src +:+ ".encrypted"))).
Proof.
  intros Hwf Hread Hencdir.
  apply read_file_inv in Hread as (_ & ksrc & Hrs & Hne & Hfs).
  pose proof (file_not_dir _ _ _ Hne Hfs) as Hsd.
  destruct (resolve_suffix w src ksrc ".encrypted" Hwf Hrs Hsd eq_refl)
    as (k0 & c & -> & Hd0 & Hre); [done|].
  pose proof (isdir_false_resolved _ _ _ Hre Hencdir) as Hed.
  exists k0, c. repeat (split; [done|]).
  assert (k0 ++ [c +:+ ".encrypted"] <> k0 ++ [c]) as Hes.
  { intros [_ Hc]%app_inj_tail. apply (f_equal String.length) in Hc.
    rewrite str_length_app in Hc. cbn in Hc. lia. }
  unfold traiter_source, isdir, isfile. rewrite bind_query.
  rewrite (isdir_resolved w src _ Hrs), Hsd. rewrite bind_query.
  rewrite (isfile_resolved w src _ P Hrs Hfs). rewrite bind_ret.
  by rewrite (bind_ok _ _ _ _ _ (copier_et_chiffrer_ok E K src _ w _ _ P
                Hrs Hne Hfs Hre Hed Hes)).
Qed.

Lemma dechiffrer_un_moves K p out w c P :
  read_file p w = (w, Ok c) -> fernet_decrypt E K c = Some P ->
  writable w out = true -> resolve w out <> resolve w p ->
  exists w', dechiffrer_un E K p out w = (w', Ok tt) /\
             read_file out w' = (w', Ok P) /\ os_path_exists w' p = false.
Proof.
  intros (_ & kp & Hrp & Hne & Hfp)%read_file_inv Hdec (kf & Hrf & Hfd)%writable_inv Hdiff.
  assert (kf <> kp) as Hk by (rewrite Hrf, Hrp in Hdiff; congruence).
  eexists. split; [by eapply dechiffrer_un_ok|].
  assert (dirs_eqw w (set_files w (delete kp (<[kf:=File P]> (files w))))) as He.
  { split; [|done]. cbn. eapply dirs_eq_trans.
    - by apply (dirs_eq_insert_file _ kf P).
    - apply dirs_eq_delete_file. rewrite is_dir_at_insert_file by done.
      by eapply file_not_dir. }
  split.
  - eapply read_file_ok; [by eapply resolve_dirs_eq| |].
    + intros ->. done.
    + cbn. rewrite lookup_delete_ne by done. by rewrite lookup_insert_eq.
  - unfold os_path_exists. rewrite (resolve_dirs_eq _ _ _ _ He Hrp). cbn.
    unfold exists_at. destruct kp; [done|]. by rewrite lookup_delete_eq.
Qed.

(** C9.  The name the restore writes is the name with every occurrence of
    ['.encrypted'] removed, wherever it is: the leftmost occurrence is
    dropped and the rest of the name is treated the same way; a name
    without the substring is unchanged.  The plaintext of an entry of a
    vault directory, and of a single sealed file, is written under that
    name. *)
Theorem restored_name_is_substring_removal :
  (forall a b, contains a ".encrypted" = false ->
     str_replace (a +:+ ".encrypted" +:+ b) ".encrypted" "" =
     a +:+ str_replace b ".encrypted" "") /\
  (forall s, contains s ".encrypted" = false -> str_replace s ".encrypted" "" = s) /\
  (forall K v f w c P,
     f <> "cle.key" ->
     read_file (os_path_join v f) w = (w, Ok c) ->
     fernet_decrypt E K c = Some P ->
     writable w (os_path_join v (str_replace f ".encrypted" "")) = true ->
     resolve w (os_path_join v (str_replace f ".encrypted" "")) <>
       resolve w (os_path_join v f) ->
     exists w',
       dechiffrer_entree E K v f w = (w', Ok tt) /\
       read_file (os_path_join v (str_replace f ".encrypted" "")) w' = (w', Ok P) /\
       os_path_exists w' (os_path_join v f) = false) /\
  (forall K p kp w c P,
     read_file (match kp with
                | Some q => q
                | None => os_path_join (os_path_dirname p) "cle.key"
                end) w = (w, Ok K) ->
     fernet_valid_key E K = true ->
     read_file p w = (w, Ok c) ->
     fernet_decrypt E K c = Some P ->
     writable w (str_replace p ".encrypted" "") = true ->
     resolve w (str_replace p ".encrypted" "") <> resolve w p ->
     exists w',
       dechiffrer_fichiers E p kp w = (w', Ok tt) /\
       read_file (str_replace p ".encrypted" "") w' = (w', Ok P) /\
       os_path_exists w' p = false).
Proof.
  split; [exact str_replace_occurrence|]. split; [exact str_replace_absent|]. split.
  - intros K v f w c P Hf Hr Hdec Hw Hdiff. unfold dechiffrer_entree.
    rewrite bool_decide_eq_false_2 by done. by eapply dechiffrer_un_moves.
  - intros K p kp w c P Hkey HK Hr Hdec Hw Hdiff. unfold dechiffrer_fichiers.
    rewrite (bind_ok _ _ _ _ _ Hkey), (bind_ok _ _ _ _ _ (Fernet_ok E K w HK)).
    unfold isdir, isfile. rewrite bind_query.
    apply read_file_inv in Hr as Hr'. destruct Hr' as (_ & k & Hrk & Hne & Hfk).
    rewrite (isdir_resolved _ _ _ Hrk), (file_not_dir _ _ _ Hne Hfk).
    rewrite bind_query, (isfile_resolved _ _ _ _ Hrk Hfk).
    by eapply dechiffrer_un_moves.
Qed.

End Entries.

(** ** [os.makedirs] has fuel enough *)

Lemma cut_last_sep_length p h t :
  cut_last_sep p = (h, t) -> String.length h + String.length t = String.length p.
Proof.
  intros (-> & _ & _)%cut_last_sep_spec. by rewrite str_length_app.
Qed.

Lemma rstrip_sep_length h : String.length (rstrip_sep h) <= String.length h.
Proof.
  destruct (rstrip_sep_spec h) as [n Hn]. rewrite Hn at 2. rewrite str_length_app. lia.
Qed.

Lemma os_path_split_length p h t :
  os_path_split p = (h, t) -> String.length h + String.length t <= String.length p.
Proof.
  unfold os_path_split. destruct (cut_last_sep p) as [h0 t0] eqn:Hc.
  apply cut_last_sep_length in Hc. pose proof (rstrip_sep_length h0).
  destruct (rstrip_sep h0) eqn:Hr; intros [= <- <-]; [lia|]. cbn in *. lia.
Qed.

Lemma makedirs_head_shorter name h t h' t' :
  os_path_split name = (h, t) ->
  (if bool_decide (t = "") then os_path_split h else (h, t)) = (h', t') ->
  t' <> "" -> String.length h' < String.length name.
Proof.
  intros Hs%os_path_split_length. destruct (bool_decide_reflect (t = "")) as [->|Ht].
  - intros Hs'%os_path_split_length Ht'. destruct t'; [done|]. cbn in *. lia.
  - intros [= <- <-] _. destruct t; [done|]. cbn in *. lia.
Qed.

Lemma makedirs_fuel_enough n m name w :
  String.length name <= n -> String.length name <= m ->
  makedirs_fuel n name w = makedirs_fuel m name w.
Proof.
  revert m name w. induction n as [|n IH]; intros m name w Hn Hm.
  - destruct name; [|cbn in Hn; lia]. by destruct m.
  - destruct m as [|m].
    { destruct name; [done|cbn in Hm; lia]. }
    cbn [makedirs_fuel].
    destruct (os_path_split name) as [h t] eqn:Hs.
    destruct (if bool_decide (t = "") then os_path_split h else (h, t)) as [h' t'] eqn:Hs'.
    rewrite !bind_query.
    destruct (bool_decide_reflect (t' = "")) as [->|Ht'].
    { by rewrite !andb_false_r. }
    destruct (_ && _); [|done].
    pose proof (makedirs_head_shorter _ _ _ _ _ Hs Hs' Ht').
    unfold bind. cbv beta. rewrite (IH m h' w) by lia. done.
Qed.

(** ** One entry, sealed and opened *)

Section Entry.
Context (E : Env) (Hgen : generate_key_valid E) (Hopens : decrypt_encrypt E)
  (Hperm : listdir_order_perm E).

(** One entry: sealed by the backup, opened by the restore. *)
Lemma entry_round_trip K src dst w P :
  fernet_valid_key E K = true ->
  read_file src w = (w, Ok P) ->
  writable w dst = true ->
  resolve w dst <> resolve w src ->
  exists w1,
    copier_et_chiffrer E K src dst w = (w1, Ok tt) /\
    read_file dst w1 = (w1, Ok (fernet_encrypt E K (entropy w) P)) /\
    forall out,
      writable w1 out = true ->
      resolve w1 out <> resolve w1 dst ->
      exists w2,
        dechiffrer_un E K dst out w1 = (w2, Ok tt) /\
        read_file out w2 = (w2, Ok P) /\
        os_path_exists w2 dst = false.
Proof.
  intros HK (_ & ks & Hrs & Hne & Hfs)%read_file_inv (kd & Hrd & Hdd)%writable_inv Hdiff.
  assert (kd <> ks) as Hk by (rewrite Hrd, Hrs in Hdiff; congruence).
  eexists. split; [by eapply copier_et_chiffrer_ok|].
  set (w1 := World _ _ _).
  assert (read_file dst w1 = (w1, Ok (fernet_encrypt E K (entropy w) P))) as Hread.
  { eapply read_file_ok.
    - eapply (resolve_dirs_eq w); [|exact Hrd]. split; [|done].
      by apply dirs_eq_insert_file.
    - by intros ->.
    - cbn. by rewrite lookup_insert_eq. }
  split; [done|]. intros out Hout Hneq.
  eapply dechiffrer_un_moves; [exact Hread| |done..].
  by apply Hopens.
Qed.

End Entry.

(** ** Where the key goes, and what the restore removes *)

(** The default key file of a path whose last component is a plain name is
    the entry [cle.key] of the directory that holds it: beside it, never
    below it. *)
Lemma default_key_path_is_sibling w d kd :
  resolve w d = Ok kd -> valid_name (last_comp d) = true ->
  kd = removelast kd ++ [last_comp d] /\
  resolve w (os_path_join (os_path_dirname d) "cle.key") = Ok (removelast kd ++ ["cle.key"]).
Proof.
  intros Hr Hv. unfold resolve in Hr.
  destruct (bool_decide_reflect (d = "")) as [->|Hd]; [done|].
  rewrite split_sep_init_last in Hr.
  apply walk_last_ok in Hr as (k0 & Hw & Hd0 & Hlast).
  rewrite walk_name in Hlast;
    [|done|by apply valid_name_dot|by apply valid_name_dotdot].
  injection Hlast as <-. rewrite removelast_last. split; [done|].
  eapply resolve_dirname_join; [done|apply split_sep_init_last|done..].
Qed.

Section Defects.
Context (E : Env).

(** A sealed file whose path has no ['.encrypted']: the plaintext is
    written over it, and then removed. *)
Lemma restore_without_suffix_removes_plaintext p kp w K c P :
  read_file (match kp with
             | Some q => q
             | None => os_path_join (os_path_dirname p) "cle.key"
             end) w = (w, Ok K) ->
  fernet_valid_key E K = true ->
  read_file p w = (w, Ok c) ->
  fernet_decrypt E K c = Some P ->
  contains p ".encrypted" = false ->
  exists w', dechiffrer_fichiers E p kp w = (w', Ok tt) /\ os_path_exists w' p = false.
Proof.
  intros Hkey HK Hr Hdec Hp. unfold dechiffrer_fichiers.
  rewrite (bind_ok _ _ _ _ _ Hkey), (bind_ok _ _ _ _ _ (Fernet_ok E K w HK)).
  unfold isdir, isfile. rewrite bind_query.
  apply read_file_inv in Hr as (_ & k & Hrk & Hne & Hfk).
  pose proof (file_not_dir _ _ _ Hne Hfk) as Hkd.
  rewrite (isdir_resolved _ _ _ Hrk), Hkd.
  rewrite bind_query, (isfile_resolved _ _ _ _ Hrk Hfk).
  rewrite (str_replace_absent p Hp).
  eexists. split; [by eapply dechiffrer_un_ok|].
  unfold os_path_exists. erewrite resolve_dirs_eq; [| |exact Hrk].
  - cbn. unfold exists_at. destruct k; [done|]. by rewrite lookup_delete_eq.
  - split; [|done]. cbn. eapply dirs_eq_trans.
    + by apply (dirs_eq_insert_file _ k P).
    + apply dirs_eq_delete_file. by rewrite is_dir_at_insert_file.
Qed.

End Defects.

Section SealOpen.
Context (E : Env) (Hgen : generate_key_valid E) (Hopens : decrypt_encrypt E)
  (Hperm : listdir_order_perm E).


End SealOpen.

(** ** The small environment satisfies the laws *)

Lemma strip_prefix_app k r : Toy.strip_prefix k (k ++ r) = Some r.
Proof.
  induction k as [|x k IH]; [done|]. cbn. by rewrite (Byte.byte_dec_lb (eq_refl : x = x)).
Qed.

Lemma toy_generate_key_valid : generate_key_valid Toy.env.
Proof. by intros n. Qed.

Lemma toy_decrypt_encrypt : decrypt_encrypt Toy.env.
Proof.
  intros k n p Hk. cbn in *. unfold Toy.unseal, Toy.seal.
  by rewrite Hk, strip_prefix_app.
Qed.

Lemma toy_listdir_order_perm : listdir_order_perm Toy.env.
Proof. intros l. apply reverse_Permutation. Qed.

(** ** The lenient cipher *)

Lemma rstrip_lf_token l : Souple.rstrip_lf (l ++ [xff]) = l ++ [xff].
Proof.
  induction l as [|x l IH]; [done|]. cbn [app Souple.rstrip_lf]. rewrite IH.
  by destruct l.
Qed.

(** It keeps the laws of a cipher: what it seals, it opens. *)
Lemma souple_decrypt_encrypt : decrypt_encrypt Souple.env.
Proof.
  intros k n p Hk. cbn in *. unfold Souple.unseal, Souple.seal.
  rewrite Hk, strip_prefix_app, rstrip_lf_token, last_snoc.
  by rewrite removelast_last.
Qed.

(** A token with a line feed appended is no token. *)
Lemma souple_not_sealed k n p : ~ sealed_under Souple.env k (Souple.seal k n p ++ [x0a]).
Proof.
  intros (n' & p' & H). cbn in H. unfold Souple.seal in H.
  apply (f_equal last) in H.
  rewrite last_snoc in H.
  change (k ++ Toy.nonce n' :: p' ++ [xff]) with (k ++ (Toy.nonce n' :: p') ++ [xff]) in H.
  rewrite List.app_assoc, last_snoc in H. discriminate H.
Qed.

(** ** The claims on the small environment *)




(** C3, on the code.  [docs/] holds [a.txt] and [b.txt]; the backup runs
    with no destination and no key argument.  [docs_chiffre/] holds exactly
    the two sealed files; the key is not in it: it was written to
    [cle.key] beside [docs_chiffre], as
    [os.path.join(os.path.dirname("docs_chiffre"), "cle.key")] says. *)
Theorem directory_backup_key_beside_destination :
  let w' := (sauvegarder_et_chiffrer Toy.env "docs" None None None Toy.docs).1 in
  sauvegarder_et_chiffrer Toy.env "docs" None None None Toy.docs = (w', Ok tt) /\
  entries (files w') ["docs_chiffre"] ≡ₚ ["a.txt.encrypted"; "b.txt.encrypted"] /\
  files w' !! ["docs_chiffre"; "cle.key"] = None /\
  files w' !! ["cle.key"] = Some (File Toy.cle) /\
  os_path_join (os_path_dirname "docs_chiffre") "cle.key" = "cle.key".
Proof.
  cbv zeta. split; [vm_compute; reflexivity|]. split.
  { assert (entries (files (sauvegarder_et_chiffrer Toy.env "docs" None None None Toy.docs).1)
                    ["docs_chiffre"] = ["b.txt.encrypted"; "a.txt.encrypted"]) as ->
      by (vm_compute; reflexivity).
    apply Permutation_swap. }
  repeat split; vm_compute; reflexivity.
Qed.

(** C4, on the code.  An entry whose name has no ['.encrypted'], holding a
    token that opens under the key: the restore succeeds and the entry ends
    with neither form present, in a vault directory as well as alone. *)
Theorem unsuffixed_entry_is_lost :
  let w1 := (dechiffrer_fichiers Toy.env "coffre" None Toy.coffre).1 in
  let w2 := (dechiffrer_fichiers Toy.env "note" None Toy.note).1 in
  read_file "coffre/note" Toy.coffre = (Toy.coffre, Ok (Toy.seal Toy.cle 1 (Toy.b "hello"))) /\
  Toy.unseal Toy.cle (Toy.seal Toy.cle 1 (Toy.b "hello")) = Some (Toy.b "hello") /\
  dechiffrer_fichiers Toy.env "coffre" None Toy.coffre = (w1, Ok tt) /\
  entries (files w1) ["coffre"] = [] /\
  dechiffrer_fichiers Toy.env "note" None Toy.note = (w2, Ok tt) /\
  os_path_exists w2 "note" = false.
Proof. cbv zeta. repeat split; vm_compute; reflexivity. Qed.




(** C8 on a vault that holds a [cle.key]. *)
Lemma key_file_witness :
  os_path_isfile (dechiffrer_fichiers Toy.env "coffre" None Toy.coffre_avec_cle).1
    (os_path_join "coffre" "cle.key") = true /\
  (dechiffrer_fichiers Toy.env "coffre" None Toy.coffre_avec_cle).2 = Ok tt.
Proof.
  split; [|vm_compute; reflexivity].
  eapply (proj2 (key_file_is_not_an_entry Toy.env toy_listdir_order_perm "coffre" None Toy.coffre_avec_cle
                   ltac:(vm_compute; reflexivity) ltac:(vm_compute; reflexivity)
                   ltac:(vm_compute; reflexivity))).
  apply surjective_pairing.
Defined.

(** C9 on two names. *)
Lemma restored_name_witness :
  str_replace ("a" +:+ ".encrypted" +:+ ".txt.encrypted") ".encrypted" "" = "a.txt" /\
  str_replace "cle.key" ".encrypted" "" = "cle.key".
Proof.
  destruct (restored_name_is_substring_removal Toy.env) as (H1 & H2 & _).
  split.
  - rewrite (H1 "a" ".txt.encrypted" eq_refl). vm_compute. reflexivity.
  - apply (H2 "cle.key" eq_refl).
Defined.

(** C10 on [docs/] with the sub-directory [sauv]. *)
Lemma directory_child_witness :
  (exists w' e,
     sauvegarder_et_chiffrer Toy.env "docs" None None None Toy.docs_sub = (w', Raise e)) /\
  let wa := (os_makedirs "docs_chiffre" Toy.docs_sub).1 in
  let wb := (for_each ["a.txt"] (chiffrer_entree Toy.env Toy.cle "docs" "docs_chiffre") wa).1 in
  exists e,
    for_each (["a.txt"] ++ "sauv" :: ["zz"])
      (chiffrer_entree Toy.env Toy.cle "docs" "docs_chiffre") wa = (wb, Raise e) /\
    (e = IsADirectoryError \/ e = SameFileError).
Proof.
  destruct (directory_child_aborts_backup Toy.env toy_listdir_order_perm "docs" None None None "sauv"
              Toy.docs_sub
              ltac:(vm_compute; reflexivity) ltac:(vm_compute; reflexivity)
              ltac:(vm_compute; reflexivity)) as [H1 H2].
  split; [exact H1|]. cbv zeta. apply H2.
  - eapply keeps_dirs_le_makedirs; [apply dirs_lew_refl|]. apply surjective_pairing.
  - vm_compute. reflexivity.
Defined.

(** * More properties of the program *)

(** ** Which exceptions a run raises *)

Lemma raises_only_ret {A} P (a : A) : raises_only P (ret a).
Proof. by intros w w' e. Qed.

Lemma raises_only_query {A} P (f : world -> A) : raises_only P (query f).
Proof. by intros w w' e. Qed.

Lemma raises_only_raise {A} (P : exception -> Prop) e : P e -> raises_only P (raise e : M A).
Proof. intros He w w' e' [= _ <-]. done. Qed.

Lemma raises_only_bind {A B} P (c : M A) (k : A -> M B) :
  raises_only P c -> (forall a, raises_only P (k a)) -> raises_only P (bind c k).
Proof.
  intros Hc Hk w w' e [(w1 & a & _ & H)|(e' & H & [= ->])]%bind_inv.
  - by eapply Hk.
  - by eapply Hc.
Qed.

Lemma raises_only_for_each {A} P (l : list A) body :
  (forall x, raises_only P (body x)) -> raises_only P (for_each l body).
Proof.
  intros H. induction l as [|x l IH]; [apply raises_only_ret|].
  cbn [for_each]. apply raises_only_bind; [apply H|]. by intros _.
Qed.

Lemma walk_raises m cur l e :
  walk m cur l = Raise e -> e = FileNotFoundError \/ e = NotADirectoryError.
Proof.
  revert cur. induction l as [|c l IH]; intros cur; [done|]. cbn.
  destruct (is_dir_at m cur).
  - destruct (is_dot c); [apply IH|]. destruct (is_dotdot c); apply IH.
  - destruct (exists_at m cur); intros [= <-]; auto.
Qed.

Lemma resolve_raises w p e : resolve w p = Raise e -> is_os_error e.
Proof.
  unfold resolve. destruct (bool_decide (p = "")); [by intros [= <-]|].
  by intros [-> | ->]%walk_raises.
Qed.

Lemma raises_read_file p : raises_only is_os_error (read_file p).
Proof.
  intros w w' e. unfold read_file.
  destruct (resolve w p) as [k|e'] eqn:Hr; [|intros [= _ <-]; by eapply resolve_raises].
  destruct (is_dir_at (files w) k); [by intros [= _ <-]|].
  destruct (files w !! k) as [[d|]|]; by intros [= _ <-].
Qed.

Lemma raises_write_file p d : raises_only is_os_error (write_file p d).
Proof.
  intros w w' e. destruct (resolve w p) as [k|e'] eqn:Hr.
  - unfold write_file. rewrite Hr.
    destruct (is_dir_at (files w) k); by intros [= _ <-].
  - destruct (write_file_unresolved p d w e' Hr) as (e2 & -> & [->| ->]);
      intros [= _ <-]; [by eapply resolve_raises|done].
Qed.

Lemma raises_os_remove p : raises_only is_os_error (os_remove p).
Proof.
  intros w w' e. unfold os_remove.
  destruct (resolve w p) as [k|e'] eqn:Hr; [|intros [= _ <-]; by eapply resolve_raises].
  destruct (is_dir_at (files w) k); [by intros [= _ <-]|].
  destruct (files w !! k); by intros [= _ <-].
Qed.

Lemma raises_shutil_copy src dst : raises_only is_os_error (shutil_copy src dst).
Proof.
  unfold shutil_copy. apply raises_only_bind; [apply raises_only_query|]. intros b.
  apply raises_only_bind; [apply raises_only_query|]. intros [|].
  - by apply raises_only_raise.
  - apply raises_only_bind; [apply raises_read_file|]. intros d. apply raises_write_file.
Qed.

Lemma raises_os_mkdir p : raises_only is_os_error (os_mkdir p).
Proof.
  intros w w' e. unfold os_mkdir.
  destruct (resolve w _) as [k|e'] eqn:Hr; [|intros [= _ <-]; by eapply resolve_raises].
  destruct (exists_at (files w) k); by intros [= _ <-].
Qed.

Lemma raises_makedirs_fuel n name : raises_only is_os_error (makedirs_fuel n name).
Proof.
  revert name. induction n as [|n IH]; intros name; cbn [makedirs_fuel].
  - destruct (os_path_split name) as [h t].
    destruct (if bool_decide (t = "") then os_path_split h else (h, t)) as [h' t'].
    apply raises_only_bind; [apply raises_only_query|]. intros b.
    destruct (_ && _); apply raises_os_mkdir.
  - destruct (os_path_split name) as [h t].
    destruct (if bool_decide (t = "") then os_path_split h else (h, t)) as [h' t'].
    apply raises_only_bind; [apply raises_only_query|]. intros b.
    destruct (_ && _); [|apply raises_os_mkdir].
    apply raises_only_bind.
    + intros w w' e. destruct (makedirs_fuel n h' w) as [w1 [a|e']] eqn:Hm; [done|].
      destruct e'; intros [= _ <-]; try done; by eapply IH.
    + intros _. destruct (bool_decide (t' = ".")); [apply raises_only_ret|apply raises_os_mkdir].
Qed.

Lemma raises_os_listdir order p : raises_only is_os_error (os_listdir order p).
Proof.
  intros w w' e. unfold os_listdir.
  destruct (resolve w p) as [k|e'] eqn:Hr; [|intros [= _ <-]; by eapply resolve_raises].
  destruct (is_dir_at (files w) k); [done|].
  destruct (exists_at (files w) k); by intros [= _ <-].
Qed.

Lemma for_each_raise {A} (l : list A) body w w' e :
  for_each l body w = (w', Raise e) ->
  exists x w1, In x l /\ body x w1 = (w', Raise e).
Proof.
  revert w. induction l as [|x l IH]; intros w; [done|]. cbn [for_each].
  intros [(w1 & [] & _ & H)|(e' & H & [= ->])]%bind_inv.
  - destruct (IH _ H) as (y & w2 & Hy & Hb). exists y, w2. split; [by right|done].
  - exists x, w. split; [by left|done].
Qed.

Section Exceptions.
Context (E : Env).

Lemma raises_encrypt P K d : raises_only P (encrypt E K d).
Proof. by intros w w' e. Qed.

Lemma raises_copier_et_chiffrer K src dst :
  raises_only is_os_error (copier_et_chiffrer E K src dst).
Proof.
  unfold copier_et_chiffrer. apply raises_only_bind; [apply raises_shutil_copy|]. intros _.
  apply raises_only_bind; [apply raises_read_file|]. intros d.
  apply raises_only_bind; [apply raises_encrypt|]. intros c. apply raises_write_file.
Qed.

Lemma raises_traiter_source K src dst :
  raises_only is_os_error (traiter_source E K src dst).
Proof.
  unfold traiter_source. apply raises_only_bind; [apply raises_only_query|]. intros [|].
  - apply raises_only_bind; [apply raises_only_query|]. intros b.
    apply raises_only_bind.
    { destruct b; [apply raises_only_ret|apply raises_makedirs_fuel]. }
    intros _. apply raises_only_bind; [apply raises_os_listdir|]. intros l.
    apply raises_only_bind; [|intros _; apply raises_only_ret].
    apply raises_only_for_each. intros f. apply raises_copier_et_chiffrer.
  - apply raises_only_bind; [apply raises_only_query|]. intros [|]; [|apply raises_only_ret].
    apply raises_only_bind.
    { destruct dst as [d|]; [|apply raises_only_ret].
      apply raises_only_bind; [apply raises_only_query|]. intros b.
      apply raises_only_bind; [|intros _; apply raises_only_ret].
      destruct b; [apply raises_only_ret|apply raises_makedirs_fuel]. }
    intros d. apply raises_only_bind; [apply raises_copier_et_chiffrer|].
    intros _. apply raises_only_ret.
Qed.

(** The source was not processed: it is neither a directory nor a file, and
    no destination was given. *)
Lemma traiter_source_None K src dst w w1 :
  traiter_source E K src dst w = (w1, Ok None) ->
  w1 = w /\ dst = None /\ os_path_isdir w src = false /\ os_path_isfile w src = false.
Proof.
  unfold traiter_source, isdir, isfile. rewrite bind_query.
  destruct (os_path_isdir w src).
  { intros [(w2 & b & _ & H)|(e & _ & [=])]%bind_inv.
    apply bind_inv in H as [(w3 & [] & _ & H)|(e & _ & [=])].
    apply bind_inv in H as [(w4 & l & _ & H)|(e & _ & [=])].
    apply bind_inv in H as [(w5 & [] & _ & H)|(e & _ & [=])]. done. }
  rewrite bind_query. destruct (os_path_isfile w src).
  { intros [(w2 & d & _ & H)|(e & _ & [=])]%bind_inv.
    apply bind_inv in H as [(w3 & [] & _ & H)|(e & _ & [=])]. done. }
  by intros [= <- ->].
Qed.

Lemma Fernet_raises cle w w' e :
  Fernet E cle w = (w', Raise e) ->
  w' = w /\ e = ValueError /\ fernet_valid_key E cle = false.
Proof. unfold Fernet. destruct (fernet_valid_key E cle); by intros [= <- <-]. Qed.

Lemma dechiffrer_un_raises K p out w w' e :
  dechiffrer_un E K p out w = (w', Raise e) ->
  (e = InvalidToken /\ w' = w /\
   exists c, read_file p w = (w, Ok c) /\ fernet_decrypt E K c = None) \/
  is_os_error e.
Proof.
  unfold dechiffrer_un.
  intros [(w1 & c & Hr & H)|(e' & H & [= ->])]%bind_inv;
    [|right; by eapply raises_read_file].
  pose proof (read_file_state _ _ _ _ Hr) as ->.
  apply bind_inv in H as [(w2 & d & Hd & H)|(e' & H & [= ->])].
  - right. apply bind_inv in H as [(w3 & [] & _ & H)|(e' & H & [= ->])].
    + by eapply raises_os_remove.
    + by eapply raises_write_file.
  - left. unfold decrypt in H. destruct (fernet_decrypt E K c) eqn:Hdec; [done|].
    injection H as <- <-. eauto.
Qed.

End Exceptions.

Section Taxonomy.
Context (E : Env) (Hgen : generate_key_valid E) (stdout_encodes : string -> bool).

(** The exceptions of the calls to the file system and to the cipher: of
    the backup without its prints. *)
Lemma backup_calls_raise src dst kp ks w w' e :
  sauvegarder_et_chiffrer E src dst kp ks w = (w', Raise e) ->
  (e = ValueError /\ w' = w /\ exists c, ks = Some c /\ fernet_valid_key E c = false) \/
  (e = TypeError /\ files w' = files w /\ dst = None /\ kp = None /\ ks = None /\
   os_path_isdir w src = false /\ os_path_isfile w src = false) \/
  os_error e = true.
Proof.
  unfold sauvegarder_et_chiffrer.
  destruct (choisir_cle_spec E ks w) as (cle & w0 & Hc & Hf0 & Hc0 & Hcle).
  rewrite (bind_ok _ _ _ _ _ Hc).
  intros [(w1 & K & HK & H)|(e' & HK & [= ->])]%bind_inv.
  - destruct (Fernet_inv E _ _ _ _ HK) as [-> _].
    apply bind_inv in H as [(w2 & d & Ht & H)|(e' & Ht & [= ->])].
    + destruct kp as [p|], ks as [c|]; cbn in H.
      * right; right. by eapply raises_write_file.
      * right; right. by eapply raises_write_file.
      * done.
      * destruct d as [d|].
        { right; right. by eapply raises_write_file. }
        injection H as <- <-. right; left.
        apply traiter_source_None in Ht as (-> & -> & Hd & Hf).
        rewrite (isdir_ext w w0), (isfile_ext w w0) in * by done. done.
    + right; right. by eapply raises_traiter_source.
  - apply Fernet_raises in HK as (-> & -> & Hv). left. split; [done|].
    destruct ks as [c|].
    + cbn in Hc. injection Hc as <- <-. eauto.
    + subst cle. by rewrite Hgen in Hv.
Qed.

(** The same for the restore. *)
Lemma restore_calls_raise v kp w w' e :
  dechiffrer_fichiers E v kp w = (w', Raise e) ->
  (e = ValueError /\ w' = w /\
   exists K, read_file (chemin_cle_lue v kp) w = (w, Ok K) /\
             fernet_valid_key E K = false) \/
  (e = InvalidToken /\
   exists K p c, read_file (chemin_cle_lue v kp) w = (w, Ok K) /\
     fernet_valid_key E K = true /\
     (p = v \/ exists f, f <> "cle.key" /\ p = os_path_join v f) /\
     read_file p w' = (w', Ok c) /\ fernet_decrypt E K c = None) \/
  os_error e = true.
Proof.
  unfold dechiffrer_fichiers. fold (chemin_cle_lue v kp). intros H.
  apply bind_inv in H as [(w1 & K & Hk & H)|(e' & Hk & [= ->])];
    [|right; right; by eapply raises_read_file].
  pose proof (read_file_state _ _ _ _ Hk) as ->.
  apply bind_inv in H as [(w1 & K' & HK & H)|(e' & HK & [= ->])].
  2:{ apply Fernet_raises in HK as (-> & -> & Hv). left. eauto. }
  assert (fernet_valid_key E K = true) as Hvalid.
  { unfold Fernet in HK. by destruct (fernet_valid_key E K). }
  destruct (Fernet_inv E _ _ _ _ HK) as [-> [[= ->]|[=]]].
  unfold isdir, isfile in H. rewrite bind_query in H.
  destruct (os_path_isdir w v) eqn:Hd.
  - apply bind_inv in H as [(w1 & l & Hl & H)|(e' & Hl & [= ->])];
      [|right; right; by eapply raises_os_listdir].
    apply for_each_raise in H as (f & w2 & Hin & Hf).
    unfold dechiffrer_entree in Hf.
    destruct (bool_decide_reflect (f = "cle.key")) as [|Hne]; [done|].
    apply dechiffrer_un_raises in Hf as [(-> & -> & c & Hr & Hdec)|Hos]; [|by right; right].
    right; left. split; [done|]. exists K, (os_path_join v f), c.
    split; [done|]. split; [done|]. split; [|done]. right. by exists f.
  - rewrite bind_query in H. destruct (os_path_isfile w v); [|done].
    apply dechiffrer_un_raises in H as [(-> & -> & c & Hr & Hdec)|Hos]; [|by right; right].
    right; left. split; [done|]. exists K, v, c. auto.
Qed.

(** *** The prints *)

Lemma print_inv s w w' r :
  Console.print stdout_encodes s w = (w', r) ->
  w' = w /\ (r = Ok tt \/ r = Raise UnicodeEncodeError).
Proof. unfold Console.print. destruct (stdout_encodes s); intros [= <- <-]; auto. Qed.

Lemma console_enregistrer_cle_inv cle d kp ks w w' r :
  Console.enregistrer_cle stdout_encodes cle d kp ks w = (w', r) ->
  enregistrer_cle cle d kp ks w = (w', r) \/
  (r = Raise UnicodeEncodeError /\ enregistrer_cle cle d kp ks w = (w', Ok tt)).
Proof.
  assert (forall p s,
    (write_file p cle ;; Console.print stdout_encodes s) w = (w', r) ->
    write_file p cle w = (w', r) \/
    (r = Raise UnicodeEncodeError /\ write_file p cle w = (w', Ok tt))) as Hstep.
  { intros p s [(w1 & [] & Hw & Hp)|(e & Hw & ->)]%bind_inv; [|by left].
    apply print_inv in Hp as [-> [-> | ->]]; [by left|by right]. }
  destruct kp as [p|], ks as [c|]; cbn; try apply Hstep.
  - by left.
  - destruct d as [d|]; [apply Hstep|by left].
Qed.

(** The prints come after the calls: a run with its prints ends as the
    run without them, or in the [UnicodeEncodeError] of a print, in the
    state in which the run without them returned. *)
Lemma console_backup_inv src dst kp ks w w' r :
  Console.sauvegarder_et_chiffrer E stdout_encodes src dst kp ks w = (w', r) ->
  sauvegarder_et_chiffrer E src dst kp ks w = (w', r) \/
  (r = Raise UnicodeEncodeError /\
   sauvegarder_et_chiffrer E src dst kp ks w = (w', Ok tt)).
Proof.
  unfold Console.sauvegarder_et_chiffrer, sauvegarder_et_chiffrer. intros H.
  apply bind_inv in H as [(w0 & cle & Hc & H)|(e & Hc & ->)]; [|left; by apply bind_raise].
  rewrite (bind_ok _ _ _ _ _ Hc).
  apply bind_inv in H as [(w1 & K & HK & H)|(e & HK & ->)]; [|left; by apply bind_raise].
  rewrite (bind_ok _ _ _ _ _ HK).
  apply bind_inv in H as [(w2 & d & Ht & H)|(e & Ht & ->)]; [|left; by apply bind_raise].
  rewrite (bind_ok _ _ _ _ _ Ht).
  apply bind_inv in H as [(w3 & [] & Hk & Hp)|(e & Hk & ->)].
  - apply console_enregistrer_cle_inv in Hk as [Hk|[[=] _]].
    apply print_inv in Hp as [-> [-> | ->]]; [by left|by right].
  - apply console_enregistrer_cle_inv in Hk as [Hk|[[= ->] Hk]]; [by left|by right].
Qed.

Lemma console_restore_inv v kp w w' r :
  Console.dechiffrer_fichiers E stdout_encodes v kp w = (w', r) ->
  dechiffrer_fichiers E v kp w = (w', r) \/
  (r = Raise UnicodeEncodeError /\ dechiffrer_fichiers E v kp w = (w', Ok tt)).
Proof.
  unfold Console.dechiffrer_fichiers.
  intros [(w1 & [] & Hrun & Hp)|(e & Hrun & ->)]%bind_inv; [|by left].
  apply print_inv in Hp as [-> [-> | ->]]; [by left|by right].
Qed.


(** X2.  The exceptions a restore can end in, its print included.
    [ValueError]: the key file was read and does not hold a Fernet key;
    nothing was touched.  [InvalidToken]: the key file holds a Fernet key
    and an entry, the path given or an entry of the directory other than
    [cle.key], was read and does not open under it; that entry is still
    there.  [UnicodeEncodeError]: the print of line 157, whose text the
    console does not encode; every call to the file system had returned,
    and the state is the one of the finished restore.  Every other
    exception is an [OSError] of a call to the system.  A restore never
    ends in [TypeError]. *)
Theorem restore_raises v kp w w' e :
  Console.dechiffrer_fichiers E stdout_encodes v kp w = (w', Raise e) ->
  (e = ValueError /\ w' = w /\
   exists K, read_file (chemin_cle_lue v kp) w = (w, Ok K) /\
             fernet_valid_key E K = false) \/
  (e = InvalidToken /\
   exists K p c, read_file (chemin_cle_lue v kp) w = (w, Ok K) /\
     fernet_valid_key E K = true /\
     (p = v \/ exists f, f <> "cle.key" /\ p = os_path_join v f) /\
     read_file p w' = (w', Ok c) /\ fernet_decrypt E K c = None) \/
  (e = UnicodeEncodeError /\ dechiffrer_fichiers E v kp w = (w', Ok tt)) \/
  os_error e = true.
Proof.
  intros [H|[[= ->] H]]%console_restore_inv; [|by right; right; left].
  destruct (restore_calls_raise _ _ _ _ _ H) as [H1|[H2|H3]]; auto.
Qed.

End Taxonomy.

(** ** The backup loses nothing *)

Lemma nothing_lost_refl w : nothing_lost w w.
Proof. split; [done|]. intros k. destruct (files w !! k) as [[d|]|]; eauto. Qed.

Lemma nothing_lost_trans w1 w2 w3 :
  nothing_lost w1 w2 -> nothing_lost w2 w3 -> nothing_lost w1 w3.
Proof.
  intros [Hc1 H1] [Hc2 H2]. split; [congruence|]. intros k.
  specialize (H1 k). specialize (H2 k).
  destruct (files w1 !! k) as [[d|]|]; [|by rewrite H1 in H2|done].
  destruct H1 as [d' H1]. by rewrite H1 in H2.
Qed.

Lemma nothing_lost_insert_file w k d :
  is_dir_at (files w) k = false ->
  nothing_lost w (set_files w (<[k := File d]> (files w))).
Proof.
  intros Hd. split; [done|]. intros k'. cbn.
  destruct (decide (k = k')) as [<-|Hne].
  - rewrite lookup_insert_eq. destruct k as [|c k]; [done|].
    unfold is_dir_at in Hd. destruct (files w !! (c :: k)) as [[d'|]|]; eauto. done.
  - rewrite lookup_insert_ne by done. destruct (files w !! k') as [[d'|]|]; eauto.
Qed.

Lemma nothing_lost_insert_dir w k :
  exists_at (files w) k = false ->
  nothing_lost w (set_files w (<[k := Dir]> (files w))).
Proof.
  intros Hd. split; [done|]. intros k'. cbn.
  destruct (decide (k = k')) as [<-|Hne].
  - rewrite lookup_insert_eq. destruct k as [|c k]; [done|].
    unfold exists_at in Hd. by destruct (files w !! (c :: k)) as [[d'|]|].
  - rewrite lookup_insert_ne by done. destruct (files w !! k') as [[d'|]|]; eauto.
Qed.

Lemma keeps_lost_write_file w0 p d : keeps (nothing_lost w0) (write_file p d).
Proof.
  intros w w' r H Hw. apply write_file_inv in Hw as [[-> _]|(k & _ & Hd & -> & _)]; [done|].
  eapply nothing_lost_trans; [exact H|]. by apply nothing_lost_insert_file.
Qed.

Lemma keeps_lost_os_mkdir w0 p : keeps (nothing_lost w0) (os_mkdir p).
Proof.
  intros w w' r H. unfold os_mkdir.
  destruct (resolve w _) as [k|e]; [|by intros [= <- <-]].
  destruct (exists_at (files w) k) eqn:Hex; intros [= <- <-]; [done|].
  eapply nothing_lost_trans; [exact H|]. by apply nothing_lost_insert_dir.
Qed.

Lemma keeps_lost_makedirs_fuel w0 n name : keeps (nothing_lost w0) (makedirs_fuel n name).
Proof.
  revert name. induction n as [|n IH]; intros name; cbn [makedirs_fuel].
  - destruct (os_path_split name) as [h t].
    destruct (if bool_decide (t = "") then os_path_split h else (h, t)) as [h' t'].
    apply keeps_bind; [apply keeps_query|]. intros b.
    destruct (_ && _); apply keeps_lost_os_mkdir.
  - destruct (os_path_split name) as [h t].
    destruct (if bool_decide (t = "") then os_path_split h else (h, t)) as [h' t'].
    apply keeps_bind; [apply keeps_query|]. intros b.
    destruct (_ && _); [|apply keeps_lost_os_mkdir].
    apply keeps_bind.
    + intros w w' r H. destruct (makedirs_fuel n h' w) as [w1 [a|e]] eqn:Hm.
      * intros [= <- <-]. by eapply IH.
      * destruct e; intros [= <- <-]; by eapply IH.
    + intros _. destruct (bool_decide (t' = ".")); [apply keeps_ret|apply keeps_lost_os_mkdir].
Qed.

Lemma keeps_lost_draw w0 : keeps (nothing_lost w0) draw.
Proof. intros w w' r [H1 H2] [= <- <-]. by split. Qed.

Section Lost.
Context (E : Env).

Lemma keeps_lost_copier_et_chiffrer w0 K src dst :
  keeps (nothing_lost w0) (copier_et_chiffrer E K src dst).
Proof.
  unfold copier_et_chiffrer, shutil_copy.
  apply keeps_bind.
  { apply keeps_bind; [apply keeps_query|]. intros b.
    apply keeps_bind; [apply keeps_query|]. intros [|]; [apply keeps_raise|].
    apply keeps_bind; [apply keeps_read_file|]. intros d. apply keeps_lost_write_file. }
  intros _. apply keeps_bind; [apply keeps_read_file|]. intros d.
  apply keeps_bind; [|intros c; apply keeps_lost_write_file].
  unfold encrypt. apply keeps_bind; [apply keeps_lost_draw|]. intros n. apply keeps_ret.
Qed.

Lemma keeps_lost_traiter_source w0 K src dst :
  keeps (nothing_lost w0) (traiter_source E K src dst).
Proof.
  unfold traiter_source. apply keeps_bind; [apply keeps_query|]. intros [|].
  - apply keeps_bind; [apply keeps_query|]. intros b.
    apply keeps_bind.
    { destruct b; [apply keeps_ret|apply keeps_lost_makedirs_fuel]. }
    intros _. apply keeps_bind.
    { intros w w' r H Hl. unfold os_listdir in Hl.
      destruct (resolve w src) as [k|e]; [|by injection Hl as <- _].
      destruct (is_dir_at (files w) k); [by injection Hl as <- _|].
      destruct (exists_at (files w) k); by injection Hl as <- _. }
    intros l. apply keeps_bind; [|intros _; apply keeps_ret].
    apply keeps_for_each. intros f _. apply keeps_lost_copier_et_chiffrer.
  - apply keeps_bind; [apply keeps_query|]. intros [|]; [|apply keeps_ret].
    apply keeps_bind.
    { destruct dst as [d|]; [|apply keeps_ret].
      apply keeps_bind; [apply keeps_query|]. intros b.
      apply keeps_bind; [|intros _; apply keeps_ret].
      destruct b; [apply keeps_ret|apply keeps_lost_makedirs_fuel]. }
    intros d. apply keeps_bind; [apply keeps_lost_copier_et_chiffrer|].
    intros _. apply keeps_ret.
Qed.

(** X3.  A backup removes nothing, whether it returns or raises: the
    working directory is the same, every directory is still a directory and
    every file is still a file (its contents may have been written over by
    the copy or by the key). *)
Theorem backup_loses_nothing src dst kp ks w w' r :
  sauvegarder_et_chiffrer E src dst kp ks w = (w', r) -> nothing_lost w w'.
Proof.
  revert w w' r. 
  assert (forall w0, keeps (nothing_lost w0) (sauvegarder_et_chiffrer E src dst kp ks)) as H.
  { intros w0. unfold sauvegarder_et_chiffrer. apply keeps_bind.
    { destruct ks; [apply keeps_ret|]. cbn. unfold Fernet_generate_key.
      apply keeps_bind; [apply keeps_lost_draw|]. intros n. apply keeps_ret. }
    intros cle. apply keeps_bind.
    { unfold Fernet. destruct (fernet_valid_key E cle); [apply keeps_ret|apply keeps_raise]. }
    intros K. apply keeps_bind; [apply keeps_lost_traiter_source|]. intros d.
    destruct kp as [p|], ks as [c|]; cbn; try apply keeps_lost_write_file; [apply keeps_ret|].
    destruct d; [apply keeps_lost_write_file|apply keeps_raise]. }
  intros w w' r Hr. eapply H; [apply nothing_lost_refl|exact Hr].
Qed.

End Lost.

(** ** More on paths *)

(** [os.path.join] with a name without slash, below a directory: the name is
    looked up in the directory, [.] and [..] included. *)
Lemma resolve_join_sepfree w a g ka :
  resolve w a = Ok ka -> is_dir_at (files w) ka = true -> has_sep g = false ->
  resolve w (os_path_join a g) = walk (files w) ka [g].
Proof.
  intros Hr Hd Hsep. unfold resolve in *.
  destruct (bool_decide_reflect (a = "")) as [->|Ha]; [done|].
  unfold os_path_join.
  destruct (startswith g "/") eqn:Hs.
  { apply startswith_sep_has_sep in Hs. congruence. }
  rewrite (bool_decide_eq_false_2 (a = "")) by done. cbn [orb].
  destruct (endswith_sep a) eqn:He.
  - rewrite bool_decide_eq_false_2 by (intros [? ?]%str_app_eq_nil; done).
    rewrite startswith_sep_app by done.
    rewrite split_sep_app_nosep by done.
    rewrite (endswith_sep_last_comp _ He), str_app_nil_l.
    rewrite split_sep_init_last, (endswith_sep_last_comp _ He) in Hr.
    apply walk_last_ok in Hr as (k0 & Hw & Hd0 & Hlast).
    rewrite walk_dot in Hlast by done. simplify_eq.
    by rewrite walk_app, Hw.
  - rewrite bool_decide_eq_false_2 by (intros [? ?]%str_app_eq_nil; done).
    rewrite startswith_sep_app by done.
    change (a +:+ "/" +:+ g) with (a +:+ String sep g).
    rewrite split_sep_app_sep, walk_app, Hr.
    by rewrite split_sep_nosep by done.
Qed.

(** Below a directory, a name without slash that does not resolve to a
    directory resolves to the entry of that name. *)
Lemma resolve_join_entry w a g ka k :
  resolve w a = Ok ka -> is_dir_at (files w) ka = true ->
  is_dir_at (files w) (removelast ka) = true -> has_sep g = false ->
  resolve w (os_path_join a g) = Ok k -> is_dir_at (files w) k = false ->
  k = ka ++ [g].
Proof.
  intros Hr Hd Hp Hsep. rewrite (resolve_join_sepfree _ _ _ _ Hr Hd Hsep). cbn.
  rewrite Hd. destruct (is_dot g); [intros [= <-]; congruence|].
  destruct (is_dotdot g); [intros [= <-]; congruence|]. by intros [= <-].
Qed.

Lemma has_sep_replace_from old skip s :
  has_sep s = false -> has_sep (replace_from old "" skip s) = false.
Proof.
  revert skip. induction s as [|c s IH]; intros skip; [done|]. cbn.
  intros [Hc Hs]%orb_false_iff. destruct skip as [|skip]; [|by apply IH].
  destruct (startswith (String c s) old).
  - rewrite str_app_nil_l. by apply IH.
  - cbn. by rewrite Hc, IH.
Qed.

Lemma has_sep_str_replace s :
  has_sep s = false -> has_sep (str_replace s ".encrypted" "") = false.
Proof. apply has_sep_replace_from. Qed.

(** ** The restore: the key, then the vault *)

Lemma read_file_not_a_file p w :
  os_path_isfile w p = false ->
  exists e, read_file p w = (w, Raise e) /\ os_error e = true.
Proof.
  unfold os_path_isfile, read_file.
  destruct (resolve w p) as [k|e] eqn:Hr; [|intros _; exists e; split; [done|by eapply resolve_raises]].
  destruct (is_dir_at (files w) k); [by exists IsADirectoryError|].
  destruct (files w !! k) as [[d|]|]; [done|..]; by exists FileNotFoundError.
Qed.

Section Restore.
Context (E : Env) (Hgen : generate_key_valid E) (Hopens : decrypt_encrypt E)
  (Hperm : listdir_order_perm E).

(** X4.  The restore reads its key first (lines 112-119).  When the key
    path, the one given or [cle.key] in [os.path.dirname] of the vault,
    is not a file, the run ends in an [OSError]; when the file does not
    hold a Fernet key, it ends in [ValueError].  In both cases the file
    system is as it was: no entry was read, written or removed. *)
Theorem restore_needs_its_key v kp w :
  (os_path_isfile w (chemin_cle_lue v kp) = false ->
   exists e, dechiffrer_fichiers E v kp w = (w, Raise e) /\ os_error e = true) /\
  (forall K, read_file (chemin_cle_lue v kp) w = (w, Ok K) ->
     fernet_valid_key E K = false ->
     dechiffrer_fichiers E v kp w = (w, Raise ValueError)).
Proof.
  split.
  - intros (e & Hr & He)%read_file_not_a_file. exists e. split; [|done].
    unfold dechiffrer_fichiers. fold (chemin_cle_lue v kp). by apply bind_raise.
  - intros K Hr HK. unfold dechiffrer_fichiers. fold (chemin_cle_lue v kp).
    rewrite (bind_ok _ _ _ _ _ Hr). apply bind_raise. unfold Fernet. by rewrite HK.
Qed.

(** X5.  A vault path that is neither a directory nor a file: as for the
    backup, the restore has no check of its own.  Once the key is read and
    accepted, the run returns successfully and has done nothing. *)
Theorem restore_of_nothing_succeeds v kp w K :
  read_file (chemin_cle_lue v kp) w = (w, Ok K) ->
  fernet_valid_key E K = true ->
  os_path_isdir w v = false ->
  os_path_isfile w v = false ->
  dechiffrer_fichiers E v kp w = (w, Ok tt).
Proof.
  intros Hr HK Hd Hf. unfold dechiffrer_fichiers. fold (chemin_cle_lue v kp).
  rewrite (bind_ok _ _ _ _ _ Hr), (bind_ok _ _ _ _ _ (Fernet_ok E K w HK)).
  unfold isdir, isfile. by rewrite bind_query, Hd, bind_query, Hf.
Qed.

(** A directory among the entries of the vault *)
Lemma dechiffrer_entree_dir K v f w :
  f <> "cle.key" -> os_path_isdir w (os_path_join v f) = true ->
  dechiffrer_entree E K v f w = (w, Raise IsADirectoryError).
Proof.
  intros Hf (k & Hr & Hd)%isdir_inv. unfold dechiffrer_entree, dechiffrer_un.
  rewrite bool_decide_eq_false_2 by done.
  by rewrite (bind_raise _ _ _ _ _ (read_file_dir _ _ _ Hr Hd)).
Qed.

Lemma restore_batch_with_dir_fails K v l f w w' r :
  In f l -> f <> "cle.key" -> os_path_isdir w (os_path_join v f) = true ->
  for_each l (dechiffrer_entree E K v) w = (w', r) ->
  exists e, r = Raise e.
Proof.
  intros Hin Hf Hd. revert w Hd. induction l as [|x l IH]; intros w Hd; [done|].
  cbn [for_each]. unfold bind.
  destruct (dechiffrer_entree E K v x w) as [w1 [[]|e]] eqn:Hx.
  - destruct Hin as [->|Hin].
    + rewrite (dechiffrer_entree_dir K v f w Hf Hd) in Hx. done.
    + apply IH; [done|]. eapply isdir_dirs_eqw; [|exact Hd].
      assert (keeps (same_dirs_as w) (dechiffrer_entree E K v x)) as Hk.
      { unfold dechiffrer_entree. destruct (bool_decide (x = "cle.key"));
          [apply keeps_ret|apply keeps_dirs_dechiffrer_un]. }
      eapply Hk; [apply dirs_eqw_refl|exact Hx].
  - intros [= <- <-]. eauto.
Qed.

(** X6.  A sub-directory in the vault (any entry but one named [cle.key])
    aborts the restore: the run raises, and in the loop the entries
    before it have been restored when [open] raises [IsADirectoryError] on
    it; the entries after it are not processed. *)
Theorem vault_subdirectory_aborts_restore v kp f w :
  os_path_isdir w v = true ->
  valid_name f = true ->
  f <> "cle.key" ->
  os_path_isdir w (os_path_join v f) = true ->
  (exists w' e, dechiffrer_fichiers E v kp w = (w', Raise e)) /\
  (forall K l1 l2 wa wb,
     dirs_eqw w wa ->
     for_each l1 (dechiffrer_entree E K v) wa = (wb, Ok tt) ->
     for_each (l1 ++ f :: l2) (dechiffrer_entree E K v) wa = (wb, Raise IsADirectoryError)).
Proof.
  intros Hv Hf Hne Hchild. split.
  - destruct (dechiffrer_fichiers E v kp w) as [w' r] eqn:Hrun. exists w'.
    unfold dechiffrer_fichiers in Hrun.
    apply bind_inv in Hrun as [(w1 & K & Hk & Hrun)|(e & _ & ->)]; [|eauto].
    pose proof (read_file_state _ _ _ _ Hk) as ->.
    apply bind_inv in Hrun as [(w1 & K' & HK & Hrun)|(e & _ & ->)]; [|eauto].
    destruct (Fernet_inv E _ _ _ _ HK) as [-> _].
    unfold isdir in Hrun. rewrite bind_query, Hv in Hrun.
    apply isdir_inv in Hv as (kv & Hrv & Hdv).
    rewrite (bind_ok _ _ _ _ _ (os_listdir_dir _ _ _ _ Hrv Hdv)) in Hrun.
    eapply restore_batch_with_dir_fails in Hrun as [e ->]; [eauto| |done|done].
    apply list_elem_of_In, (listdir_order_elem E Hperm), elem_of_entries.
    pose proof (resolve_join _ _ _ _ Hrv Hdv Hf) as Hrc.
    apply isdir_inv in Hchild as (kc & Hrc' & Hdc). rewrite Hrc in Hrc'. injection Hrc' as <-.
    unfold is_dir_at in Hdc. destruct (kv ++ [f]) eqn:Ek; [by destruct kv|].
    destruct (files w !! (s :: l)); [eauto|done].
  - intros K l1 l2 wa wb He Hl1. rewrite for_each_app, Hl1. cbn [for_each].
    apply bind_raise. apply dechiffrer_entree_dir; [done|].
    eapply isdir_dirs_eqw; [|exact Hchild].
    eapply dirs_eqw_trans; [exact He|].
    eapply (keeps_for_each (same_dirs_as wa)); [|apply dirs_eqw_refl|exact Hl1].
    intros x _. unfold dechiffrer_entree. destruct (bool_decide (x = "cle.key"));
      [apply keeps_ret|apply keeps_dirs_dechiffrer_un].
Qed.

(** *** The restore of a vault directory stays in it *)

Lemma same_outside_refl kv w : same_outside kv w w.
Proof. split; [apply dirs_eqw_refl|]. by split. Qed.

Lemma same_outside_trans kv w1 w2 w3 :
  same_outside kv w1 w2 -> same_outside kv w2 w3 -> same_outside kv w1 w3.
Proof.
  intros (Hd1 & He1 & H1) (Hd2 & He2 & H2). split; [by eapply dirs_eqw_trans|].
  split; [congruence|]. intros k Hk. by rewrite H2, H1.
Qed.

Lemma keeps_outside_dechiffrer_entree w0 v kv K f :
  resolve w0 v = Ok kv -> is_dir_at (files w0) kv = true ->
  is_dir_at (files w0) (removelast kv) = true ->
  valid_name f = true ->
  keeps (same_outside kv w0) (dechiffrer_entree E K v f).
Proof.
  intros Hrv Hdv Hpv Hf. unfold dechiffrer_entree.
  destruct (bool_decide (f = "cle.key")); [apply keeps_ret|].
  unfold dechiffrer_un. apply keeps_bind; [apply keeps_read_file|]. intros c.
  apply keeps_bind; [apply keeps_decrypt|]. intros d.
  apply keeps_bind.
  - intros w w' r Hinv Hw.
    apply write_file_inv in Hw as [[-> _]|(k & Hr & Hd & -> & _)]; [done|].
    eapply same_outside_trans; [exact Hinv|]. destruct Hinv as (Hde & _ & _).
    split; [by apply dirs_eqw_insert_file|]. split; [done|]. intros k' Hk'. cbn.
    apply lookup_insert_ne. intros <-. apply (Hk' (str_replace f ".encrypted" "")).
    destruct Hde as [Hde Hcwd].
    eapply (resolve_join_entry w v); [by eapply resolve_dirs_eq| | | |exact Hr|done].
    + by rewrite <- Hde.
    + by rewrite <- Hde.
    + apply has_sep_str_replace. by apply valid_name_sep.
  - intros _ w w' r Hinv Hw.
    apply os_remove_inv in Hw as [[-> _]|(k & Hr & Hd & -> & _)]; [done|].
    eapply same_outside_trans; [exact Hinv|]. destruct Hinv as (Hde & _ & _).
    split; [by apply dirs_eqw_delete_file|]. split; [done|]. intros k' Hk'. cbn.
    apply lookup_delete_ne. intros <-. apply (Hk' f).
    destruct Hde as [Hde Hcwd].
    rewrite (resolve_join w v f kv) in Hr; [by injection Hr|..|done].
    + by eapply resolve_dirs_eq.
    + by rewrite <- Hde.
Qed.

(** X7.  The restore of a vault directory stays in it, whether it returns
    or raises: the directories, the working directory and the random
    source are the same, and every path that is not an entry of the vault
    directory itself, among them the key file beside it, holds what it
    held. *)
Theorem restore_stays_in_vault v kp w kv w' r :
  well_formed (files w) = true ->
  resolve w v = Ok kv ->
  is_dir_at (files w) kv = true ->
  dechiffrer_fichiers E v kp w = (w', r) ->
  same_outside kv w w'.
Proof.
  intros Hwf Hrv Hdv Hrun. unfold dechiffrer_fichiers in Hrun.
  apply bind_inv in Hrun as [(w1 & K & Hk & Hrun)|(e & Hk & _)];
    [|rewrite (read_file_state _ _ _ _ Hk); apply same_outside_refl].
  pose proof (read_file_state _ _ _ _ Hk) as ->.
  apply bind_inv in Hrun as [(w1 & K' & HK & Hrun)|(e & HK & _)];
    [|destruct (Fernet_inv E _ _ _ _ HK) as [-> _]; apply same_outside_refl].
  destruct (Fernet_inv E _ _ _ _ HK) as [-> _].
  unfold isdir in Hrun. rewrite bind_query, (isdir_resolved _ _ _ Hrv), Hdv in Hrun.
  rewrite (bind_ok _ _ _ _ _ (os_listdir_dir _ _ _ _ Hrv Hdv)) in Hrun.
  eapply keeps_for_each; [|apply same_outside_refl|exact Hrun].
  intros f Hin. apply keeps_outside_dechiffrer_entree; [done..| |].
  - by apply well_formed_parent.
  - eapply entries_valid; [exact Hwf|].
    eapply listdir_order_elem; [exact Hperm|]. by apply list_elem_of_In.
Qed.

End Restore.

(** ** A path that ends in a plain name *)

Lemma os_path_basename_last_comp p : os_path_basename p = last_comp p.
Proof.
  unfold os_path_basename, os_path_split.
  destruct (cut_last_sep p) as [h t] eqn:Hc.
  apply cut_last_sep_spec in Hc as (-> & Ht & Hh).
  assert (last_comp (h +:+ t) = t) as ->.
  { unfold last_comp at 1. rewrite split_sep_app_nosep by done.
    rewrite last_last. destruct Hh as [->|Hh]; [done|].
    by rewrite (endswith_sep_last_comp _ Hh). }
  by destruct (rstrip_sep h).
Qed.

Lemma os_path_split_eq p : os_path_split p = (os_path_dirname p, last_comp p).
Proof.
  rewrite <- os_path_basename_last_comp. unfold os_path_dirname, os_path_basename.
  by destruct (os_path_split p).
Qed.

Lemma rstrip_sep_id p : endswith_sep p = false -> rstrip_sep p = p.
Proof.
  induction p as [|c p IH]; [done|]. cbn [endswith_sep rstrip_sep].
  destruct p as [|c' p'].
  - cbn. by intros ->.
  - intros H. by rewrite (IH H).
Qed.

Lemma valid_last_comp_no_slash p :
  valid_name (last_comp p) = true -> endswith_sep p = false.
Proof.
  intros Hv. destruct (endswith_sep p) eqn:He; [|done].
  rewrite (endswith_sep_last_comp _ He) in Hv. done.
Qed.

Lemma valid_last_comp_nonempty p : valid_name (last_comp p) = true -> p <> "".
Proof. by intros Hv ->. Qed.

(** The path resolves to the entry [last_comp p] of a directory. *)
Lemma resolve_plain w p k :
  resolve w p = Ok k -> valid_name (last_comp p) = true ->
  exists k0, k = k0 ++ [last_comp p] /\ is_dir_at (files w) k0 = true /\
    walk (files w) (if startswith p "/" then [] else cwd w) (init_comps p) = Ok k0.
Proof.
  intros Hr Hv. unfold resolve in Hr.
  destruct (bool_decide_reflect (p = "")) as [->|Hd]; [done|].
  rewrite split_sep_init_last in Hr.
  apply walk_last_ok in Hr as (k0 & Hw & Hd0 & Hlast).
  rewrite walk_name in Hlast;
    [|done|by apply valid_name_dot|by apply valid_name_dotdot].
  injection Hlast as <-. eauto.
Qed.

(** A suffix without slash changes the last component only. *)
Lemma resolve_plain_suffix w p k0 t :
  resolve w p = Ok (k0 ++ [last_comp p]) -> valid_name (last_comp p) = true ->
  has_sep t = false -> t <> "" ->
  resolve w (p +:+ t) = Ok (k0 ++ [last_comp p +:+ t]) /\
  last_comp (p +:+ t) = last_comp p +:+ t /\
  valid_name (last_comp p +:+ t) = true.
Proof.
  intros Hr Hv Ht Hne.
  destruct (resolve_plain _ _ _ Hr Hv) as (k0' & Hk & Hd & Hw).
  apply app_inj_tail in Hk as [<- _].
  pose proof (valid_last_comp_nonempty _ Hv) as Hp.
  destruct (valid_name_app _ t (valid_name_dot _ Hv) (valid_name_dotdot _ Hv) Hne) as [H1 H2].
  split; [|split].
  - unfold resolve. rewrite bool_decide_eq_false_2 by (intros [? ?]%str_app_eq_nil; done).
    rewrite startswith_sep_app by done.
    rewrite split_sep_app_nosep, walk_app, Hw by done. by apply walk_name.
  - unfold last_comp at 1. by rewrite split_sep_app_nosep, last_last by done.
  - unfold valid_name. rewrite H1, H2, has_sep_app, (valid_name_sep _ Hv), Ht. done.
Qed.

(** [os.path.dirname] of a path whose components but the last lead to a
    directory is empty or names that directory. *)
Lemma dirname_resolves w p k0 :
  p <> "" ->
  walk (files w) (if startswith p "/" then [] else cwd w) (init_comps p) = Ok k0 ->
  is_dir_at (files w) k0 = true ->
  os_path_dirname p = "" \/ resolve w (os_path_dirname p) = Ok k0.
Proof.
  intros Hp Hw Hd.
  destruct (bool_decide_reflect (os_path_dirname p = "")) as [|Hne]; [by left|right].
  pose proof (resolve_dirname_join w p (init_comps p) (last_comp p) k0 "x" Hp
    (split_sep_init_last p) Hw Hd eq_refl) as Hj.
  assert (startswith "x" "/" = false) as Hx by reflexivity.
  unfold os_path_join in Hj. rewrite Hx in Hj.
  rewrite (bool_decide_eq_false_2 (os_path_dirname p = "")) in Hj by done.
  cbn [orb] in Hj. set (h := os_path_dirname p) in *.
  unfold resolve in *. rewrite (bool_decide_eq_false_2 (h = "")) by done.
  destruct (endswith_sep h) eqn:He.
  - rewrite bool_decide_eq_false_2 in Hj by (intros [? ?]%str_app_eq_nil; done).
    rewrite startswith_sep_app in Hj by done.
    rewrite split_sep_app_nosep in Hj by done.
    rewrite (endswith_sep_last_comp _ He), str_app_nil_l in Hj.
    apply walk_last_ok in Hj as (k1 & Hw1 & Hd1 & Hl).
    rewrite walk_name in Hl by done. injection Hl as Hl. apply app_inj_tail in Hl as [-> _].
    rewrite split_sep_init_last, (endswith_sep_last_comp _ He), walk_app, Hw1.
    by apply walk_dot.
  - rewrite bool_decide_eq_false_2 in Hj by (intros [? ?]%str_app_eq_nil; done).
    rewrite startswith_sep_app in Hj by done.
    change (h +:+ "/" +:+ "x") with (h +:+ String sep "x") in Hj.
    rewrite split_sep_app_sep in Hj. change (split_sep "x") with ["x"] in Hj.
    apply walk_last_ok in Hj as (k1 & Hw1 & Hd1 & Hl).
    rewrite walk_name in Hl by done. injection Hl as Hl. apply app_inj_tail in Hl as [-> _].
    done.
Qed.

Lemma is_dir_exists m k : is_dir_at m k = true -> exists_at m k = true.
Proof. unfold is_dir_at, exists_at. destruct k; [done|]. by destruct (m !! _) as [[]|]. Qed.

(** ** [os.makedirs] of a directory whose parent exists *)

Lemma os_mkdir_ok p w k :
  resolve w p = Ok k -> endswith_sep p = false -> exists_at (files w) k = false ->
  os_mkdir p w = (set_files w (<[k := Dir]> (files w)), Ok tt).
Proof.
  intros Hr He Hx. unfold os_mkdir. rewrite (rstrip_sep_id _ He).
  destruct p as [|c p']; [done|]. by rewrite Hr, Hx.
Qed.

Lemma makedirs_parent_exists p w k :
  resolve w p = Ok k -> valid_name (last_comp p) = true ->
  os_makedirs p w = os_mkdir p w.
Proof.
  intros Hr Hv. destruct (resolve_plain _ _ _ Hr Hv) as (k0 & -> & Hd & Hw).
  pose proof (valid_last_comp_nonempty _ Hv) as Hp.
  unfold os_makedirs.
  assert (forall n, makedirs_fuel n p w = os_mkdir p w) as H; [|apply H].
  assert (last_comp p <> "") as Hl by (by intros E; rewrite E in Hv).
  assert (os_path_dirname p <> "" -> os_path_exists w (os_path_dirname p) = true) as Hx.
  { intros Hne. destruct (dirname_resolves w p k0 Hp Hw Hd) as [|Hh]; [done|].
    unfold os_path_exists. by rewrite Hh, (is_dir_exists _ _ Hd). }
  intros n. destruct n; cbn [makedirs_fuel]; rewrite os_path_split_eq;
    rewrite (bool_decide_eq_false_2 _ Hl); rewrite bind_query;
    (destruct (decide (os_path_dirname p = "")) as [Hh|Hh];
      [rewrite (bool_decide_eq_true_2 _ Hh); reflexivity
      |rewrite (Hx Hh), andb_false_r; reflexivity]).
Qed.

(** ** Names with a suffix *)

Lemma valid_name_suffix c t :
  valid_name c = true -> has_sep t = false -> t <> "" -> valid_name (c +:+ t) = true.
Proof.
  intros Hv Ht Hne.
  destruct (valid_name_app _ t (valid_name_dot _ Hv) (valid_name_dotdot _ Hv) Hne) as [H1 H2].
  unfold valid_name. by rewrite H1, H2, has_sep_app, (valid_name_sep _ Hv), Ht.
Qed.

Lemma valid_name_encrypted c :
  valid_name c = true -> valid_name (c +:+ ".encrypted") = true.
Proof. intros Hv. by apply valid_name_suffix. Qed.

Lemma str_app_inj_l (a b t : string) : a +:+ t = b +:+ t -> a = b.
Proof.
  revert b. induction a as [|x a IH]; intros [|y b]; rewrite ?str_app_cons, ?str_app_nil_l.
  - done.
  - intros H. apply (f_equal String.length) in H. cbn in H. rewrite str_length_app in H. lia.
  - intros H. apply (f_equal String.length) in H. cbn in H. rewrite str_length_app in H. lia.
  - intros [= -> H]. by rewrite (IH _ H).
Qed.

Lemma str_app_not_self (a t : string) : t <> "" -> a <> a +:+ t.
Proof.
  intros Ht H. apply (f_equal String.length) in H. rewrite str_length_app in H.
  destruct t; [done|]. cbn in H. lia.
Qed.

Lemma encrypted_not_cle f : f +:+ ".encrypted" <> "cle.key".
Proof.
  intros H. apply (f_equal String.length) in H. rewrite str_length_app in H.
  cbn in H. lia.
Qed.

Lemma contains_app_r a t : contains (a +:+ t) t = true.
Proof.
  induction a as [|x a IH].
  - rewrite str_app_nil_l. destruct t as [|c t]; [done|]. cbn [contains].
    rewrite <- (str_app_nil_r (String c t)) at 1. by rewrite startswith_app_refl.
  - rewrite str_app_cons. cbn [contains]. by rewrite IH, orb_true_r.
Qed.

Lemma snoc_inj {A} (k1 k2 : list A) x y : k1 ++ [x] = k2 ++ [y] -> k1 = k2 /\ x = y.
Proof. apply app_inj_tail. Qed.

Lemma snoc_not_self {A} (k : list A) x : k ++ [x] <> k.
Proof. intros H. apply (f_equal length) in H. rewrite length_app in H. cbn in H. lia. Qed.

(** ** The two loops *)

Section Loops.
Context (E : Env) (Hgen : generate_key_valid E) (Hopens : decrypt_encrypt E)
  (Hperm : listdir_order_perm E).

(** The loop of the backup over plain files. *)
Lemma seal_batch K src D ks kd l w :
  resolve w src = Ok ks -> is_dir_at (files w) ks = true ->
  resolve w D = Ok kd -> is_dir_at (files w) kd = true -> kd <> ks ->
  (forall f, f ∈ l -> valid_name f = true /\
     (exists P, files w !! (ks ++ [f]) = Some (File P)) /\
     is_dir_at (files w) (kd ++ [f +:+ ".encrypted"]) = false) ->
  exists w', for_each l (chiffrer_entree E K src D) w = (w', Ok tt) /\ dirs_eqw w w' /\
    (forall k, (forall f, f ∈ l -> k <> kd ++ [f +:+ ".encrypted"]) ->
       files w' !! k = files w !! k) /\
    (forall f P, f ∈ l -> files w !! (ks ++ [f]) = Some (File P) ->
       exists n, files w' !! (kd ++ [f +:+ ".encrypted"]) =
                 Some (File (fernet_encrypt E K n P))).
Proof.
  intros Hrs Hds Hrd Hdd Hne. revert w Hrs Hds Hrd Hdd.
  induction l as [|x l IH]; intros w Hrs Hds Hrd Hdd Hl.
  { exists w. split; [done|]. split; [apply dirs_eqw_refl|]. split; [done|].
    intros f P Hf. by apply elem_of_nil in Hf. }
  destruct (Hl x) as (Hvx & [P Hx] & Hdx); [apply list_elem_of_here|].
  pose proof (resolve_join _ _ _ _ Hrs Hds Hvx) as Hrx.
  pose proof (resolve_join _ _ _ _ Hrd Hdd (valid_name_encrypted _ Hvx)) as Hre.
  assert (kd ++ [x +:+ ".encrypted"] <> ks ++ [x]) as Hkne.
  { intros [? _]%snoc_inj. done. }
  pose proof (copier_et_chiffrer_ok E K _ _ w _ _ P Hrx
    ltac:(by destruct ks) Hx Hre Hdx Hkne) as Hstep.
  set (w1 := World _ _ _) in Hstep.
  assert (dirs_eqw w w1) as He1.
  { split; [|done]. by apply dirs_eq_insert_file. }
  destruct (IH w1) as (w' & Hrun & He & Hframe & Hsealed).
  { by eapply resolve_dirs_eq. }
  { by rewrite <- (proj1 He1). }
  { by eapply resolve_dirs_eq. }
  { by rewrite <- (proj1 He1). }
  { intros f Hf. destruct (Hl f) as (Hvf & [Pf Hff] & Hdf); [by apply list_elem_of_further|].
    split; [done|]. split.
    - exists Pf. cbn. rewrite lookup_insert_ne; [done|].
      intros [? _]%snoc_inj. done.
    - by rewrite <- (proj1 He1). }
  exists w'. split.
  { cbn [for_each]. unfold chiffrer_entree at 1. by rewrite (bind_ok _ _ _ _ _ Hstep). }
  split; [by eapply dirs_eqw_trans|]. split.
  - intros k Hk. rewrite Hframe by (intros f Hf; apply Hk; by apply list_elem_of_further).
    cbn. apply lookup_insert_ne. intros <-. apply (Hk x); [apply list_elem_of_here|done].
  - intros f Pf Hf Hff. destruct (decide (f ∈ l)) as [Hin|Hnin].
    + apply Hsealed; [done|]. cbn. rewrite lookup_insert_ne; [done|].
      intros [? _]%snoc_inj. done.
    + apply elem_of_cons in Hf as [->|]; [|done].
      rewrite Hframe.
      * cbn. rewrite lookup_insert_eq. rewrite Hx in Hff. injection Hff as <-. eauto.
      * intros f Hf [_ Heq]%snoc_inj. apply str_app_inj_l in Heq as ->. done.
Qed.

(** The loop of the restore over tokens named [f.encrypted]. *)
Lemma open_batch K D kd l w :
  fernet_valid_key E K = true ->
  resolve w D = Ok kd -> is_dir_at (files w) kd = true ->
  NoDup l ->
  (forall g, g ∈ l -> exists f n P, g = f +:+ ".encrypted" /\ valid_name f = true /\
     contains f ".encrypted" = false /\
     files w !! (kd ++ [g]) = Some (File (fernet_encrypt E K n P)) /\
     is_dir_at (files w) (kd ++ [f]) = false) ->
  exists w', for_each l (dechiffrer_entree E K D) w = (w', Ok tt) /\ dirs_eqw w w' /\
    (forall k, (forall f, f +:+ ".encrypted" ∈ l ->
                  k <> kd ++ [f] /\ k <> kd ++ [f +:+ ".encrypted"]) ->
       files w' !! k = files w !! k) /\
    (forall f n P, f +:+ ".encrypted" ∈ l ->
       files w !! (kd ++ [f +:+ ".encrypted"]) = Some (File (fernet_encrypt E K n P)) ->
       files w' !! (kd ++ [f]) = Some (File P) /\
       files w' !! (kd ++ [f +:+ ".encrypted"]) = None).
Proof.
  intros HK Hrd Hdd. revert w Hrd Hdd.
  induction l as [|g0 l IH]; intros w Hrd Hdd Hnd Hl.
  { exists w. split; [done|]. split; [apply dirs_eqw_refl|]. split; [done|].
    intros f n P Hf. by apply elem_of_nil in Hf. }
  apply NoDup_cons in Hnd as [Hg0 Hnd].
  destruct (Hl g0) as (f0 & n0 & P0 & -> & Hv0 & Hc0 & Ht0 & Hd0); [apply list_elem_of_here|].
  pose proof (resolve_join _ _ _ _ Hrd Hdd (valid_name_encrypted _ Hv0)) as Hre.
  pose proof (resolve_join _ _ _ _ Hrd Hdd Hv0) as Hrf.
  assert (forall x : string, kd ++ [x] <> []) as Hnil by (intros x; by destruct kd).
  pose proof (dechiffrer_un_ok E K _ _ w _ _ _ P0 Hre (Hnil _) Ht0
    (Hopens _ _ _ HK) Hrf Hd0) as Hstep.
  set (w1 := set_files _ _) in Hstep.
  assert (is_dir_at (files w) (kd ++ [f0 +:+ ".encrypted"]) = false) as Hde.
  { apply (file_not_dir _ _ _ (Hnil _) Ht0). }
  assert (dirs_eqw w w1) as He1.
  { split; [|done]. intros k. cbn.
    rewrite is_dir_at_delete_file, is_dir_at_insert_file; [done..|].
    by rewrite is_dir_at_insert_file. }
  assert (forall f, f +:+ ".encrypted" ∈ l -> f +:+ ".encrypted" <> f0) as Hfresh.
  { intros f _ <-. by rewrite contains_app_r in Hc0. }
  destruct (IH w1) as (w' & Hrun & He & Hframe & Hopened).
  { by eapply resolve_dirs_eq. }
  { by rewrite <- (proj1 He1). }
  { done. }
  { intros g Hg. destruct (Hl g) as (f & n & P & -> & Hv & Hc & Ht & Hd); [by apply list_elem_of_further|].
    exists f, n, P. split; [done|]. split; [done|]. split; [done|]. split.
    - cbn. rewrite lookup_delete_ne, lookup_insert_ne; [done|..].
      + intros [_ Heq]%snoc_inj. by apply (Hfresh f).
      + intros [_ Heq]%snoc_inj. congruence.
    - by rewrite <- (proj1 He1). }
  exists w'. split.
  { cbn [for_each]. unfold dechiffrer_entree at 1.
    rewrite (bool_decide_eq_false_2 _ (encrypted_not_cle f0)).
    rewrite (str_replace_suffix _ Hc0). by rewrite (bind_ok _ _ _ _ _ Hstep). }
  split; [by eapply dirs_eqw_trans|]. split.
  - intros k Hk. rewrite Hframe by (intros f Hf; apply Hk; by apply list_elem_of_further).
    destruct (Hk f0) as [H1 H2]; [apply list_elem_of_here|].
    cbn. by rewrite lookup_delete_ne, lookup_insert_ne.
  - assert (forall f f', f +:+ ".encrypted" ∈ (f0 +:+ ".encrypted") :: l ->
              f' +:+ ".encrypted" <> f) as Hnot.
    { intros f f' Hf <-. destruct (Hl _ Hf) as (f1 & _ & _ & Heq & _ & Hc1 & _).
      apply str_app_inj_l in Heq as <-. by rewrite contains_app_r in Hc1. }
    intros f n P Hf Ht.
    destruct (decide (f +:+ ".encrypted" ∈ l)) as [Hin|Hnin].
    + eapply Hopened; [done|]. cbn. rewrite lookup_delete_ne, lookup_insert_ne; [done|..].
      * intros [_ Heq]%snoc_inj. by apply (Hfresh f).
      * intros [_ Heq]%snoc_inj. congruence.
    + apply elem_of_cons in Hf as [Heq|]; [|done].
      apply str_app_inj_l in Heq as ->.
      rewrite Ht0 in Ht. injection Ht as Ht.
      assert (P = P0) as ->.
      { pose proof (Hopens K n0 P0 HK) as H1.
        rewrite Ht, (Hopens K n P HK) in H1. by injection H1. }
      split.
      * rewrite Hframe.
        -- cbn. rewrite lookup_delete_ne, lookup_insert_eq; [done|].
           intros [_ Heq]%snoc_inj. by apply (str_app_not_self f0 ".encrypted").
        -- intros f Hf. split; intros [_ Heq]%snoc_inj.
           ++ subst f. done.
           ++ by apply (Hfresh f).
      * rewrite Hframe.
        -- cbn. by rewrite lookup_delete_eq.
        -- intros f Hf. split; intros [_ Heq]%snoc_inj.
           ++ apply (Hnot f f0); [by apply list_elem_of_further|done].
           ++ rewrite Heq in Hg0. done.
Qed.

End Loops.

(** ** The entries of a directory *)

Lemma NoDup_omap_fst {A B C} (f : A -> option C) (l : list (A * B)) :
  (forall x y c, f x = Some c -> f y = Some c -> x = y) ->
  NoDup l.*1 -> NoDup (omap (fun ab => f ab.1) l).
Proof.
  intros Hinj. induction l as [|[a b] l IH]; cbn; [constructor|].
  intros [Ha Hnd]%NoDup_cons. destruct (f a) as [c|] eqn:Hfa; [|by apply IH].
  apply NoDup_cons. split; [|by apply IH].
  intros ([a' b'] & Hin & Hc)%list_elem_of_omap. cbn in Hc.
  rewrite (Hinj _ _ _ Hfa Hc) in Ha. apply Ha.
  apply list_elem_of_fmap. by exists (a', b').
Qed.

Lemma NoDup_entries m k : NoDup (entries m k).
Proof.
  apply NoDup_omap_fst; [|apply NoDup_fst_map_to_list].
  intros x y c Hx%child_of_Some Hy%child_of_Some. congruence.
Qed.

Lemma removelast_snoc_neq {A} (ks kd : list A) c :
  removelast kd <> ks -> ks ++ [c] <> kd.
Proof. intros Hne <-. by rewrite removelast_last in Hne. Qed.

Lemma well_formed_orphan m k c :
  well_formed m = true -> exists_at m k = false -> m !! (k ++ [c]) = None.
Proof.
  intros Hwf Hk. destruct (m !! (k ++ [c])) as [n|] eqn:Hn; [|done].
  destruct (well_formed_lookup _ _ _ Hwf Hn) as [_ Hd].
  rewrite removelast_last in Hd. apply is_dir_exists in Hd. congruence.
Qed.

Lemma lookup_not_dir m k :
  k <> [] -> is_dir_at m k = false -> is_Some (m !! k) -> exists P, m !! k = Some (File P).
Proof.
  intros Hk Hd [n Hn]. destruct k; [done|]. unfold is_dir_at in Hd. rewrite Hn in *.
  destruct n; [eauto|done].
Qed.

Lemma dirs_lew_insert_dir w k :
  dirs_lew w (set_files w (<[k := Dir]> (files w))).
Proof.
  split; [|done]. cbn. intros k' Hk'. destruct k' as [|c k']; [done|].
  unfold is_dir_at in *. destruct (decide (k = c :: k')) as [->|Hne].
  - by rewrite lookup_insert_eq.
  - by rewrite lookup_insert_ne.
Qed.

Section DirectoryBackup.
Context (E : Env) (Hgen : generate_key_valid E) (Hopens : decrypt_encrypt E)
  (Hperm : listdir_order_perm E).

(** Lines 48-68 on a directory of plain files and a destination that does
    not exist yet. *)
Lemma traiter_source_directory K src dst ks kd w :
  well_formed (files w) = true ->
  resolve w src = Ok ks -> is_dir_at (files w) ks = true -> (forall c, is_dir_at (files w) (ks ++ [c]) = false) ->
  resolve w (destination src dst) = Ok kd ->
  exists_at (files w) kd = false ->
  valid_name (last_comp (destination src dst)) = true ->
  removelast kd <> ks ->
  exists w1, traiter_source E K src dst w = (w1, Ok (Some (destination src dst))) /\
    dirs_lew w w1 /\
    files w1 !! kd = Some Dir /\
    (forall k, k <> kd -> (forall c, k <> kd ++ [c]) -> files w1 !! k = files w !! k) /\
    sealed_copy E K w ks w1 kd.
Proof.
  intros Hwf Hrs Hds Hof Hrd Hxd Hvd Hpar.
  set (D := destination src dst) in *.
  assert (kd <> []) as Hkd by (by intros ->).
  assert (kd <> ks) as Hne.
  { intros ->. apply is_dir_exists in Hds. congruence. }
  set (w0 := set_files w (<[kd := Dir]> (files w))).
  assert (os_makedirs D w = (w0, Ok tt)) as Hmk.
  { rewrite (makedirs_parent_exists _ _ _ Hrd Hvd).
    apply os_mkdir_ok; [done|by apply valid_last_comp_no_slash|done]. }
  pose proof (dirs_lew_insert_dir w kd) as Hle. fold w0 in Hle.
  pose proof (resolve_dirs_le _ _ _ _ Hle Hrs) as Hrs0.
  pose proof (resolve_dirs_le _ _ _ _ Hle Hrd) as Hrd0.
  assert (is_dir_at (files w0) ks = true) as Hds0 by (by apply (proj1 Hle)).
  assert (is_dir_at (files w0) kd = true) as Hdd0.
  { destruct kd; [done|]. unfold is_dir_at. cbn. by rewrite lookup_insert_eq. }
  assert (forall c, files w0 !! (ks ++ [c]) = files w !! (ks ++ [c])) as Hsrc0.
  { intros c. cbn. apply lookup_insert_ne. intros Heq. by apply (removelast_snoc_neq ks kd c). }
  assert (forall c, files w0 !! (kd ++ [c]) = None) as Hdst0.
  { intros c. cbn. rewrite lookup_insert_ne by (intros Heq; symmetry in Heq; by apply snoc_not_self in Heq).
    by apply well_formed_orphan. }
  set (l := listdir_order E (entries (files w0) ks)).
  assert (forall f, f ∈ l <-> is_Some (files w !! (ks ++ [f]))) as Hl.
  { intros f. unfold l. by rewrite (listdir_order_elem E Hperm), elem_of_entries, Hsrc0. }
  assert (forall f, is_Some (files w !! (ks ++ [f])) ->
            exists P, files w !! (ks ++ [f]) = Some (File P)) as Hfile.
  { intros f. apply lookup_not_dir; [by destruct ks|apply Hof]. }
  destruct (seal_batch E K src D ks kd l w0 Hrs0 Hds0 Hrd0 Hdd0 Hne)
    as (w1 & Hrun & He & Hframe & Hsealed).
  { intros f Hf%Hl. split; [|split].
    - eapply entries_valid; [exact Hwf|]. by apply elem_of_entries.
    - rewrite Hsrc0. by apply Hfile.
    - pose proof (Hdst0 (f +:+ ".encrypted")) as Hnone.
      destruct (kd ++ [f +:+ ".encrypted"]) eqn:Ek; [by destruct kd|].
      unfold is_dir_at. by rewrite Hnone. }
  exists w1. split.
  { unfold traiter_source, isdir, path_exists.
    rewrite bind_query, (isdir_resolved _ _ _ Hrs), Hds.
    change (match dst with Some d => d | None => src +:+ "_chiffre" end) with D.
    rewrite bind_query. unfold os_path_exists. rewrite Hrd, Hxd.
    rewrite (bind_ok _ _ _ _ _ Hmk).
    rewrite (bind_ok _ _ _ _ _ (os_listdir_dir _ _ _ _ Hrs0 Hds0)).
    fold l. by rewrite (bind_ok _ _ _ _ _ Hrun). }
  split.
  { eapply dirs_lew_trans; [exact Hle|]. destruct He as [He Hc]. split; [|done].
    intros k Hk. by rewrite <- He. }
  split.
  { rewrite Hframe.
    - cbn. by rewrite lookup_insert_eq.
    - intros f _ Heq. symmetry in Heq. by apply snoc_not_self in Heq. }
  split.
  { intros k Hk1 Hk2. rewrite Hframe by (intros f _; apply Hk2).
    cbn. by apply lookup_insert_ne. }
  split.
  - intros f P Hf. apply Hsealed; [apply Hl; by rewrite Hf|by rewrite Hsrc0].
  - intros g Hg.
    destruct (decide (g ∈ (fun f => f +:+ ".encrypted") <$> l)) as [Hin|Hnin].
    + apply list_elem_of_fmap in Hin as (f & -> & Hf). exists f. split; [done|]. by apply Hl.
    + rewrite Hframe, Hdst0 in Hg; [by destruct Hg|].
      intros f Hf [_ ->]%snoc_inj. apply Hnin. apply list_elem_of_fmap. eauto.
Qed.

End DirectoryBackup.

Lemma chiffre_not_cle c : c +:+ "_chiffre" <> "cle.key".
Proof.
  intros H. apply (f_equal String.length) in H. rewrite str_length_app in H.
  cbn in H. lia.
Qed.

Lemma sibling_not_child {A} (k : list A) x y c : k ++ [x] <> (k ++ [y]) ++ [c].
Proof.
  intros H. apply (f_equal length) in H. rewrite !length_app in H. cbn in H. lia.
Qed.

Section DirectoryRuns.
Context (E : Env) (Hgen : generate_key_valid E) (Hopens : decrypt_encrypt E)
  (Hperm : listdir_order_perm E).

(** The backup of a directory of plain files to a destination that does not
    exist yet, with the generated key. *)
Lemma directory_backup_run src dst ks kd w :
  well_formed (files w) = true ->
  resolve w src = Ok ks -> is_dir_at (files w) ks = true -> (forall c, is_dir_at (files w) (ks ++ [c]) = false) ->
  resolve w (destination src dst) = Ok kd ->
  exists_at (files w) kd = false ->
  valid_name (last_comp (destination src dst)) = true ->
  last_comp (destination src dst) <> "cle.key" ->
  removelast kd <> ks ->
  is_dir_at (files w) (removelast kd ++ ["cle.key"]) = false ->
  exists w2, sauvegarder_et_chiffrer E src dst None None w = (w2, Ok tt) /\
    dirs_lew w w2 /\
    files w2 !! kd = Some Dir /\
    files w2 !! (removelast kd ++ ["cle.key"]) =
      Some (File (fernet_generate_key E (entropy w))) /\
    (forall k, k <> kd -> (forall c, k <> kd ++ [c]) ->
       k <> removelast kd ++ ["cle.key"] -> files w2 !! k = files w !! k) /\
    sealed_copy E (fernet_generate_key E (entropy w)) w ks w2 kd.
Proof.
  intros Hwf Hrs Hds Hof Hrd Hxd Hvd Hnk Hpar Hkk.
  set (K := fernet_generate_key E (entropy w)).
  set (we := World (files w) (cwd w) (S (entropy w))).
  set (D := destination src dst) in *.
  set (kk := removelast kd ++ ["cle.key"]) in *.
  assert (choisir_cle E None w = (we, Ok K)) as Hc by reflexivity.
  destruct (traiter_source_directory E Hperm K src dst ks kd we Hwf Hrs Hds Hof Hrd Hxd Hvd Hpar)
    as (w1 & Ht & Hle & Hdir & Hframe & Hsealed).
  fold D in Ht.
  pose proof (resolve_dirs_le _ _ _ _ Hle Hrd : resolve w1 D = Ok kd) as Hrd1.
  destruct (default_key_path_is_sibling _ _ _ Hrd1 Hvd) as [Hkd Hrk]. fold kk in Hrk.
  assert (kk <> kd) as Hkkd.
  { unfold kk. rewrite Hkd at 2. intros [_ Heq]%snoc_inj. congruence. }
  assert (forall c, kk <> kd ++ [c]) as Hkkc.
  { intros c. unfold kk. rewrite Hkd at 2. apply sibling_not_child. }
  assert (is_dir_at (files w1) kk = false) as Hkk1.
  { unfold kk, is_dir_at in *. destruct (removelast kd ++ ["cle.key"]) eqn:Ek;
      [by destruct (removelast kd)|].
    rewrite <- Ek in *. by rewrite Hframe. }
  pose proof (write_file_ok _ K _ _ Hrk Hkk1) as Hw.
  set (w2 := set_files w1 _) in Hw.
  exists w2. split.
  { unfold sauvegarder_et_chiffrer.
    rewrite (bind_ok _ _ _ _ _ Hc).
    rewrite (bind_ok _ _ _ _ _ (Fernet_ok E K we (Hgen _))).
    rewrite (bind_ok _ _ _ _ _ Ht). exact Hw. }
  split.
  { eapply dirs_lew_trans; [exact Hle|]. split; [|done]. intros k Hk. cbn.
    by rewrite is_dir_at_insert_file. }
  split; [cbn; by rewrite lookup_insert_ne|].
  split; [cbn; by rewrite lookup_insert_eq|].
  split.
  { intros k H1 H2 H3. cbn. rewrite lookup_insert_ne by done. by apply Hframe. }
  destruct Hsealed as [Hs1 Hs2]. split.
  - intros f P Hf. destruct (Hs1 f P Hf) as [n Hn]. exists n. cbn.
    by rewrite lookup_insert_ne.
  - intros g Hg. apply Hs2. cbn in Hg. by rewrite lookup_insert_ne in Hg.
Qed.

(** The restore of a sealed copy whose key lies beside it. *)
Lemma sealed_copy_restore_run v kv K w w0 ks :
  valid_name (last_comp v) = true ->
  resolve w v = Ok kv -> is_dir_at (files w) kv = true ->
  files w !! (removelast kv ++ ["cle.key"]) = Some (File K) ->
  fernet_valid_key E K = true ->
  well_formed (files w0) = true -> (forall c, is_dir_at (files w0) (ks ++ [c]) = false) ->
  (forall c, is_Some (files w0 !! (ks ++ [c])) -> contains c ".encrypted" = false) ->
  sealed_copy E K w0 ks w kv ->
  exists w', dechiffrer_fichiers E v None w = (w', Ok tt) /\
    dirs_eqw w w' /\
    same_entries w0 ks w' kv /\
    (forall k, (forall c, k <> kv ++ [c]) -> files w' !! k = files w !! k).
Proof.
  intros Hv Hrv Hdv Hkey HK Hwf Hof Hnames [Hs1 Hs2].
  destruct (default_key_path_is_sibling _ _ _ Hrv Hv) as [Hkv Hrk].
  assert (read_file (os_path_join (os_path_dirname v) "cle.key") w = (w, Ok K)) as Hread.
  { eapply read_file_ok; [exact Hrk|by destruct (removelast kv)|done]. }
  assert (forall f, is_Some (files w0 !! (ks ++ [f])) ->
            exists P, files w0 !! (ks ++ [f]) = Some (File P)) as Hfile.
  { intros f. apply lookup_not_dir; [by destruct ks|apply Hof]. }
  set (l := listdir_order E (entries (files w) kv)).
  assert (forall g, g ∈ l <-> is_Some (files w !! (kv ++ [g]))) as Hl.
  { intros g. unfold l. by rewrite (listdir_order_elem E Hperm), elem_of_entries. }
  assert (NoDup l) as Hnd.
  { unfold l. rewrite (Hperm _). apply NoDup_entries. }
  destruct (open_batch E Hopens K v kv l w HK Hrv Hdv Hnd) as (w' & Hrun & He & Hframe & Hopened).
  { intros g Hg%Hl. destruct (Hs2 g Hg) as (f & -> & Hf).
    destruct (Hfile f Hf) as [P HP]. destruct (Hs1 f P HP) as [n Hn].
    exists f, n, P. split; [done|]. split.
    { destruct (well_formed_lookup _ _ _ Hwf HP) as [Hall _].
      rewrite Forall_app in Hall. destruct Hall as [_ Hall]. by inversion Hall. }
    split; [by apply Hnames|]. split; [done|].
    destruct (files w !! (kv ++ [f])) as [n'|] eqn:Hn'.
    - destruct (Hs2 f) as (f' & -> & Hf'); [by rewrite Hn'|].
      pose proof (Hnames _ Hf) as Hc. by rewrite contains_app_r in Hc.
    - destruct (kv ++ [f]) eqn:Ek; [by destruct kv|]. unfold is_dir_at. by rewrite Hn'. }
  exists w'. split.
  { unfold dechiffrer_fichiers. rewrite (bind_ok _ _ _ _ _ Hread).
    rewrite (bind_ok _ _ _ _ _ (Fernet_ok E K w HK)).
    unfold isdir. rewrite bind_query, (isdir_resolved _ _ _ Hrv), Hdv.
    by rewrite (bind_ok _ _ _ _ _ (os_listdir_dir _ _ _ _ Hrv Hdv)). }
  split; [done|]. split.
  - intros c. destruct (files w0 !! (ks ++ [c])) as [n|] eqn:Hc.
    + destruct (Hfile c) as [P HP]; [by rewrite Hc|]. rewrite Hc in HP. injection HP as ->.
      destruct (Hs1 c P Hc) as [n Hn].
      apply (Hopened c n P); [|done]. apply Hl. by rewrite Hn.
    + destruct (decide (c ∈ l)) as [Hin|Hnin].
      * pose proof (proj1 (Hl c) Hin) as Hsome.
        destruct (Hs2 c Hsome) as (f & -> & Hf).
        destruct (Hfile f Hf) as [P HP]. destruct (Hs1 f P HP) as [n Hn].
        by apply (Hopened f n P).
      * rewrite Hframe.
        -- destruct (files w !! (kv ++ [c])) as [n|] eqn:Hn; [|done].
           exfalso. apply Hnin, Hl. by rewrite Hn.
        -- intros f Hf. split; intros [_ Heq]%snoc_inj.
           ++ subst c. destruct (Hs2 _ (proj1 (Hl _) Hf)) as (f' & Heq & Hf').
              apply str_app_inj_l in Heq as <-. rewrite Hc in Hf'. by destruct Hf'.
           ++ by subst c.
  - intros k Hk. apply Hframe. intros f _. split; apply Hk.
Qed.

End DirectoryRuns.

Lemma only_files_spec w ks :
  only_files w ks = true -> forall c, is_dir_at (files w) (ks ++ [c]) = false.
Proof.
  unfold only_files. rewrite forallb_forall. intros H c.
  destruct (files w !! (ks ++ [c])) as [n|] eqn:Hn.
  - apply negb_true_iff, H, list_elem_of_In, elem_of_entries. by rewrite Hn.
  - destruct (ks ++ [c]) eqn:Ek; [by destruct ks|]. unfold is_dir_at. by rewrite Hn.
Qed.

Lemma no_encrypted_name_spec w ks :
  no_encrypted_name w ks = true ->
  forall c, is_Some (files w !! (ks ++ [c])) -> contains c ".encrypted" = false.
Proof.
  unfold no_encrypted_name. rewrite forallb_forall. intros H c Hc.
  by apply negb_true_iff, H, list_elem_of_In, elem_of_entries.
Qed.

(** The default destination of a directory named by a plain last component
    is its sibling [<name>_chiffre]. *)
Lemma default_destination w src ks :
  resolve w src = Ok ks -> valid_name (last_comp src) = true ->
  exists k0, ks = k0 ++ [last_comp src] /\
    resolve w (src +:+ "_chiffre") = Ok (k0 ++ [last_comp src +:+ "_chiffre"]) /\
    last_comp (src +:+ "_chiffre") = last_comp src +:+ "_chiffre" /\
    valid_name (last_comp (src +:+ "_chiffre")) = true.
Proof.
  intros Hr Hv. destruct (resolve_plain _ _ _ Hr Hv) as (k0 & -> & _ & _).
  destruct (resolve_plain_suffix w src k0 "_chiffre" Hr Hv eq_refl) as (H1 & H2 & H3); [done|].
  exists k0. rewrite H2. done.
Qed.

Section DirectoryTheorems.
Context (E : Env) (Hgen : generate_key_valid E) (Hopens : decrypt_encrypt E)
  (Hperm : listdir_order_perm E).


(** The round trip of a directory through a destination that does not
    exist yet. *)
Lemma directory_round_trip_fresh src dst ks kd w :
  well_formed (files w) = true ->
  resolve w src = Ok ks -> is_dir_at (files w) ks = true ->
  only_files w ks = true -> no_encrypted_name w ks = true ->
  resolve w (destination src dst) = Ok kd ->
  exists_at (files w) kd = false ->
  valid_name (last_comp (destination src dst)) = true ->
  last_comp (destination src dst) <> "cle.key" ->
  removelast kd <> ks ->
  is_dir_at (files w) (removelast kd ++ ["cle.key"]) = false ->
  exists w1 w2,
    sauvegarder_et_chiffrer E src dst None None w = (w1, Ok tt) /\
    dechiffrer_fichiers E (destination src dst) None w1 = (w2, Ok tt) /\
    resolve w2 (destination src dst) = Ok kd /\
    is_dir_at (files w2) kd = true /\
    same_entries w ks w2 kd /\
    same_entries w ks w2 ks.
Proof.
  intros Hwf Hrs Hds Hof Hnames Hrd Hxd Hvd Hnk Hpar Hkk.
  pose proof (only_files_spec _ _ Hof) as Hof'. clear Hof. rename Hof' into Hof.
  pose proof (no_encrypted_name_spec _ _ Hnames) as Hn'. clear Hnames. rename Hn' into Hnames.
  destruct (directory_backup_run E Hgen Hperm src dst ks kd w Hwf Hrs Hds Hof Hrd Hxd Hvd Hnk Hpar Hkk)
    as (w1 & Hrun & Hle & Hdir & Hkey & Hframe & Hsealed).
  pose proof (resolve_dirs_le _ _ _ _ Hle Hrd) as Hrd1.
  assert (kd <> []) as Hkd by (by intros ->).
  assert (is_dir_at (files w1) kd = true) as Hdd1.
  { destruct kd; [done|]. unfold is_dir_at. by rewrite Hdir. }
  destruct (sealed_copy_restore_run E Hopens Hperm (destination src dst) kd _ w1 w ks
              Hvd Hrd1 Hdd1 Hkey (Hgen _) Hwf Hof Hnames Hsealed)
    as (w2 & Hrun2 & He & Hsame & Hframe2).
  exists w1, w2. split; [done|]. split; [done|].
  split; [by eapply resolve_dirs_eq|].
  split; [by rewrite <- (proj1 He)|]. split; [done|].
  intros c. rewrite Hframe2.
  - apply Hframe.
    + by apply removelast_snoc_neq.
    + intros c' [-> _]%snoc_inj. apply is_dir_exists in Hds. congruence.
    + intros [Heq _]%snoc_inj. congruence.
  - intros c' [-> _]%snoc_inj. apply is_dir_exists in Hds. congruence.
Qed.


End DirectoryTheorems.

(** ** The saving of the key *)

Lemma write_then_read p d w w' :
  write_file p d w = (w', Ok tt) -> read_file p w' = (w', Ok d).
Proof.
  intros [[_ [e [=]]]|(k & Hr & Hd & -> & _)]%write_file_inv.
  eapply read_file_ok.
  - eapply resolve_dirs_eq; [by apply dirs_eqw_insert_file|exact Hr].
  - by intros ->.
  - cbn. by rewrite lookup_insert_eq.
Qed.

Lemma write_file_saves_key cle p w1 : saves_key cle p w1 (write_file p cle w1).
Proof.
  split.
  - intros (k & Hr & Hd)%writable_inv.
    exists k, (set_files w1 (<[k := File cle]> (files w1))).
    pose proof (write_file_ok p cle w1 k Hr Hd) as Hw.
    split; [done|]. split; [done|]. split; [done|]. by eapply write_then_read.
  - intros Hw. destruct (write_file p cle w1) as [w' [[]|e]] eqn:Hrun.
    + apply write_file_inv in Hrun as [[_ [e [=]]]|(k & Hr & Hd & _)].
      unfold writable in Hw. by rewrite Hr, Hd in Hw.
    + pose proof Hrun as Hrun'.
      apply write_file_inv in Hrun' as [[-> _]|(k & _ & _ & _ & [=])].
      exists e. split; [done|]. by eapply raises_write_file.
Qed.

Section KeySaving.
Context (E : Env).


End KeySaving.

(** ** A single file and its sibling *)

Lemma writable_dirs_eq w w' p : dirs_eqw w w' -> writable w' p = writable w p.
Proof.
  intros He. unfold writable. destruct (resolve w p) as [k|e] eqn:Hr.
  - rewrite (resolve_dirs_eq _ _ _ _ He Hr). destruct He as [He _]. by rewrite (He k).
  - destruct (resolve w' p) as [k|e'] eqn:Hr'; [|done].
    apply (resolve_dirs_eq _ _ _ _ (dirs_eqw_sym _ _ He)) in Hr'. congruence.
Qed.

Section SingleFile.
Context (E : Env) (Hgen : generate_key_valid E).


End SingleFile.

(** ** The command line *)

Section CommandLine.
Context (E : Env) (Hgen : generate_key_valid E) (Hopens : decrypt_encrypt E)
  (Hperm : listdir_order_perm E) (str_encode : string -> option bytes).

(** A backup that returns has written its key as its last step, unless a
    key was given without a key path. *)
Lemma backup_saves_key src dst kp ks w w' :
  sauvegarder_et_chiffrer E src dst kp ks w = (w', Ok tt) ->
  (kp = None -> ks = None) ->
  (forall q, kp = Some q -> is_Some dst) ->
  exists K w0 w1 d,
    choisir_cle E ks w = (w0, Ok K) /\
    fernet_valid_key E K = true /\
    traiter_source E K src dst w0 = (w1, Ok (Some d)) /\
    write_file (chemin_cle_ecrite d kp) K w1 = (w', Ok tt) /\
    read_file (chemin_cle_ecrite d kp) w' = (w', Ok K).
Proof.
  unfold sauvegarder_et_chiffrer. intros H Hk Hdst.
  apply bind_inv in H as [(w0 & cle & Hc & H)|(e & _ & [=])].
  apply bind_inv in H as [(w1 & K & HK & H)|(e & _ & [=])].
  assert (fernet_valid_key E cle = true) as Hv.
  { unfold Fernet in HK. by destruct (fernet_valid_key E cle). }
  destruct (Fernet_inv E _ _ _ _ HK) as [-> [[= ->]|[=]]].
  apply bind_inv in H as [(w2 & d & Ht & H)|(e & _ & [=])].
  destruct d as [d|].
  - exists cle, w0, w2, d. split; [done|]. split; [done|]. split; [done|].
    assert (write_file (chemin_cle_ecrite d kp) cle w2 = (w', Ok tt)) as Hw.
    { destruct kp as [p|]; [by destruct ks|]. by rewrite (Hk eq_refl) in H. }
    split; [done|]. by eapply write_then_read.
  - apply traiter_source_None in Ht as (_ & -> & _).
    destruct kp as [p|].
    + by destruct (Hdst p eq_refl).
    + by rewrite (Hk eq_refl) in H.
Qed.

Lemma argument_Some argv i s : Cli.argument argv i = Some s -> i < length argv.
Proof. unfold Cli.argument. by destruct (bool_decide_reflect (i < length argv)). Qed.

Lemma argument_None argv i : Cli.argument argv i = None -> length argv <= i.
Proof. unfold Cli.argument. destruct (bool_decide_reflect (i < length argv)); [done|lia]. Qed.

(** X10.  The command line [chiffrer] always leaves the key of the run in
    a file.  The one case in which [sauvegarder_et_chiffrer] saves no key,
    a key given without a key path, cannot be written on the command line,
    where the key is the fifth argument and the key path the fourth.  When
    the script reaches its last line, the key of the run (the fifth
    argument encoded, or the generated key), under which the source was
    processed, was written as the last step to the key path (the fourth
    argument, or [cle.key] in [os.path.dirname] of the destination) and
    reads back from it. *)
Theorem command_line_backup_saves_key argv w w' :
  nth 1 argv "" = "chiffrer" ->
  Cli.main E str_encode argv w = (w', Ok Cli.Termine) ->
  exists K w0 w1 d,
    choisir_cle E (Cli.argument argv 5 ≫= str_encode) w = (w0, Ok K) /\
    fernet_valid_key E K = true /\
    traiter_source E K (nth 2 argv "") (Cli.argument argv 3) w0 = (w1, Ok (Some d)) /\
    write_file (chemin_cle_ecrite d (Cli.argument argv 4)) K w1 = (w', Ok tt) /\
    read_file (chemin_cle_ecrite d (Cli.argument argv 4)) w' = (w', Ok K).
Proof.
  intros Hm. unfold Cli.main. destruct (bool_decide (length argv < 3)); [done|].
  rewrite Hm. rewrite bool_decide_eq_true_2 by done.
  assert (forall q, Cli.argument argv 4 = Some q -> is_Some (Cli.argument argv 3)) as H43.
  { intros q H4%argument_Some. unfold Cli.argument.
    rewrite bool_decide_eq_true_2 by lia. eauto. }
  destruct (Cli.argument argv 5) as [s|] eqn:H5; cbn [mbind option_bind].
  - destruct (str_encode s) as [c|]; [|done].
    intros [(w1 & [] & Hrun & [= <-])|(e & _ & [=])]%bind_inv.
    apply (backup_saves_key _ _ _ _ _ _ Hrun); [|done].
    intros H4%argument_None. apply argument_Some in H5. lia.
  - intros [(w1 & [] & Hrun & [= <-])|(e & _ & [=])]%bind_inv.
    by apply (backup_saves_key _ _ _ _ _ _ Hrun).
Qed.


End CommandLine.

(** ** A source written with a trailing slash *)

Lemma for_each_ok_elem {A} (l : list A) body w w' x :
  for_each l body w = (w', Ok tt) -> x ∈ l ->
  exists w1 w2, body x w1 = (w2, Ok tt).
Proof.
  revert w. induction l as [|y l IH]; intros w H Hx; [by apply elem_of_nil in Hx|].
  cbn [for_each] in H. apply bind_inv in H as [(w1 & [] & Hy & H)|(e & _ & [=])].
  apply elem_of_cons in Hx as [->|Hx]; [eauto|by eapply IH].
Qed.

(** Nothing resolves below a file. *)
Lemma resolve_below_file w p k d y :
  resolve w p = Ok k -> k <> [] -> files w !! k = Some (File d) ->
  endswith_sep p = false -> startswith y "/" = false ->
  resolve w (os_path_join p y) = Raise NotADirectoryError.
Proof.
  intros Hr Hk Hf He Hy. unfold resolve in *.
  destruct (bool_decide_reflect (p = "")) as [->|Hp]; [done|].
  unfold os_path_join. rewrite Hy, He, (bool_decide_eq_false_2 (p = "")) by done.
  cbn [orb]. rewrite bool_decide_eq_false_2 by (intros [? ?]%str_app_eq_nil; done).
  rewrite startswith_sep_app by done.
  change (p +:+ "/" +:+ y) with (p +:+ String sep y).
  rewrite split_sep_app_sep, walk_app, Hr.
  pose proof (split_sep_nonempty y) as Hne.
  destruct (split_sep y) as [|c rest]; [done|]. cbn [walk].
  rewrite (file_not_dir _ _ _ Hk Hf).
  destruct k; [done|]. unfold exists_at. by rewrite Hf.
Qed.

Lemma shutil_copy_inv src dst w w' :
  shutil_copy src dst w = (w', Ok tt) ->
  (exists d, read_file src w = (w, Ok d)) /\ exists k, resolve w dst = Ok k.
Proof.
  unfold shutil_copy. rewrite bind_query.
  destruct (os_path_isdir w dst) eqn:Hd; rewrite bind_query.
  - apply isdir_inv in Hd as (k & Hr & _).
    destruct (samefile _ _ _); [done|].
    intros [(w1 & d & Hread & _)|(e & _ & [=])]%bind_inv.
    pose proof (read_file_state _ _ _ _ Hread) as ->. eauto.
  - destruct (samefile _ _ _); [done|].
    intros [(w1 & d & Hread & Hw)|(e & _ & [=])]%bind_inv.
    pose proof (read_file_state _ _ _ _ Hread) as ->. split; [eauto|].
    apply write_file_inv in Hw as [[_ [e [=]]]|(k & Hr & _)]. eauto.
Qed.

Lemma join_trailing_slash a b :
  endswith_sep a = true -> startswith b "/" = false -> os_path_join a b = a +:+ b.
Proof. intros Ha Hb. unfold os_path_join. by rewrite Hb, Ha, orb_true_r. Qed.

Lemma endswith_sep_app (a b : string) : b <> "" -> endswith_sep (a +:+ b) = endswith_sep b.
Proof.
  intros Hb. induction a as [|c a IH]; [by rewrite str_app_nil_l|].
  rewrite str_app_cons. cbn [endswith_sep]. rewrite IH.
  destruct (a +:+ b) eqn:E; [|done].
  apply str_app_eq_nil in E as [_ ->]. done.
Qed.

Section TrailingSlash.
Context (E : Env) (Hgen : generate_key_valid E) (Hopens : decrypt_encrypt E)
  (Hperm : listdir_order_perm E).

(** X12.  A source directory written with a trailing slash, and no
    destination: the backup never succeeds.  The destination
    [<source>_chiffre] is then the entry [_chiffre] of the source itself
    (["docs/" + "_chiffre"]); it exists when the source is listed, the
    directory just made or what was there, and the loop comes to copy it
    to [_chiffre.encrypted] below itself. *)
Theorem trailing_slash_source_fails src kp ks w :
  endswith_sep src = true ->
  os_path_isdir w src = true ->
  exists w' e, sauvegarder_et_chiffrer E src None kp ks w = (w', Raise e).
Proof.
  intros He Hsrc.
  destruct (sauvegarder_et_chiffrer E src None kp ks w) as [w' [[]|e]] eqn:Hrun; [|eauto].
  exfalso. unfold sauvegarder_et_chiffrer in Hrun.
  apply bind_inv in Hrun as [(w0 & cle & Hc & Hrun)|(e & _ & [=])].
  apply bind_inv in Hrun as [(w1 & K & HK & Hrun)|(e & _ & [=])].
  destruct (Fernet_inv E _ _ _ _ HK) as [-> _].
  apply bind_inv in Hrun as [(w2 & d & Ht & _)|(e & _ & [=])].
  destruct (choisir_cle_spec E ks w) as (cle' & w0' & Hc' & Hf0 & Hc0 & _).
  rewrite Hc in Hc'. injection Hc' as <- <-.
  rewrite <- (isdir_ext w w0) in Hsrc by done. clear Hc HK Hf0 Hc0.
  unfold traiter_source, isdir, path_exists in Ht. rewrite bind_query, Hsrc in Ht.
  rewrite bind_query in Ht.
  set (D := src +:+ "_chiffre") in *.
  assert (os_path_join src "_chiffre" = D) as HD by (by apply join_trailing_slash).
  apply isdir_inv in Hsrc as (ksrc & Hrs & Hds).
  pose proof (resolve_join _ _ _ _ Hrs Hds (eq_refl : valid_name "_chiffre" = true)) as HrD.
  rewrite HD in HrD.
  apply bind_inv in Ht as [(wm & [] & Hmk & Ht)|(e & _ & [=])].
  assert (dirs_lew w0 wm /\ exists_at (files wm) (ksrc ++ ["_chiffre"]) = true) as [Hle Hex].
  { unfold os_path_exists in Hmk. rewrite HrD in Hmk.
    destruct (exists_at (files w0) (ksrc ++ ["_chiffre"])) eqn:Hx.
    - injection Hmk as <-. split; [apply dirs_lew_refl|done].
    - assert (valid_name (last_comp D) = true) as Hv.
      { unfold D, last_comp. rewrite split_sep_app_nosep, last_last by done.
        by rewrite (endswith_sep_last_comp _ He). }
      rewrite (makedirs_parent_exists _ _ _ HrD Hv) in Hmk.
      rewrite (os_mkdir_ok _ _ _ HrD (valid_last_comp_no_slash _ Hv) Hx) in Hmk.
      injection Hmk as <-. split; [apply dirs_lew_insert_dir|].
      destruct (ksrc ++ ["_chiffre"]) eqn:Ek; [done|]. unfold exists_at. cbn.
      by rewrite lookup_insert_eq. }
  pose proof (resolve_dirs_le _ _ _ _ Hle Hrs) as Hrs'.
  pose proof (proj1 Hle _ Hds) as Hds'.
  rewrite (bind_ok _ _ _ _ _ (os_listdir_dir _ _ _ _ Hrs' Hds')) in Ht.
  apply bind_inv in Ht as [(w3 & [] & Hloop & _)|(e & _ & [=])].
  destruct (for_each_ok_elem _ _ _ _ "_chiffre" Hloop) as (wa & wb & Hentry).
  { apply (listdir_order_elem E Hperm), elem_of_entries.
    destruct (ksrc ++ ["_chiffre"]) eqn:Ek; [by destruct ksrc|].
    unfold exists_at in Hex. by destruct (files wm !! (s :: l)). }
  unfold chiffrer_entree, copier_et_chiffrer in Hentry. rewrite HD in Hentry.
  apply bind_inv in Hentry as [(wc & [] & Hcopy & _)|(e & _ & [=])].
  apply shutil_copy_inv in Hcopy as [[dd Hread] [k Hk]].
  apply read_file_inv in Hread as (_ & kD & HrD' & HkD & HfD).
  rewrite (resolve_below_file _ _ _ _ _ HrD' HkD HfD) in Hk; [done| |done].
  unfold D. by rewrite endswith_sep_app.
Qed.

End TrailingSlash.

(** ** A single file sealed into a directory *)

Lemma has_sep_last_comp p : has_sep (last_comp p) = false.
Proof.
  rewrite <- os_path_basename_last_comp. unfold os_path_basename, os_path_split.
  destruct (cut_last_sep p) as [h t] eqn:Hc.
  apply cut_last_sep_spec in Hc as (_ & Ht & _). by destruct (rstrip_sep h).
Qed.

Lemma startswith_sep_nosep y : has_sep y = false -> startswith y "/" = false.
Proof.
  intros Hy. destruct (startswith y "/") eqn:Hs; [|done].
  apply startswith_sep_has_sep in Hs. congruence.
Qed.

Lemma last_comp_join a y : has_sep y = false -> last_comp (os_path_join a y) = y.
Proof.
  intros Hy. unfold os_path_join. rewrite (startswith_sep_nosep _ Hy).
  destruct (bool_decide_reflect (a = "")) as [->|Ha]; cbn [orb].
  { rewrite str_app_nil_l. unfold last_comp. by rewrite split_sep_nosep. }
  destruct (endswith_sep a) eqn:He.
  - unfold last_comp at 1. rewrite split_sep_app_nosep, last_last by done.
    by rewrite (endswith_sep_last_comp _ He).
  - change (a +:+ "/" +:+ y) with (a +:+ String sep y).
    unfold last_comp. rewrite split_sep_app_sep, (split_sep_nosep y), last_last by done. done.
Qed.

Lemma join_app_suffix a y t :
  y <> "" -> os_path_join a (y +:+ t) = os_path_join a y +:+ t.
Proof.
  intros Hy. unfold os_path_join. rewrite startswith_sep_app by done.
  destruct (startswith y "/"); [done|].
  destruct (bool_decide (a = "") || endswith_sep a); by rewrite !str_app_assoc.
Qed.

(** A path that resolves to a file ends in the name of the file. *)
Lemma resolve_file_name w p k d :
  well_formed (files w) = true -> resolve w p = Ok k -> k <> [] ->
  files w !! k = Some (File d) ->
  valid_name (last_comp p) = true /\ k = removelast k ++ [last_comp p].
Proof.
  intros Hwf Hr Hk Hf. unfold resolve in Hr.
  destruct (bool_decide_reflect (p = "")) as [->|Hp]; [done|].
  apply walk_file in Hr as (l0 & c & k0 & Hs & H1 & H2 & Hw & Hd & ->);
    [|done|apply split_sep_nonempty|by eapply file_not_dir].
  rewrite split_sep_init_last in Hs. apply app_inj_tail in Hs as [_ <-].
  rewrite removelast_last. split; [|done].
  unfold valid_name. by rewrite H1, H2, has_sep_last_comp.
Qed.

Section FileIntoDirectory.
Context (E : Env) (Hgen : generate_key_valid E) (Hopens : decrypt_encrypt E)
  (Hperm : listdir_order_perm E).


End FileIntoDirectory.




(** X2 on the altered vault: the restore ends in [InvalidToken], on an
    entry that is read but does not open under the key of [cle.key]. *)
Lemma restore_raises_witness :
  exists K p c,
    read_file "cle.key" Toy.coffre_altere = (Toy.coffre_altere, Ok K) /\
    Toy.valid_key K = true /\
    (p = "coffre" \/ exists f, f <> "cle.key" /\ p = os_path_join "coffre" f) /\
    read_file p (dechiffrer_fichiers Toy.env "coffre" None Toy.coffre_altere).1 =
      ((dechiffrer_fichiers Toy.env "coffre" None Toy.coffre_altere).1, Ok c) /\
    fernet_decrypt Toy.env K c = None.
Proof.
  assert (Console.dechiffrer_fichiers Toy.env console_ascii "coffre" None Toy.coffre_altere =
    ((dechiffrer_fichiers Toy.env "coffre" None Toy.coffre_altere).1,
     Raise InvalidToken)) as Hrun by (vm_compute; reflexivity).
  destruct (restore_raises Toy.env _ _ _ _ _ _ Hrun)
    as [(He & _)|[(_ & H)|[(He & _)|He]]];
    [discriminate He|exact H|discriminate He|discriminate He].
Defined.

(** The backup of [docs/] loses nothing of it. *)
Lemma backup_loses_nothing_witness :
  nothing_lost Toy.docs (sauvegarder_et_chiffrer Toy.env "docs" None None None Toy.docs).1.
Proof.
  apply (backup_loses_nothing Toy.env "docs" None None None Toy.docs _
           (sauvegarder_et_chiffrer Toy.env "docs" None None None Toy.docs).2).
  apply surjective_pairing.
Defined.

(** No [cle.key] beside [docs/]; a [cle.key] that holds no key. *)
Lemma restore_needs_its_key_witness :
  (exists e, dechiffrer_fichiers Toy.env "docs" None Toy.docs = (Toy.docs, Raise e) /\
             os_error e = true) /\
  dechiffrer_fichiers Toy.env "coffre" None coffre_sans_cle =
    (coffre_sans_cle, Raise ValueError).
Proof.
  split.
  - apply (proj1 (restore_needs_its_key Toy.env "docs" None Toy.docs)).
    vm_compute; reflexivity.
  - apply (proj2 (restore_needs_its_key Toy.env "coffre" None coffre_sans_cle) (Toy.b "x"));
      vm_compute; reflexivity.
Defined.

(** [absent] does not exist: the restore reads the key and returns. *)
Lemma restore_of_nothing_witness :
  dechiffrer_fichiers Toy.env "absent" None Toy.coffre = (Toy.coffre, Ok tt).
Proof.
  apply (restore_of_nothing_succeeds Toy.env "absent" None Toy.coffre Toy.cle);
    vm_compute; reflexivity.
Defined.

(** The vault with the sub-directory [sous]. *)
Lemma vault_subdirectory_witness :
  (exists w' e, dechiffrer_fichiers Toy.env "coffre" None coffre_sous = (w', Raise e)) /\
  for_each ([] ++ "sous" :: ["a.txt.encrypted"])
    (dechiffrer_entree Toy.env Toy.cle "coffre") coffre_sous =
    (coffre_sous, Raise IsADirectoryError).
Proof.
  destruct (vault_subdirectory_aborts_restore Toy.env toy_listdir_order_perm "coffre" None "sous" coffre_sous
              ltac:(vm_compute; reflexivity) ltac:(vm_compute; reflexivity)
              ltac:(intros H; discriminate H) ltac:(vm_compute; reflexivity)) as [H1 H2].
  split; [exact H1|].
  apply (H2 Toy.cle [] ["a.txt.encrypted"] coffre_sous coffre_sous);
    [apply dirs_eqw_refl|reflexivity].
Defined.

(** The restore of the altered vault leaves [cle.key] and the rest of the
    file system as they were. *)
Lemma restore_stays_in_vault_witness :
  same_outside ["coffre"] Toy.coffre_altere
    (dechiffrer_fichiers Toy.env "coffre" None Toy.coffre_altere).1.
Proof.
  apply (restore_stays_in_vault Toy.env toy_listdir_order_perm "coffre" None Toy.coffre_altere ["coffre"] _
           (dechiffrer_fichiers Toy.env "coffre" None Toy.coffre_altere).2
           ltac:(vm_compute; reflexivity) ltac:(vm_compute; reflexivity)
           ltac:(vm_compute; reflexivity)).
  apply surjective_pairing.
Defined.

(** X10 on [cryptage.py chiffrer a.txt out ma.cle]: the generated key,
    under which [a.txt] was sealed into [out], is in [ma.cle]. *)
Lemma command_line_witness :
  let w' := (Cli.main Toy.env (fun s => Some (Toy.b s))
               ["cryptage.py"; "chiffrer"; "a.txt"; "out"; "ma.cle"] seul_et_dossier).1 in
  read_file "out/a.txt.encrypted" w' = (w', Ok (Toy.seal Toy.cle 1 (Toy.b "hello"))) /\
  read_file "ma.cle" w' = (w', Ok Toy.cle).
Proof.
  cbv zeta. split; [vm_compute; reflexivity|].
  destruct (command_line_backup_saves_key Toy.env (fun s => Some (Toy.b s))
              ["cryptage.py"; "chiffrer"; "a.txt"; "out"; "ma.cle"] seul_et_dossier
              (Cli.main Toy.env (fun s => Some (Toy.b s))
                 ["cryptage.py"; "chiffrer"; "a.txt"; "out"; "ma.cle"] seul_et_dossier).1
              eq_refl ltac:(vm_compute; reflexivity))
    as (K & w0 & w1 & d & Hc & _ & _ & _ & Hread).
  vm_compute in Hc. injection Hc as _ <-. exact Hread.
Defined.

(** X12 on [docs/]. *)
Lemma trailing_slash_witness :
  exists w' e, sauvegarder_et_chiffrer Toy.env "docs/" None None None Toy.docs = (w', Raise e).
Proof.
  apply (trailing_slash_source_fails Toy.env toy_listdir_order_perm "docs/" None None Toy.docs);
    vm_compute; reflexivity.
Defined.



